(** * amqp-ts: a shallow embedding of [src/amqp-ts.ts]

    The facade wraps amqplib (connection, channels) behind [Connection],
    [Exchange], [Queue], [Binding] and [Message].  The embedding follows the
    TypeScript source function by function:

    - JavaScript values ([content: any], [options: any]) are a small sum type
      [jsval]; objects used as property bags are [gmap string jsval];
    - the registries [_exchanges], [_queues], [_bindings] are maps from names
      to object references, objects live in heaps indexed by reference; a
      loop over a registry visits the names in the order of [map_to_list],
      where [for..in] visits them in the order in which they were added;
    - promises are heap cells holding their state and their reactions; every
      [.then] site of the source is one constructor of [task];
    - amqplib is the environment: each call of the library is recorded in a
      trace, and each callback the library makes is an event of the machine. *)

From Stdlib Require Import ZArith Strings.Byte Strings.Ascii.
From stdpp Require Import gmap strings pretty list fin_maps.

Open Scope Z_scope.
Open Scope string_scope.
Open Scope list_scope.

(** ** JavaScript values *)

(** A JavaScript string is a sequence of UTF-16 code units. It is kept here
    as the bytes of its generalised UTF-8 form: UTF-8, in which a surrogate
    that has no partner is written as the three bytes of its code point
    ([ED A0..BF 80..BF]); a string of ASCII characters is its own bytes.
    Numbers that occur in payloads are integers. [VRef] is a reference to an
    object of the facade (a promise resolved with [this]). *)
#[local] Set Warnings "-register-all".
Inductive jsval :=
| VUndefined
| VNull
| VBool (b : bool)
| VNum (n : Z)
| VStr (s : string)
| VBuf (b : list byte)
| VArr (l : list jsval)
| VObj (l : list (string * jsval))
| VRef (r : nat).

(** A thrown JavaScript error, identified by its message. *)
Abbreviation error := string.

Inductive exn (A : Type) :=
| Ret (a : A)
| Throw (e : error).
Arguments Ret {A} a.
Arguments Throw {A} e.

Definition exn_bind {A B} (x : exn A) (f : A → exn B) : exn B :=
  match x with
  | Ret a => f a
  | Throw e => Throw e
  end.

Notation "x ←! e1 ; e2" := (exn_bind e1 (fun x => e2))
  (at level 100, e1 at next level, right associativity).

(** An object used as a bag of properties ([options], [properties]). *)
Abbreviation props := (gmap string jsval).

(** [o.k]: a missing property reads as [undefined]. *)
Definition get_prop (o : props) (k : string) : jsval :=
  default VUndefined (o !! k).

(** JavaScript truthiness, as used by [||] and [if]. *)
Definition truthy (v : jsval) : bool :=
  match v with
  | VUndefined | VNull | VBool false | VNum 0 | VStr "" => false
  | _ => true
  end.

(** [v === "..."] for a string literal. *)
Definition strict_eq_str (v : jsval) (s : string) : bool :=
  match v with
  | VStr s' => bool_decide (s' = s)
  | _ => false
  end.

(** [v === true] *)
Definition strict_eq_true (v : jsval) : bool :=
  match v with
  | VBool true => true
  | _ => false
  end.

(** ** The platform: [JSON] and [Buffer] *)

(** [JSON.stringify] returns [undefined] on values without a JSON form
    ([None]); [JSON.parse] throws a [SyntaxError] on malformed text ([None]). *)
Class JSON := {
  JSON_stringify : jsval → option string;
  JSON_parse : string → option jsval
}.

(** *** UTF-8 *)

Definition in_range (lo hi : N) (b : byte) : bool :=
  ((lo <=? Byte.to_N b) && (Byte.to_N b <=? hi))%N.

Definition continuation (b : byte) : bool := in_range 128 191 b.

(** The bounds of the byte that follows a lead byte: [E0] and [F0] exclude
    the overlong forms, [ED] the surrogates, [F4] what lies beyond U+10FFFF. *)
Definition lower (lead : byte) : N :=
  if (Byte.to_N lead =? 224)%N then 160%N
  else if (Byte.to_N lead =? 240)%N then 144%N
  else 128%N.

Definition upper (lead : byte) : N :=
  if (Byte.to_N lead =? 237)%N then 159%N
  else if (Byte.to_N lead =? 244)%N then 143%N
  else 191%N.

(** The bytes of U+FFFD, the replacement character. *)
Definition replacement : list byte := [xef; xbf; xbd].

(** [new Buffer(s)], the UTF-8 encoding of a string: a surrogate without a
    partner is encoded as U+FFFD. *)
Fixpoint encode_utf8 (l : list byte) : list byte :=
  match l with
  | [] => []
  | b1 :: t1 =>
      match t1 with
      | b2 :: b3 :: t3 =>
          if (Byte.to_N b1 =? 237)%N && in_range 160 191 b2 && continuation b3
          then replacement ++ encode_utf8 t3
          else b1 :: encode_utf8 t1
      | _ => b1 :: encode_utf8 t1
      end
  end.

Definition utf8_bytes (s : string) : list byte :=
  encode_utf8 (String.list_byte_of_string s).

(** The state of the UTF-8 decoder inside a sequence: the bytes seen, how
    many are still needed, and the bounds of the next one. *)
Record sequence := {
  seen : list byte;
  needed : nat;
  bounds : N * N
}.

(** A byte read outside a sequence: what is put out, and the sequence it
    starts. *)
Definition lead (b : byte) : list byte * option sequence :=
  if in_range 0 127 b then ([b], None)
  else if in_range 194 223 b then
    ([], Some {| seen := [b]; needed := 1; bounds := (128%N, 191%N) |})
  else if in_range 224 239 b then
    ([], Some {| seen := [b]; needed := 2; bounds := (lower b, upper b) |})
  else if in_range 240 244 b then
    ([], Some {| seen := [b]; needed := 3; bounds := (lower b, upper b) |})
  else (replacement, None).

(** The UTF-8 decoder: a byte that cannot continue the sequence ends it with
    U+FFFD and is read again outside a sequence; a sequence cut off by the
    end of the bytes gives U+FFFD. *)
Fixpoint decode_utf8 (s : option sequence) (l : list byte) : list byte :=
  match l with
  | [] =>
      match s with
      | None => []
      | Some _ => replacement
      end
  | b :: t =>
      match s with
      | None => (lead b).1 ++ decode_utf8 (lead b).2 t
      | Some q =>
          if in_range (bounds q).1 (bounds q).2 b then
            match needed q with
            | S (S n) =>
                decode_utf8 (Some {| seen := seen q ++ [b]; needed := S n;
                                     bounds := (128%N, 191%N) |}) t
            | _ => (seen q ++ [b]) ++ decode_utf8 None t
            end
          else replacement ++ (lead b).1 ++ decode_utf8 (lead b).2 t
      end
  end.

(** Well-formed UTF-8 (the table of the Unicode standard): the form of a
    string in which every surrogate has its partner. *)
Fixpoint is_utf8 (l : list byte) : bool :=
  match l with
  | [] => true
  | b1 :: t1 =>
      if in_range 0 127 b1 then is_utf8 t1
      else
        match t1 with
        | [] => false
        | b2 :: t2 =>
            if in_range 194 223 b1 then continuation b2 && is_utf8 t2
            else
              match t2 with
              | [] => false
              | b3 :: t3 =>
                  if in_range 224 239 b1
                  then in_range (lower b1) (upper b1) b2 && continuation b3 && is_utf8 t3
                  else
                    match t3 with
                    | [] => false
                    | b4 :: t4 =>
                        in_range 240 244 b1 && in_range (lower b1) (upper b1) b2
                        && continuation b3 && continuation b4 && is_utf8 t4
                    end
              end
        end
  end.

(** [new Buffer(x)] where [x] is the result of [JSON.stringify]. *)
Definition new_Buffer (x : option string) : exn (list byte) :=
  match x with
  | Some s => Ret (utf8_bytes s)
  | None => Throw "TypeError: first argument must be a string or Buffer"
  end.

(** [buffer.toString()]: the UTF-8 decoding of the bytes. *)
Definition Buffer_toString (b : list byte) : string :=
  String.string_of_list_byte (decode_utf8 None b).

Definition application_json : string := "application/json".

(** ** Message: content and properties *)

(** References to objects of the facade, promises, callbacks handed to
    amqplib, and the connection and channel objects amqplib creates. *)
Abbreviation ref := nat.
Abbreviation pid := nat.
Abbreviation token := nat.
Abbreviation link := nat.
Abbreviation chan := nat.

(** A delivery handed over by amqplib ([AmqpLib.Message]). *)
Record delivery := {
  d_content : list byte;
  d_fields : props;
  d_properties : props
}.

Module Message.
Record t := {
    content : option (list byte);
    fields : option props;
    properties : props;
    _channel : option chan;
    _message : option delivery
  }.

Definition with_content (m : t) (c : list byte) : t :=
    {| content := Some c; fields := fields m; properties := properties m;
       _channel := _channel m; _message := _message m |}.

Definition with_properties (m : t) (p : props) : t :=
    {| content := content m; fields := fields m; properties := p;
       _channel := _channel m; _message := _message m |}.
End Message.

Section Codec.
Context `{JSON}.

  (** [Message.setContent] *)
Definition Message_setContent (c : jsval) (m : Message.t) : exn Message.t :=
    match c with
    | VStr s => Ret (Message.with_content m (utf8_bytes s))
    | VBuf b => Ret (Message.with_content m b)
    | _ =>
        b ←! new_Buffer (JSON_stringify c);
        Ret (Message.with_properties (Message.with_content m b)
               (<["contentType" := VStr application_json]> (Message.properties m)))
    end.

  (** [new Message(content?, options = {})] *)
Definition Message_new (c : jsval) (options : props) : exn Message.t :=
    let m := {| Message.content := None; Message.fields := None;
                Message.properties := options;
                Message._channel := None; Message._message := None |} in
    match c with
    | VUndefined => Ret m
    | _ => Message_setContent c m
    end.

  (** The decoding shared by [Message.getContent] and
      [Queue._unpackMessageContent]: the text of the bytes, parsed when the
      content type is exactly ["application/json"]. *)
Definition decode (bytes : list byte) (p : props) : exn jsval :=
    let text := Buffer_toString bytes in
    if strict_eq_str (get_prop p "contentType") application_json then
      match JSON_parse text with
      | Some v => Ret v
      | None => Throw "SyntaxError"
      end
    else Ret (VStr text).

  (** [Message.getContent] *)
Definition Message_getContent (m : Message.t) : exn jsval :=
    match Message.content m with
    | Some b => decode b (Message.properties m)
    | None => Throw "TypeError: cannot read property toString of undefined"
    end.

  (** [Queue._packMessageContent(content, options)]: the bytes returned and
      the [options] object as the call leaves it. *)
Definition Queue__packMessageContent (c : jsval) (options : props)
    : exn (list byte * props) :=
    match c with
    | VStr s => Ret (utf8_bytes s, options)
    | VBuf b => Ret (b, options)
    | _ =>
        b ←! new_Buffer (JSON_stringify c);
        Ret (b, <["contentType" := VStr application_json]> options)
    end.

  (** [Queue._unpackMessageContent(msg)] *)
Definition Queue__unpackMessageContent (msg : delivery) : exn jsval :=
    decode (d_content msg) (d_properties msg).

  (** The first statement of [Exchange.publish]: the normalisation written
      inline there, with [options.contentType || "application/json"]. *)
Definition Exchange_publish_normalize (c : jsval) (options : props)
    : exn (list byte * props) :=
    match c with
    | VStr s => Ret (utf8_bytes s, options)
    | VBuf b => Ret (b, options)
    | _ =>
        b ←! new_Buffer (JSON_stringify c);
        let ct := get_prop options "contentType" in
        Ret (b, <["contentType" :=
                   if truthy ct then ct else VStr application_json]> options)
    end.

End Codec.

(** ** The objects of the facade *)

(** Every [Exchange], [Queue] and [Binding] of the machine belongs to its one
    [Connection]; [delete this._connection] leaves [None]. *)
Inductive conn_ref := this_connection.

(** [Exchange | Queue], told apart by [instanceof Queue]. *)
Inductive endpoint :=
| EP_Exchange (r : ref)
| EP_Queue (r : ref).

Global Instance endpoint_eq_dec : EqDecision endpoint.
Proof. solve_decision. Defined.

(** What a consumer callback is called with: the decoded payload
    ([startConsumer]), the raw delivery and the channel ([rawMessage]), or a
    [Message] ([activateConsumer]). It returns a value or throws. *)
Inductive cb_arg :=
| ArgPayload (v : jsval)
| ArgRaw (msg : option delivery) (ch : option chan)
| ArgMessage (m : Message.t).

(** What a callback throws, as far as the [catch] blocks of the wrappers can
    tell, which read [err.message] and append it to a text: an [Error] with
    its message (or any other value but the next two, whose [message] is
    appended as [message]: "undefined" when it has none), [null], or
    [undefined]. *)
Inductive thrown :=
| Thrown (message : string)
| ThrownNull
| ThrownUndefined.

Inductive outcome :=
| Returns (v : jsval)
| Throws (err : thrown).

Definition consumer_fn := cb_arg → outcome.

Module Exchange.
Record t := {
    initialized : option pid;
    _connection : option conn_ref;
    _channel : option chan;
    _name : string;
    _type : option string;
    _options : option props
  }.

Definition with_initialized (v : _) (x : t) : t :=
  {| initialized := v;
     _connection := _connection x;
     _channel := _channel x;
     _name := _name x;
     _type := _type x;
     _options := _options x |}.

Definition with__connection (v : _) (x : t) : t :=
  {| initialized := initialized x;
     _connection := v;
     _channel := _channel x;
     _name := _name x;
     _type := _type x;
     _options := _options x |}.

Definition with__channel (v : _) (x : t) : t :=
  {| initialized := initialized x;
     _connection := _connection x;
     _channel := v;
     _name := _name x;
     _type := _type x;
     _options := _options x |}.
End Exchange.

Module Queue.
Record t := {
    initialized : option pid;
    _connection : option conn_ref;
    _channel : option chan;
    _name : string;
    _options : option props;
    _consumer : option consumer_fn;
    _isStartConsumer : bool;
    _rawConsumer : bool;
    _consumerOptions : option props;
    _consumerTag : option jsval;
    _consumerInitialized : option pid
  }.

Definition with_initialized (v : _) (x : t) : t :=
  {| initialized := v;
     _connection := _connection x;
     _channel := _channel x;
     _name := _name x;
     _options := _options x;
     _consumer := _consumer x;
     _isStartConsumer := _isStartConsumer x;
     _rawConsumer := _rawConsumer x;
     _consumerOptions := _consumerOptions x;
     _consumerTag := _consumerTag x;
     _consumerInitialized := _consumerInitialized x |}.

Definition with__connection (v : _) (x : t) : t :=
  {| initialized := initialized x;
     _connection := v;
     _channel := _channel x;
     _name := _name x;
     _options := _options x;
     _consumer := _consumer x;
     _isStartConsumer := _isStartConsumer x;
     _rawConsumer := _rawConsumer x;
     _consumerOptions := _consumerOptions x;
     _consumerTag := _consumerTag x;
     _consumerInitialized := _consumerInitialized x |}.

Definition with__channel (v : _) (x : t) : t :=
  {| initialized := initialized x;
     _connection := _connection x;
     _channel := v;
     _name := _name x;
     _options := _options x;
     _consumer := _consumer x;
     _isStartConsumer := _isStartConsumer x;
     _rawConsumer := _rawConsumer x;
     _consumerOptions := _consumerOptions x;
     _consumerTag := _consumerTag x;
     _consumerInitialized := _consumerInitialized x |}.

Definition with__consumer (v : _) (x : t) : t :=
  {| initialized := initialized x;
     _connection := _connection x;
     _channel := _channel x;
     _name := _name x;
     _options := _options x;
     _consumer := v;
     _isStartConsumer := _isStartConsumer x;
     _rawConsumer := _rawConsumer x;
     _consumerOptions := _consumerOptions x;
     _consumerTag := _consumerTag x;
     _consumerInitialized := _consumerInitialized x |}.

Definition with__isStartConsumer (v : _) (x : t) : t :=
  {| initialized := initialized x;
     _connection := _connection x;
     _channel := _channel x;
     _name := _name x;
     _options := _options x;
     _consumer := _consumer x;
     _isStartConsumer := v;
     _rawConsumer := _rawConsumer x;
     _consumerOptions := _consumerOptions x;
     _consumerTag := _consumerTag x;
     _consumerInitialized := _consumerInitialized x |}.

Definition with__rawConsumer (v : _) (x : t) : t :=
  {| initialized := initialized x;
     _connection := _connection x;
     _channel := _channel x;
     _name := _name x;
     _options := _options x;
     _consumer := _consumer x;
     _isStartConsumer := _isStartConsumer x;
     _rawConsumer := v;
     _consumerOptions := _consumerOptions x;
     _consumerTag := _consumerTag x;
     _consumerInitialized := _consumerInitialized x |}.

Definition with__consumerOptions (v : _) (x : t) : t :=
  {| initialized := initialized x;
     _connection := _connection x;
     _channel := _channel x;
     _name := _name x;
     _options := _options x;
     _consumer := _consumer x;
     _isStartConsumer := _isStartConsumer x;
     _rawConsumer := _rawConsumer x;
     _consumerOptions := v;
     _consumerTag := _consumerTag x;
     _consumerInitialized := _consumerInitialized x |}.

Definition with__consumerTag (v : _) (x : t) : t :=
  {| initialized := initialized x;
     _connection := _connection x;
     _channel := _channel x;
     _name := _name x;
     _options := _options x;
     _consumer := _consumer x;
     _isStartConsumer := _isStartConsumer x;
     _rawConsumer := _rawConsumer x;
     _consumerOptions := _consumerOptions x;
     _consumerTag := v;
     _consumerInitialized := _consumerInitialized x |}.

Definition with__consumerInitialized (v : _) (x : t) : t :=
  {| initialized := initialized x;
     _connection := _connection x;
     _channel := _channel x;
     _name := _name x;
     _options := _options x;
     _consumer := _consumer x;
     _isStartConsumer := _isStartConsumer x;
     _rawConsumer := _rawConsumer x;
     _consumerOptions := _consumerOptions x;
     _consumerTag := _consumerTag x;
     _consumerInitialized := v |}.
End Queue.

Module Binding.
Record t := {
    initialized : option pid;
    _source : ref;
    _destination : endpoint;
    _pattern : string;
    _args : props
  }.

Definition with_initialized (v : _) (x : t) : t :=
  {| initialized := v; _source := _source x; _destination := _destination x;
     _pattern := _pattern x; _args := _args x |}.
End Binding.

Record ReconnectStrategy := {
  retries : Z;
  interval : Z
}.

Module Connection.
Record t := {
    initialized : option pid;
    url : string;
    socketOptions : props;
    reconnectStrategy : ReconnectStrategy;
    connectedBefore : bool;
    _connection : option link;
    _rebuilding : bool;
    _exchanges : gmap string ref;
    _queues : gmap string ref;
    _bindings : gmap string ref
  }.

Definition with_initialized (v : _) (x : t) : t :=
  {| initialized := v;
     url := url x;
     socketOptions := socketOptions x;
     reconnectStrategy := reconnectStrategy x;
     connectedBefore := connectedBefore x;
     _connection := _connection x;
     _rebuilding := _rebuilding x;
     _exchanges := _exchanges x;
     _queues := _queues x;
     _bindings := _bindings x |}.

Definition with_connectedBefore (v : _) (x : t) : t :=
  {| initialized := initialized x;
     url := url x;
     socketOptions := socketOptions x;
     reconnectStrategy := reconnectStrategy x;
     connectedBefore := v;
     _connection := _connection x;
     _rebuilding := _rebuilding x;
     _exchanges := _exchanges x;
     _queues := _queues x;
     _bindings := _bindings x |}.

Definition with__connection (v : _) (x : t) : t :=
  {| initialized := initialized x;
     url := url x;
     socketOptions := socketOptions x;
     reconnectStrategy := reconnectStrategy x;
     connectedBefore := connectedBefore x;
     _connection := v;
     _rebuilding := _rebuilding x;
     _exchanges := _exchanges x;
     _queues := _queues x;
     _bindings := _bindings x |}.

Definition with__rebuilding (v : _) (x : t) : t :=
  {| initialized := initialized x;
     url := url x;
     socketOptions := socketOptions x;
     reconnectStrategy := reconnectStrategy x;
     connectedBefore := connectedBefore x;
     _connection := _connection x;
     _rebuilding := v;
     _exchanges := _exchanges x;
     _queues := _queues x;
     _bindings := _bindings x |}.

Definition with__exchanges (v : _) (x : t) : t :=
  {| initialized := initialized x;
     url := url x;
     socketOptions := socketOptions x;
     reconnectStrategy := reconnectStrategy x;
     connectedBefore := connectedBefore x;
     _connection := _connection x;
     _rebuilding := _rebuilding x;
     _exchanges := v;
     _queues := _queues x;
     _bindings := _bindings x |}.

Definition with__queues (v : _) (x : t) : t :=
  {| initialized := initialized x;
     url := url x;
     socketOptions := socketOptions x;
     reconnectStrategy := reconnectStrategy x;
     connectedBefore := connectedBefore x;
     _connection := _connection x;
     _rebuilding := _rebuilding x;
     _exchanges := _exchanges x;
     _queues := v;
     _bindings := _bindings x |}.

Definition with__bindings (v : _) (x : t) : t :=
  {| initialized := initialized x;
     url := url x;
     socketOptions := socketOptions x;
     reconnectStrategy := reconnectStrategy x;
     connectedBefore := connectedBefore x;
     _connection := _connection x;
     _rebuilding := _rebuilding x;
     _exchanges := _exchanges x;
     _queues := _queues x;
     _bindings := v |}.
End Connection.

(** ** Promises, continuations and callbacks *)

(** Which of the three wrappers of [Queue._initializeConsumer] was handed to
    [channel.consume]. *)
Inductive wrapper := processedMsgConsumer | rawMsgConsumer | activateConsumerWrapper.

(** One constructor for every function passed to [.then] or [.catch]. *)
Inductive task :=
| TConnectionCatch (e : error)
| TExchangeInit (e : ref) (p : pid)
| TQueueInit (q : ref) (p : pid)
| TBindingInit (b : ref) (p : pid)
| TBindingDelete (b : ref) (p : pid)
| TExchangeSend (e : ref) (routingKey : string) (c : list byte) (o : props)
| TExchangeRetransmit (name : string) (c : list byte) (routingKey : string) (o : props)
| TQueueSend (q : ref) (c : list byte) (o : props)
| TQueueRetransmit (name : string) (c : list byte) (o : props)
| TMessageSend (m : ref) (dest : endpoint) (exchange routingKey : string)
| TMessageRetransmit (m : ref) (dest : endpoint) (name routingKey : string)
| TQueueProcessRpc (q : ref) (p : pid) (request : jsval)
| TQueueConsume (q : ref) (p : pid)
| TQueueCancel (q : ref) (p : pid)
| TExchangeDelete1 (e : ref) (p : pid)
| TExchangeDelete2 (e : ref) (p : pid)
| TExchangeClose1 (e : ref) (p : pid)
| TExchangeClose2 (e : ref) (p : pid)
| TQueueDelete1 (q : ref) (p : pid)
| TQueueDelete2 (q : ref) (p : pid)
| TQueueClose1 (q : ref) (p : pid)
| TQueueClose2 (q : ref) (p : pid)
| TRebuildDone (r : pid)
| TRebuildFail (r : pid) (e : error)
| TAllPart (j : pid)
| TAllFail (j : pid) (e : error).

(** One constructor for every function handed to amqplib or to [setTimeout]. *)
Inductive callback :=
| CbConnect (retry : Z) (p : pid)
| CbTimer (retry : Z) (p : pid)
| CbRestart (l : link)
| CbExchangeChannel (e : ref) (p : pid)
| CbExchangeAssert (e : ref) (p : pid)
| CbQueueChannel (q : ref) (p : pid)
| CbQueueAssert (q : ref) (p : pid)
| CbBind (b : ref) (p : pid)
| CbUnbind (b : ref) (p : pid)
| CbExchangeRpcReply (e : ref) (p : pid) (consumerTag : ref)
| CbExchangeRpcOk (e : ref) (p : pid) (consumerTag : ref) (request : jsval) (routingKey : string)
| CbQueueRpcReply (q : ref) (p : pid) (consumerTag : ref)
| CbQueueRpcOk (q : ref) (p : pid) (consumerTag : ref) (request : jsval)
| CbConsumer (q : ref) (w : wrapper)
| CbConsumeOk (q : ref) (p : pid)
| CbCancel (q : ref) (p : pid)
| CbDeleteExchange (e : ref) (p : pid)
| CbExchangeDeleteClosed (e : ref) (p : pid)
| CbExchangeClosed (e : ref) (p : pid)
| CbDeleteQueue (q : ref) (p : pid)
| CbQueueClosed (q : ref) (p : pid) (ok : jsval).

(** The calls of amqplib (and [setTimeout]) the facade makes, with the token
    of each callback passed along. *)
Inductive libcall :=
| LConnect (url : string) (socketOptions : props) (cb : token)
| LSetTimeout (cb : token) (ms : Z)
| LOnError (l : link) (cb : token)
| LRemoveListener (l : link) (cb : token)
| LCreateChannel (l : link) (cb : token)
| LAssertExchange (ch : chan) (name : string) (type : option string) (o : option props) (cb : token)
| LAssertQueue (ch : chan) (name : string) (o : option props) (cb : token)
| LBindQueue (ch : chan) (dest source pattern : string) (args : props) (cb : token)
| LBindExchange (ch : chan) (dest source pattern : string) (args : props) (cb : token)
| LUnbindQueue (ch : chan) (dest source pattern : string) (args : props) (cb : token)
| LUnbindExchange (ch : chan) (dest source pattern : string) (args : props) (cb : token)
| LPublish (ch : chan) (exchange routingKey : string) (c : option (list byte)) (o : props)
| LSendToQueue (ch : chan) (queue : jsval) (c : list byte) (o : props)
| LConsume (ch : chan) (queue : string) (o : option props) (onMsg onOk : token)
| LCancel (ch : chan) (consumerTag : option jsval) (cb : option token)
| LAck (ch : chan) (msg : option delivery) (allUpTo : jsval)
| LNack (ch : chan) (msg : option delivery) (requeue : jsval)
| LReject (ch : chan) (msg : option delivery) (requeue : jsval)
| LDeleteExchange (ch : chan) (name : string) (cb : token)
| LDeleteQueue (ch : chan) (name : string) (cb : token)
| LChannelClose (ch : chan) (cb : token).

(** [p.then(f)] and [p.then(f, g)]. *)
Record reaction := {
  on_fulfilled : option task;
  on_rejected : option (error → task)
}.

Inductive pstate :=
| Pending (rs : list reaction)
| Fulfilled (v : jsval)
| Rejected (e : error).

(** ** The state of the machine *)

Record State := {
  conn : Connection.t;
  exchanges : gmap ref Exchange.t;
  queues : gmap ref Queue.t;
  bindings : gmap ref Binding.t;
  messages : gmap ref Message.t;
  cells : gmap ref (option jsval);
  promises : gmap pid pstate;
  joins : gmap pid nat;
  tasks : list task;
  callbacks : gmap token callback;
  stale : gset chan;
  next : nat;
  calls : list libcall;
  logs : list (string * string);
  unhandled : list error
}.

(** Field updates of [State]. *)
Definition upd_conn (f : _) (st : State) : State :=
  {| conn := f (conn st);
     exchanges := exchanges st;
     queues := queues st;
     bindings := bindings st;
     messages := messages st;
     cells := cells st;
     promises := promises st;
     joins := joins st;
     tasks := tasks st;
     callbacks := callbacks st;
     stale := stale st;
     next := next st;
     calls := calls st;
     logs := logs st;
     unhandled := unhandled st |}.
Definition upd_exchanges (f : _) (st : State) : State :=
  {| conn := conn st;
     exchanges := f (exchanges st);
     queues := queues st;
     bindings := bindings st;
     messages := messages st;
     cells := cells st;
     promises := promises st;
     joins := joins st;
     tasks := tasks st;
     callbacks := callbacks st;
     stale := stale st;
     next := next st;
     calls := calls st;
     logs := logs st;
     unhandled := unhandled st |}.
Definition upd_queues (f : _) (st : State) : State :=
  {| conn := conn st;
     exchanges := exchanges st;
     queues := f (queues st);
     bindings := bindings st;
     messages := messages st;
     cells := cells st;
     promises := promises st;
     joins := joins st;
     tasks := tasks st;
     callbacks := callbacks st;
     stale := stale st;
     next := next st;
     calls := calls st;
     logs := logs st;
     unhandled := unhandled st |}.
Definition upd_bindings (f : _) (st : State) : State :=
  {| conn := conn st;
     exchanges := exchanges st;
     queues := queues st;
     bindings := f (bindings st);
     messages := messages st;
     cells := cells st;
     promises := promises st;
     joins := joins st;
     tasks := tasks st;
     callbacks := callbacks st;
     stale := stale st;
     next := next st;
     calls := calls st;
     logs := logs st;
     unhandled := unhandled st |}.
Definition upd_messages (f : _) (st : State) : State :=
  {| conn := conn st;
     exchanges := exchanges st;
     queues := queues st;
     bindings := bindings st;
     messages := f (messages st);
     cells := cells st;
     promises := promises st;
     joins := joins st;
     tasks := tasks st;
     callbacks := callbacks st;
     stale := stale st;
     next := next st;
     calls := calls st;
     logs := logs st;
     unhandled := unhandled st |}.
Definition upd_cells (f : _) (st : State) : State :=
  {| conn := conn st;
     exchanges := exchanges st;
     queues := queues st;
     bindings := bindings st;
     messages := messages st;
     cells := f (cells st);
     promises := promises st;
     joins := joins st;
     tasks := tasks st;
     callbacks := callbacks st;
     stale := stale st;
     next := next st;
     calls := calls st;
     logs := logs st;
     unhandled := unhandled st |}.
Definition upd_promises (f : _) (st : State) : State :=
  {| conn := conn st;
     exchanges := exchanges st;
     queues := queues st;
     bindings := bindings st;
     messages := messages st;
     cells := cells st;
     promises := f (promises st);
     joins := joins st;
     tasks := tasks st;
     callbacks := callbacks st;
     stale := stale st;
     next := next st;
     calls := calls st;
     logs := logs st;
     unhandled := unhandled st |}.
Definition upd_joins (f : _) (st : State) : State :=
  {| conn := conn st;
     exchanges := exchanges st;
     queues := queues st;
     bindings := bindings st;
     messages := messages st;
     cells := cells st;
     promises := promises st;
     joins := f (joins st);
     tasks := tasks st;
     callbacks := callbacks st;
     stale := stale st;
     next := next st;
     calls := calls st;
     logs := logs st;
     unhandled := unhandled st |}.
Definition upd_tasks (f : _) (st : State) : State :=
  {| conn := conn st;
     exchanges := exchanges st;
     queues := queues st;
     bindings := bindings st;
     messages := messages st;
     cells := cells st;
     promises := promises st;
     joins := joins st;
     tasks := f (tasks st);
     callbacks := callbacks st;
     stale := stale st;
     next := next st;
     calls := calls st;
     logs := logs st;
     unhandled := unhandled st |}.
Definition upd_callbacks (f : _) (st : State) : State :=
  {| conn := conn st;
     exchanges := exchanges st;
     queues := queues st;
     bindings := bindings st;
     messages := messages st;
     cells := cells st;
     promises := promises st;
     joins := joins st;
     tasks := tasks st;
     callbacks := f (callbacks st);
     stale := stale st;
     next := next st;
     calls := calls st;
     logs := logs st;
     unhandled := unhandled st |}.
Definition upd_stale (f : _) (st : State) : State :=
  {| conn := conn st;
     exchanges := exchanges st;
     queues := queues st;
     bindings := bindings st;
     messages := messages st;
     cells := cells st;
     promises := promises st;
     joins := joins st;
     tasks := tasks st;
     callbacks := callbacks st;
     stale := f (stale st);
     next := next st;
     calls := calls st;
     logs := logs st;
     unhandled := unhandled st |}.
Definition upd_next (f : _) (st : State) : State :=
  {| conn := conn st;
     exchanges := exchanges st;
     queues := queues st;
     bindings := bindings st;
     messages := messages st;
     cells := cells st;
     promises := promises st;
     joins := joins st;
     tasks := tasks st;
     callbacks := callbacks st;
     stale := stale st;
     next := f (next st);
     calls := calls st;
     logs := logs st;
     unhandled := unhandled st |}.
Definition upd_calls (f : _) (st : State) : State :=
  {| conn := conn st;
     exchanges := exchanges st;
     queues := queues st;
     bindings := bindings st;
     messages := messages st;
     cells := cells st;
     promises := promises st;
     joins := joins st;
     tasks := tasks st;
     callbacks := callbacks st;
     stale := stale st;
     next := next st;
     calls := f (calls st);
     logs := logs st;
     unhandled := unhandled st |}.
Definition upd_logs (f : _) (st : State) : State :=
  {| conn := conn st;
     exchanges := exchanges st;
     queues := queues st;
     bindings := bindings st;
     messages := messages st;
     cells := cells st;
     promises := promises st;
     joins := joins st;
     tasks := tasks st;
     callbacks := callbacks st;
     stale := stale st;
     next := next st;
     calls := calls st;
     logs := f (logs st);
     unhandled := unhandled st |}.
Definition upd_unhandled (f : _) (st : State) : State :=
  {| conn := conn st;
     exchanges := exchanges st;
     queues := queues st;
     bindings := bindings st;
     messages := messages st;
     cells := cells st;
     promises := promises st;
     joins := joins st;
     tasks := tasks st;
     callbacks := callbacks st;
     stale := stale st;
     next := next st;
     calls := calls st;
     logs := logs st;
     unhandled := f (unhandled st) |}.

(** ** Computations: state and exceptions *)

(** A computation returns a value or throws, and leaves a state either way. *)
Definition M (A : Type) : Type := State → exn A * State.

Definition M_ret {A} (a : A) : M A := λ st, (Ret a, st).

Definition M_throw {A} (e : error) : M A := λ st, (Throw e, st).

Definition M_bind {A B} (m : M A) (k : A → M B) : M B :=
  λ st, match m st with
        | (Ret a, st') => k a st'
        | (Throw e, st') => (Throw e, st')
        end.

Notation "'let*' x ':=' m 'in' k" := (M_bind m (λ x, k))
  (at level 10, x name, m at level 100, k at level 200).
Notation "m ';;' k" := (M_bind m (λ _, k))
  (at level 100, k at level 200, right associativity).

(** [try { m } catch (err) { h err }] *)
Definition try_catch {A} (m : M A) (h : error → M A) : M A :=
  λ st, match m st with
        | (Throw e, st') => h e st'
        | r => r
        end.

Definition lift {A} (x : exn A) : M A := λ st, (x, st).

Definition gets {A} (f : State → A) : M A := λ st, (Ret (f st), st).

Definition modify (f : State → State) : M unit := λ st, (Ret tt, f st).

(** The state a computation leaves. *)
Definition exec {A} (m : M A) (st : State) : State := snd (m st).

(** [for (x of l) { f x }] *)
Fixpoint for_each {A} (l : list A) (f : A → M unit) : M unit :=
  match l with
  | [] => M_ret tt
  | x :: l' => f x ;; for_each l' f
  end.

(** A loop that pushes onto an array: [for (x of l) { promises.push(...) }] *)
Fixpoint collect {A B} (l : list A) (f : A → M (list B)) : M (list B) :=
  match l with
  | [] => M_ret []
  | x :: l' =>
      let* a := f x in
      let* b := collect l' f in
      M_ret (a ++ b)
  end.

(** [o.f] where [o.f] must not be [undefined]. *)
Definition defined {A} (what : string) (o : option A) : M A :=
  match o with
  | Some a => M_ret a
  | None => M_throw ("TypeError: " +:+ what +:+ " is undefined")
  end.

Definition fresh : M nat := λ st, (Ret (next st), upd_next S st).

(** [amqpts_log.log(level, message, {module: "amqp-ts"})] *)
Definition log (level message : string) : M unit :=
  modify (upd_logs (λ l, l ++ [(level, message)])).

Definition call (c : libcall) : M unit :=
  modify (upd_calls (λ l, l ++ [c])).

(** Hand a function over to the library. *)
Definition register (cb : callback) : M token :=
  let* t := fresh in
  modify (upd_callbacks <[t := cb]>) ;;
  M_ret t.

Definition unregister (t : token) : M unit :=
  modify (upd_callbacks (delete t)).

Definition update_conn (f : Connection.t → Connection.t) : M unit :=
  modify (upd_conn f).

(** *** Promises *)

Definition new_promise : M pid :=
  let* p := fresh in
  modify (upd_promises <[p := Pending []]>) ;;
  M_ret p.

Definition schedule (ts : list task) : M unit :=
  modify (upd_tasks (λ q, q ++ ts)).

(** [resolve(v)]: a promise settles once; its reactions run later. *)
Definition resolve (p : pid) (v : jsval) : M unit :=
  let* ps := gets promises in
  match ps !! p with
  | Some (Pending rs) =>
      modify (upd_promises <[p := Fulfilled v]>) ;;
      schedule (omap on_fulfilled rs)
  | _ => M_ret tt
  end.

(** The promise [p.then(f)] returns, which the facade never keeps: when [p]
    is rejected it is rejected with the same error, and nothing handles it.
    bluebird reports such a rejection; the report is recorded with the errors
    nobody catches, at the moment the rejection is known. A rejected promise
    the caller can reach ([initialized], or one a method returns) is not
    recorded: whether it is handled is up to the caller. *)
Definition report (es : list error) : M unit :=
  modify (upd_unhandled (λ l, l ++ es)).

(** The errors of the promises derived by the reactions that have no
    [on_rejected]. *)
Definition derived_rejections (e : error) (rs : list reaction) : list error :=
  omap (λ r, match on_rejected r with
             | Some _ => None
             | None => Some e
             end) rs.

(** [reject(e)] *)
Definition reject (p : pid) (e : error) : M unit :=
  let* ps := gets promises in
  match ps !! p with
  | Some (Pending rs) =>
      modify (upd_promises <[p := Rejected e]>) ;;
      schedule (omap (λ r, (λ f, f e) <$> on_rejected r) rs) ;;
      report (derived_rejections e rs)
  | _ => M_ret tt
  end.

(** [p.then(f, g)] *)
Definition then2 (p : pid) (r : reaction) : M unit :=
  let* ps := gets promises in
  match ps !! p with
  | Some (Pending rs) => modify (upd_promises <[p := Pending (rs ++ [r])]>)
  | Some (Fulfilled _) => schedule (option_list (on_fulfilled r))
  | Some (Rejected e) =>
      schedule (option_list ((λ f, f e) <$> on_rejected r)) ;;
      report (derived_rejections e [r])
  | None => M_ret tt
  end.

(** [p.then(f)] *)
Definition then_ (p : pid) (t : task) : M unit :=
  then2 p {| on_fulfilled := Some t; on_rejected := None |}.

(** [p.isFulfilled()] *)
Definition isFulfilled (p : pid) : M bool :=
  let* ps := gets promises in
  M_ret (match ps !! p with Some (Fulfilled _) => true | _ => false end).

(** [new Promise(executor)]: what the executor throws rejects the promise. *)
Definition new_Promise (executor : pid → M unit) : M pid :=
  let* p := new_promise in
  try_catch (executor p) (λ e, reject p e) ;;
  M_ret p.

(** [Promise.all(promises)]: entries that are not promises count as
    fulfilled. The join is fulfilled with [null] in place of the array of the
    values, which nothing reads. *)
Definition Promise_all (ps : list (option pid)) : M pid :=
  let* j := new_promise in
  let waits := omap id ps in
  modify (upd_joins <[j := length waits]>) ;;
  match waits with
  | [] => resolve j VNull
  | _ => for_each waits (λ p,
           then2 p {| on_fulfilled := Some (TAllPart j);
                      on_rejected := Some (TAllFail j) |})
  end ;;
  M_ret j.

Definition run_TAllPart (j : pid) : M unit :=
  let* js := gets joins in
  let n := pred (default 0%nat (js !! j)) in
  modify (upd_joins <[j := n]>) ;;
  if decide (n = 0%nat) then resolve j VNull else M_ret tt.

(** *** Channels *)

(** A call on a channel throws synchronously when the channel is stale. *)
Definition check_channel (ch : chan) : M unit :=
  let* s := gets stale in
  if decide (ch ∈ s) then M_throw "IllegalOperationError: Channel closed"
  else M_ret tt.

Definition chan_call (ch : chan) (c : libcall) : M unit :=
  check_channel ch ;; call c.

(** A call on a channel that passes a callback. *)
Definition chan_call_cb (ch : chan) (c : token → libcall) (cb : callback) : M unit :=
  check_channel ch ;;
  let* t := register cb in
  call (c t).

(** *** Objects in the heap *)

Definition deref {A} (what : string) (h : State → gmap ref A) (r : ref) : M A :=
  let* m := gets h in
  defined what (m !! r).

Definition alloc_exchange (x : Exchange.t) : M ref :=
  let* r := fresh in
  modify (upd_exchanges <[r := x]>) ;;
  M_ret r.

Definition alloc_queue (x : Queue.t) : M ref :=
  let* r := fresh in
  modify (upd_queues <[r := x]>) ;;
  M_ret r.

Definition alloc_binding (x : Binding.t) : M ref :=
  let* r := fresh in
  modify (upd_bindings <[r := x]>) ;;
  M_ret r.

Definition alloc_message (x : Message.t) : M ref :=
  let* r := fresh in
  modify (upd_messages <[r := x]>) ;;
  M_ret r.

Definition update_exchange (e : ref) (f : Exchange.t → Exchange.t) : M unit :=
  modify (upd_exchanges (alter f e)).

Definition update_queue (q : ref) (f : Queue.t → Queue.t) : M unit :=
  modify (upd_queues (alter f q)).

Definition update_binding (b : ref) (f : Binding.t → Binding.t) : M unit :=
  modify (upd_bindings (alter f b)).

(** [x._connection.f]: the fields of the connection, reached from an object
    that still has its [_connection]. *)
Definition connection_of (c : option conn_ref) : M Connection.t :=
  defined "_connection" c ;;
  gets conn.

Definition endpoint_name (d : endpoint) : M string :=
  match d with
  | EP_Exchange e => let* x := deref "exchange" exchanges e in M_ret (Exchange._name x)
  | EP_Queue q => let* x := deref "queue" queues q in M_ret (Queue._name x)
  end.

Definition endpoint_initialized (d : endpoint) : M (option pid) :=
  match d with
  | EP_Exchange e => let* x := deref "exchange" exchanges e in M_ret (Exchange.initialized x)
  | EP_Queue q => let* x := deref "queue" queues q in M_ret (Queue.initialized x)
  end.

Definition endpoint_channel (d : endpoint) : M (option chan) :=
  match d with
  | EP_Exchange e => let* x := deref "exchange" exchanges e in M_ret (Exchange._channel x)
  | EP_Queue q => let* x := deref "queue" queues q in M_ret (Queue._channel x)
  end.

Definition endpoint_connection (d : endpoint) : M (option conn_ref) :=
  match d with
  | EP_Exchange e => let* x := deref "exchange" exchanges e in M_ret (Exchange._connection x)
  | EP_Queue q => let* x := deref "queue" queues q in M_ret (Queue._connection x)
  end.

(** ** Binding *)

(** [Binding.id(destination, source, pattern)] *)
Definition Binding_id (destination : endpoint) (source : ref) (pattern : string) : M string :=
  let* s := endpoint_name (EP_Exchange source) in
  let* d := endpoint_name destination in
  M_ret ("[" +:+ s +:+ "]to" +:+
         (match destination with EP_Queue _ => "Queue" | EP_Exchange _ => "Exchange" end)
         +:+ "[" +:+ d +:+ "]" +:+ pattern).

(** [delete this._destination._connection._bindings[Binding.id(...)]] *)
Definition Binding_unregister (b : ref) : M unit :=
  let* B := deref "binding" bindings b in
  let* c := endpoint_connection (Binding._destination B) in
  connection_of c ;;
  let* id := Binding_id (Binding._destination B) (Binding._source B) (Binding._pattern B) in
  update_conn (λ c, Connection.with__bindings (delete id (Connection._bindings c)) c).

(** [Binding._initialize] *)
Definition Binding__initialize (b : ref) : M unit :=
  let* B := deref "binding" bindings b in
  let* p := new_Promise (λ p,
    let* i := endpoint_initialized (Binding._destination B) in
    let* i := defined "initialized" i in
    then_ i (TBindingInit b p)) in
  update_binding b (Binding.with_initialized (Some p)).

(** The function [Binding._initialize] passes to [initialized.then]. *)
Definition run_TBindingInit (b : ref) (p : pid) : M unit :=
  let* B := deref "binding" bindings b in
  let* ch := endpoint_channel (Binding._destination B) in
  let* ch := defined "_channel" ch in
  let* d := endpoint_name (Binding._destination B) in
  let* s := endpoint_name (EP_Exchange (Binding._source B)) in
  match Binding._destination B with
  | EP_Queue _ =>
      chan_call_cb ch (LBindQueue ch d s (Binding._pattern B) (Binding._args B)) (CbBind b p)
  | EP_Exchange _ =>
      chan_call_cb ch (LBindExchange ch d s (Binding._pattern B) (Binding._args B)) (CbBind b p)
  end.

(** The callback of [bindQueue] and [bindExchange]. *)
Definition on_CbBind (b : ref) (p : pid) (err : option error) : M unit :=
  match err with
  | Some err =>
      let* B := deref "binding" bindings b in
      let* d := endpoint_name (Binding._destination B) in
      let* s := endpoint_name (EP_Exchange (Binding._source B)) in
      log "error" ("Failed to create " +:+
                   (match Binding._destination B with
                    | EP_Queue _ => "queue" | EP_Exchange _ => "exchange" end)
                   +:+ " binding (" +:+ s +:+ "->" +:+ d +:+ ")") ;;
      Binding_unregister b ;;
      reject p err
  | None => resolve p (VRef b)
  end.

(** [new Binding(destination, source, pattern, args)] *)
Definition Binding_new (destination : endpoint) (source : ref)
    (pattern : string) (args : props) : M ref :=
  let* b := alloc_binding {| Binding.initialized := None; Binding._source := source;
                             Binding._destination := destination;
                             Binding._pattern := pattern; Binding._args := args |} in
  let* c := endpoint_connection destination in
  connection_of c ;;
  let* id := Binding_id destination source pattern in
  update_conn (λ c, Connection.with__bindings (<[id := b]> (Connection._bindings c)) c) ;;
  Binding__initialize b ;;
  M_ret b.

(** [Binding.delete] *)
Definition Binding_delete (b : ref) : M pid :=
  let* B := deref "binding" bindings b in
  new_Promise (λ p,
    let* i := endpoint_initialized (Binding._destination B) in
    let* i := defined "initialized" i in
    then_ i (TBindingDelete b p)).

Definition run_TBindingDelete (b : ref) (p : pid) : M unit :=
  let* B := deref "binding" bindings b in
  let* ch := endpoint_channel (Binding._destination B) in
  let* ch := defined "_channel" ch in
  let* d := endpoint_name (Binding._destination B) in
  let* s := endpoint_name (EP_Exchange (Binding._source B)) in
  match Binding._destination B with
  | EP_Queue _ =>
      chan_call_cb ch (LUnbindQueue ch d s (Binding._pattern B) (Binding._args B)) (CbUnbind b p)
  | EP_Exchange _ =>
      chan_call_cb ch (LUnbindExchange ch d s (Binding._pattern B) (Binding._args B)) (CbUnbind b p)
  end.

Definition on_CbUnbind (b : ref) (p : pid) (err : option error) : M unit :=
  match err with
  | Some err => reject p err
  | None => Binding_unregister b ;; resolve p VNull
  end.

(** [Binding.removeBindingsContaining(connectionPoint)] *)
Definition Binding_removeBindingsContaining (connectionPoint : endpoint) : M pid :=
  let* c := endpoint_connection connectionPoint in
  let* c := connection_of c in
  let* ps := collect (map_to_list (Connection._bindings c)) (λ kv,
    let* B := deref "binding" bindings kv.2 in
    if bool_decide (EP_Exchange (Binding._source B) = connectionPoint)
       || bool_decide (Binding._destination B = connectionPoint)
    then let* p := Binding_delete kv.2 in M_ret [Some p]
    else M_ret []) in
  Promise_all ps.

(** What the library passes to a callback: an error, a result, a delivery,
    or nothing (a timer). *)
Inductive cb_result :=
| Err (e : error)
| Ok (v : jsval)
| Msg (msg : option delivery)
| Fired.

(** ** Exchange and Queue: initialisation *)

(** [Exchange._initialize] *)
Definition Exchange__initialize (e : ref) : M unit :=
  let* E := deref "exchange" exchanges e in
  let* p := new_Promise (λ p,
    let* c := connection_of (Exchange._connection E) in
    let* i := defined "initialized" (Connection.initialized c) in
    then_ i (TExchangeInit e p)) in
  update_exchange e (Exchange.with_initialized (Some p)) ;;
  connection_of (Exchange._connection E) ;;
  update_conn (λ c, Connection.with__exchanges
                      (<[Exchange._name E := e]> (Connection._exchanges c)) c).

(** The function passed to [this._connection.initialized.then]. *)
Definition run_TExchangeInit (e : ref) (p : pid) : M unit :=
  let* E := deref "exchange" exchanges e in
  let* c := connection_of (Exchange._connection E) in
  let* l := defined "_connection" (Connection._connection c) in
  let* t := register (CbExchangeChannel e p) in
  call (LCreateChannel l t).

(** The callback of [createChannel]. *)
Definition on_CbExchangeChannel (e : ref) (p : pid) (err : option error) : M unit :=
  match err with
  | Some err => reject p err
  | None =>
      let* ch := fresh in
      update_exchange e (Exchange.with__channel (Some ch)) ;;
      let* E := deref "exchange" exchanges e in
      let* ch := defined "_channel" (Exchange._channel E) in
      chan_call_cb ch
        (LAssertExchange ch (Exchange._name E) (Exchange._type E) (Exchange._options E))
        (CbExchangeAssert e p)
  end.

(** The callback of [assertExchange]. *)
Definition on_CbExchangeAssert (e : ref) (p : pid) (res : error + jsval) : M unit :=
  match res with
  | inl err =>
      let* E := deref "exchange" exchanges e in
      log "error" ("Failed to create exchange '" +:+ Exchange._name E +:+ "'.") ;;
      connection_of (Exchange._connection E) ;;
      update_conn (λ c, Connection.with__exchanges
                          (delete (Exchange._name E) (Connection._exchanges c)) c) ;;
      reject p err
  | inr ok => resolve p ok
  end.

(** [new Exchange(connection, name, type, options)] *)
Definition Exchange_new (name : string) (type : option string) (options : option props)
    : M ref :=
  let* e := alloc_exchange {| Exchange.initialized := None;
                              Exchange._connection := Some this_connection;
                              Exchange._channel := None; Exchange._name := name;
                              Exchange._type := type; Exchange._options := options |} in
  Exchange__initialize e ;;
  M_ret e.

(** [Queue._initialize] *)
Definition Queue__initialize (q : ref) : M unit :=
  let* Q := deref "queue" queues q in
  let* p := new_Promise (λ p,
    let* c := connection_of (Queue._connection Q) in
    let* i := defined "initialized" (Connection.initialized c) in
    then_ i (TQueueInit q p)) in
  update_queue q (Queue.with_initialized (Some p)).

Definition run_TQueueInit (q : ref) (p : pid) : M unit :=
  let* Q := deref "queue" queues q in
  let* c := connection_of (Queue._connection Q) in
  let* l := defined "_connection" (Connection._connection c) in
  let* t := register (CbQueueChannel q p) in
  call (LCreateChannel l t).

Definition on_CbQueueChannel (q : ref) (p : pid) (err : option error) : M unit :=
  match err with
  | Some err => reject p err
  | None =>
      let* ch := fresh in
      update_queue q (Queue.with__channel (Some ch)) ;;
      let* Q := deref "queue" queues q in
      let* ch := defined "_channel" (Queue._channel Q) in
      chan_call_cb ch (LAssertQueue ch (Queue._name Q) (Queue._options Q))
        (CbQueueAssert q p)
  end.

Definition on_CbQueueAssert (q : ref) (p : pid) (res : error + jsval) : M unit :=
  match res with
  | inl err =>
      let* Q := deref "queue" queues q in
      log "error" ("Failed to create queue '" +:+ Queue._name Q +:+ "'.") ;;
      connection_of (Queue._connection Q) ;;
      update_conn (λ c, Connection.with__queues
                          (delete (Queue._name Q) (Connection._queues c)) c) ;;
      reject p err
  | inr ok => resolve p ok
  end.

(** [new Queue(connection, name, options)] *)
Definition Queue_new (name : string) (options : option props) : M ref :=
  let* q := alloc_queue {| Queue.initialized := None;
                           Queue._connection := Some this_connection;
                           Queue._channel := None; Queue._name := name;
                           Queue._options := options; Queue._consumer := None;
                           Queue._isStartConsumer := false; Queue._rawConsumer := false;
                           Queue._consumerOptions := None; Queue._consumerTag := None;
                           Queue._consumerInitialized := None |} in
  update_conn (λ c, Connection.with__queues (<[name := q]> (Connection._queues c)) c) ;;
  Queue__initialize q ;;
  M_ret q.

(** [Queue._initializeConsumer]: the promise it creates; the three wrappers
    it defines are [on_CbConsumer] below. *)
Definition Queue__initializeConsumer (q : ref) : M unit :=
  let* Q := deref "queue" queues q in
  let* p := new_Promise (λ p,
    let* i := defined "initialized" (Queue.initialized Q) in
    then_ i (TQueueConsume q p)) in
  update_queue q (Queue.with__consumerInitialized (Some p)).

Definition run_TQueueConsume (q : ref) (p : pid) : M unit :=
  let* Q := deref "queue" queues q in
  let consumerFunction :=
    if Queue._isStartConsumer Q
    then (if Queue._rawConsumer Q then rawMsgConsumer else processedMsgConsumer)
    else activateConsumerWrapper in
  let* ch := defined "_channel" (Queue._channel Q) in
  check_channel ch ;;
  let* onMsg := register (CbConsumer q consumerFunction) in
  let* onOk := register (CbConsumeOk q p) in
  call (LConsume ch (Queue._name Q) (Queue._consumerOptions Q) onMsg onOk).

(** [ok.consumerTag]: a property of an object value. *)
Fixpoint assoc (k : string) (l : list (string * jsval)) : jsval :=
  match l with
  | [] => VUndefined
  | (k', v) :: l' => if decide (k' = k) then v else assoc k l'
  end.

Definition field (v : jsval) (k : string) : jsval :=
  match v with
  | VObj l => assoc k l
  | _ => VUndefined
  end.

Definition on_CbConsumeOk (q : ref) (p : pid) (res : error + jsval) : M unit :=
  match res with
  | inl err => reject p err
  | inr ok =>
      update_queue q (Queue.with__consumerTag (Some (field ok "consumerTag"))) ;;
      resolve p ok
  end.

(** ** Connection: connecting and rebuilding *)

(** [Connection.tryToConnect(thisConnection, retry, callback)], where
    [callback] is the function [rebuildConnection] made for promise [p]. *)
Definition Connection_tryToConnect (retry : Z) (p : pid) : M unit :=
  let* c := gets conn in
  let* t := register (CbConnect retry p) in
  call (LConnect (Connection.url c) (Connection.socketOptions c) t).

(** The callback [rebuildConnection] passes to [tryToConnect]. *)
Definition rebuild_callback (p : pid) (err : option error) : M unit :=
  match err with
  | Some err =>
      update_conn (Connection.with__rebuilding false) ;;
      reject p err
  | None =>
      update_conn (Connection.with__rebuilding false) ;;
      let* c := gets conn in
      (if Connection.connectedBefore c
       then log "warn" "Connection re-established"
       else log "info" "Connection established." ;;
            update_conn (Connection.with_connectedBefore true)) ;;
      resolve p VNull
  end.

(** The callback [tryToConnect] passes to [AmqpLib.connect]. *)
Definition on_CbConnect (retry : Z) (p : pid) (err : option error) : M unit :=
  let* c := gets conn in
  let strategy := Connection.reconnectStrategy c in
  match err with
  | Some err =>
      log "warn" "Connection failed." ;;
      if ((retries strategy =? 0) || (retries strategy >? retry))%Z
      then
        log "warn" ("Connection retry " +:+ pretty (retry + 1) +:+ " in " +:+
                    pretty (interval strategy) +:+ "ms") ;;
        let* t := register (CbTimer (retry + 1) p) in
        call (LSetTimeout t (interval strategy))
      else
        log "warn" ("Connection failed, exiting: No connection retries left (retry "
                    +:+ pretty retry +:+ ").") ;;
        rebuild_callback p (Some err)
  | None =>
      let* l := fresh in
      let* t := register (CbRestart l) in
      call (LOnError l t) ;;
      update_conn (Connection.with__connection (Some l)) ;;
      rebuild_callback p None
  end.

(** [Connection.rebuildConnection] *)
Definition Connection_rebuildConnection : M (option pid) :=
  let* c := gets conn in
  if Connection._rebuilding c then
    log "debug" "Connection rebuild already in progress, joining active rebuild attempt." ;;
    M_ret (Connection.initialized c)
  else
    update_conn (Connection.with__rebuilding true) ;;
    let* p := new_Promise (λ p, Connection_tryToConnect 0 p) in
    update_conn (Connection.with_initialized (Some p)) ;;
    then2 p {| on_fulfilled := None; on_rejected := Some TConnectionCatch |} ;;
    M_ret (Some p).

(** The function passed to [this.initialized.catch]: it logs and throws the
    error again. *)
Definition run_TConnectionCatch (err : error) : M unit :=
  log "warn" "Error creating connection!" ;;
  M_throw err.

(** [Connection.completeConfiguration] *)
Definition Connection_completeConfiguration : M pid :=
  let* c := gets conn in
  let* es := collect (map_to_list (Connection._exchanges c)) (λ kv,
    let* E := deref "exchange" exchanges kv.2 in
    M_ret [Exchange.initialized E]) in
  let* qs := collect (map_to_list (Connection._queues c)) (λ kv,
    let* Q := deref "queue" queues kv.2 in
    M_ret (Queue.initialized Q ::
           match Queue._consumerInitialized Q with
           | Some ci => [Some ci]
           | None => []
           end)) in
  let* bs := collect (map_to_list (Connection._bindings c)) (λ kv,
    let* B := deref "binding" bindings kv.2 in
    M_ret [Binding.initialized B]) in
  Promise_all (es ++ qs ++ bs).

(** [Connection._rebuildAll(err)] *)
Definition Connection__rebuildAll (err : error) : M pid :=
  log "warn" ("Connection error: " +:+ err) ;;
  log "debug" "Rebuilding connection NOW." ;;
  Connection_rebuildConnection ;;
  let* c := gets conn in
  for_each (map_to_list (Connection._exchanges c)) (λ kv,
    let* E := deref "exchange" exchanges kv.2 in
    log "debug" ("Re-initialize Exchange '" +:+ Exchange._name E +:+ "'.") ;;
    Exchange__initialize kv.2) ;;
  let* c := gets conn in
  for_each (map_to_list (Connection._queues c)) (λ kv,
    let* Q := deref "queue" queues kv.2 in
    let consumer := Queue._consumer Q in
    log "debug" ("Re-initialize queue '" +:+ Queue._name Q +:+ "'.") ;;
    Queue__initialize kv.2 ;;
    match consumer with
    | Some _ =>
        log "debug" ("Re-initialize consumer for queue '" +:+ Queue._name Q +:+ "'.") ;;
        Queue__initializeConsumer kv.2
    | None => M_ret tt
    end) ;;
  let* c := gets conn in
  for_each (map_to_list (Connection._bindings c)) (λ kv,
    let* B := deref "binding" bindings kv.2 in
    let* s := endpoint_name (EP_Exchange (Binding._source B)) in
    let* d := endpoint_name (Binding._destination B) in
    log "debug" ("Re-initialize binding from '" +:+ s +:+ "' to '" +:+ d +:+ "'.") ;;
    Binding__initialize kv.2) ;;
  new_Promise (λ r,
    let* j := Connection_completeConfiguration in
    then2 j {| on_fulfilled := Some (TRebuildDone r);
               on_rejected := Some (TRebuildFail r) |}).

Definition run_TRebuildDone (r : pid) : M unit :=
  log "debug" "Rebuild success." ;;
  resolve r VNull.

Definition run_TRebuildFail (r : pid) (rejectReason : error) : M unit :=
  log "debug" "Rebuild failed." ;;
  reject r rejectReason.

(** The listener [restart] that [tryToConnect] installs with
    [connection.on("error", restart)]; [t] is the listener itself. *)
Definition on_CbRestart (t : token) (l : link) (err : error) : M unit :=
  log "debug" "Connection error occurred." ;;
  unregister t ;;
  call (LRemoveListener l t) ;;
  Connection__rebuildAll err ;;
  M_ret tt.

(** The registries are plain objects ([{}]): a name that is not a property
    of the object itself is looked up in [Object.prototype]. The maps
    [_exchanges], [_queues] and [_bindings] hold the properties of the
    objects themselves. *)
Definition Object_prototype : list string :=
  ["constructor"; "hasOwnProperty"; "isPrototypeOf"; "propertyIsEnumerable";
   "toLocaleString"; "toString"; "valueOf"; "__defineGetter__"; "__defineSetter__";
   "__lookupGetter__"; "__lookupSetter__"; "__proto__"].

(** What [declareExchange] and [declareQueue] return: an object of the
    facade, or the value [Object.prototype] holds under the name. *)
Inductive declared :=
| Declared (r : ref)
| Inherited (name : string).

(** [Connection.declareExchange(name, type, options)] *)
Definition Connection_declareExchange (name : string) (type : option string)
    (options : option props) : M declared :=
  let* c := gets conn in
  match Connection._exchanges c !! name with
  | Some exchange => M_ret (Declared exchange)
  | None =>
      if bool_decide (name ∈ Object_prototype) then M_ret (Inherited name)
      else
        let* exchange := Exchange_new name type options in
        M_ret (Declared exchange)
  end.

(** [Connection.declareQueue(name, options)] *)
Definition Connection_declareQueue (name : string) (options : option props) : M declared :=
  let* c := gets conn in
  match Connection._queues c !! name with
  | Some queue => M_ret (Declared queue)
  | None =>
      if bool_decide (name ∈ Object_prototype) then M_ret (Inherited name)
      else
        let* queue := Queue_new name options in
        M_ret (Declared queue)
  end.

(** name for the RabbitMQ direct reply-to queue *)
Definition DIRECT_REPLY_TO_QUEUE : string := "amq.rabbitmq.reply-to".

(** A buffer or [undefined], as the value [this.content] of a message. *)
Definition content_value (c : option (list byte)) : jsval :=
  match c with
  | Some b => VBuf b
  | None => VUndefined
  end.

Section Machine.
Context `{JSON}.

(** ** Publishing *)

(** [Exchange.publish(content, routingKey, options)] *)
Definition Exchange_publish (e : ref) (c : jsval) (routingKey : string) (options : props)
    : M unit :=
  let* co := lift (Exchange_publish_normalize c options) in
  let* E := deref "exchange" exchanges e in
  let* i := defined "initialized" (Exchange.initialized E) in
  then_ i (TExchangeSend e routingKey co.1 co.2).

(** The function [Exchange.publish] passes to [this.initialized.then]. *)
Definition run_TExchangeSend (e : ref) (routingKey : string) (c : list byte) (options : props)
    : M unit :=
  try_catch
    (let* E := deref "exchange" exchanges e in
     let* ch := defined "_channel" (Exchange._channel E) in
     chan_call ch (LPublish ch (Exchange._name E) routingKey (Some c) options))
    (λ err,
     log "warn" ("Exchange publish error: " +:+ err) ;;
     let* E := deref "exchange" exchanges e in
     let exchangeName := Exchange._name E in
     connection_of (Exchange._connection E) ;;
     let* r := Connection__rebuildAll err in
     then_ r (TExchangeRetransmit exchangeName c routingKey options)).

(** The function passed to [connection._rebuildAll(err).then]. *)
Definition run_TExchangeRetransmit (exchangeName : string) (c : list byte)
    (routingKey : string) (options : props) : M unit :=
  log "debug" "Retransmitting message." ;;
  let* cn := gets conn in
  let* e := defined "exchange" (Connection._exchanges cn !! exchangeName) in
  Exchange_publish e (VBuf c) routingKey options.

(** [sendMessage] in [Queue.publish] *)
Definition Queue_publish_sendMessage (q : ref) (c : list byte) (options : props) : M unit :=
  try_catch
    (let* Q := deref "queue" queues q in
     let* ch := defined "_channel" (Queue._channel Q) in
     chan_call ch (LSendToQueue ch (VStr (Queue._name Q)) c options))
    (λ err,
     log "debug" ("Queue publish error: " +:+ err) ;;
     let* Q := deref "queue" queues q in
     let queueName := Queue._name Q in
     log "debug" "Try to rebuild connection, before Call." ;;
     connection_of (Queue._connection Q) ;;
     let* r := Connection__rebuildAll err in
     then_ r (TQueueRetransmit queueName c options)).

(** [Queue.publish(content, options)] *)
Definition Queue_publish (q : ref) (c : jsval) (options : props) : M unit :=
  let* co := lift (Queue__packMessageContent c options) in
  let* Q := deref "queue" queues q in
  let* i := defined "initialized" (Queue.initialized Q) in
  let* now := isFulfilled i in
  if now then Queue_publish_sendMessage q co.1 co.2
  else then_ i (TQueueSend q co.1 co.2).

Definition run_TQueueRetransmit (queueName : string) (c : list byte) (options : props)
    : M unit :=
  log "debug" "Retransmitting message." ;;
  let* cn := gets conn in
  let* q := defined "queue" (Connection._queues cn !! queueName) in
  Queue_publish q (VBuf c) options.

(** [sendMessage] in [Message.sendTo] *)
Definition Message_sendTo_sendMessage (m : ref) (destination : endpoint)
    (exchange routingKey : string) : M unit :=
  try_catch
    (let* ch := endpoint_channel destination in
     let* ch := defined "_channel" ch in
     let* msg := deref "message" messages m in
     chan_call ch (LPublish ch exchange routingKey (Message.content msg)
                     (Message.properties msg)))
    (λ err,
     log "debug" ("Publish error: " +:+ err) ;;
     let* destinationName := endpoint_name destination in
     let* connection := endpoint_connection destination in
     log "debug" "Try to rebuild connection, before Call." ;;
     connection_of connection ;;
     let* r := Connection__rebuildAll err in
     then_ r (TMessageRetransmit m destination destinationName routingKey)).

Definition run_TMessageRetransmit (m : ref) (destination : endpoint)
    (destinationName routingKey : string) : M unit :=
  log "debug" "Retransmitting message." ;;
  let* cn := gets conn in
  let* msg := deref "message" messages m in
  match destination with
  | EP_Queue _ =>
      let* q := defined "queue" (Connection._queues cn !! destinationName) in
      Queue_publish q (content_value (Message.content msg)) (Message.properties msg)
  | EP_Exchange _ =>
      let* e := defined "exchange" (Connection._exchanges cn !! destinationName) in
      Exchange_publish e (content_value (Message.content msg)) routingKey
        (Message.properties msg)
  end.

(** [Message.sendTo(destination, routingKey)] *)
Definition Message_sendTo (m : ref) (destination : endpoint) (routingKey : string)
    : M unit :=
  let* name := endpoint_name destination in
  let exchange := match destination with EP_Queue _ => "" | EP_Exchange _ => name end in
  let routingKey := match destination with EP_Queue _ => name | EP_Exchange _ => routingKey end in
  let* i := endpoint_initialized destination in
  let* i := defined "initialized" i in
  let* now := isFulfilled i in
  if now then Message_sendTo_sendMessage m destination exchange routingKey
  else then_ i (TMessageSend m destination exchange routingKey).

(** [Message.ack], [Message.nack], [Message.reject] *)
Definition Message_ack (m : ref) (allUpTo : jsval) : M unit :=
  let* msg := deref "message" messages m in
  match Message._channel msg with
  | Some ch => chan_call ch (LAck ch (Message._message msg) allUpTo)
  | None => M_ret tt
  end.

Definition Message_nack (m : ref) (requeue : jsval) : M unit :=
  let* msg := deref "message" messages m in
  match Message._channel msg with
  | Some ch => chan_call ch (LNack ch (Message._message msg) requeue)
  | None => M_ret tt
  end.

Definition Message_reject (m : ref) (requeue : jsval) : M unit :=
  let* msg := deref "message" messages m in
  match Message._channel msg with
  | Some ch => chan_call ch (LReject ch (Message._message msg) requeue)
  | None => M_ret tt
  end.

(** ** Remote procedure calls *)

(** [Exchange.rpc(requestParameters, routingKey)] *)
Definition Exchange_rpc (e : ref) (requestParameters : jsval) (routingKey : string) : M pid :=
  new_Promise (λ p,
    let* consumerTag := fresh in
    modify (upd_cells <[consumerTag := None]>) ;;
    let* E := deref "exchange" exchanges e in
    let* ch := defined "_channel" (Exchange._channel E) in
    check_channel ch ;;
    let* onMsg := register (CbExchangeRpcReply e p consumerTag) in
    let* onOk := register (CbExchangeRpcOk e p consumerTag requestParameters routingKey) in
    call (LConsume ch DIRECT_REPLY_TO_QUEUE (Some {["noAck" := VBool true]}) onMsg onOk)).

Definition read_cell (r : ref) : M (option jsval) :=
  let* cs := gets cells in
  M_ret (cs !! r ≫= id).

Definition on_CbExchangeRpcReply (e : ref) (p : pid) (consumerTag : ref)
    (msg : option delivery) : M unit :=
  let* E := deref "exchange" exchanges e in
  let* ch := defined "_channel" (Exchange._channel E) in
  let* tag := read_cell consumerTag in
  chan_call ch (LCancel ch tag None) ;;
  let* msg := defined "msg" msg in
  let* resultMessage := lift (Message_new (VBuf (d_content msg)) (d_properties msg)) in
  let* v := lift (Message_getContent resultMessage) in
  resolve p v.

Definition on_CbExchangeRpcOk (e : ref) (p : pid) (consumerTag : ref)
    (requestParameters : jsval) (routingKey : string) (res : error + jsval) : M unit :=
  match res with
  | inl err => reject p ("amqp-ts: Exchange.rpc error: " +:+ err)
  | inr ok =>
      modify (upd_cells <[consumerTag := Some (field ok "consumerTag")]>) ;;
      let* callMessage := lift (Message_new requestParameters
                                  {["replyTo" := VStr DIRECT_REPLY_TO_QUEUE]}) in
      let* m := alloc_message callMessage in
      Message_sendTo m (EP_Exchange e) routingKey
  end.

(** [processRpc] in [Queue.rpc] *)
Definition Queue_rpc_processRpc (q : ref) (p : pid) (requestParameters : jsval) : M unit :=
  let* consumerTag := fresh in
  modify (upd_cells <[consumerTag := None]>) ;;
  let* Q := deref "queue" queues q in
  let* ch := defined "_channel" (Queue._channel Q) in
  check_channel ch ;;
  let* onMsg := register (CbQueueRpcReply q p consumerTag) in
  let* onOk := register (CbQueueRpcOk q p consumerTag requestParameters) in
  call (LConsume ch DIRECT_REPLY_TO_QUEUE (Some {["noAck" := VBool true]}) onMsg onOk).

(** [Queue.rpc(requestParameters)] *)
Definition Queue_rpc (q : ref) (requestParameters : jsval) : M pid :=
  new_Promise (λ p,
    let* Q := deref "queue" queues q in
    let* i := defined "initialized" (Queue.initialized Q) in
    let* now := isFulfilled i in
    if now then Queue_rpc_processRpc q p requestParameters
    else then_ i (TQueueProcessRpc q p requestParameters)).

Definition on_CbQueueRpcReply (q : ref) (p : pid) (consumerTag : ref)
    (msg : option delivery) : M unit :=
  let* Q := deref "queue" queues q in
  let* ch := defined "_channel" (Queue._channel Q) in
  let* tag := read_cell consumerTag in
  chan_call ch (LCancel ch tag None) ;;
  let* msg := defined "msg" msg in
  let* v := lift (Queue__unpackMessageContent msg) in
  resolve p v.

Definition on_CbQueueRpcOk (q : ref) (p : pid) (consumerTag : ref)
    (requestParameters : jsval) (res : error + jsval) : M unit :=
  match res with
  | inl err => reject p ("amqp-ts: Queue.rpc error: " +:+ err)
  | inr ok =>
      modify (upd_cells <[consumerTag := Some (field ok "consumerTag")]>) ;;
      Queue_publish q requestParameters {["replyTo" := VStr DIRECT_REPLY_TO_QUEUE]}
  end.

(** ** Consumers *)

(** A promise that is rejected at once: [new Promise((_, reject) => reject(e))] *)
Definition rejected_promise (e : error) : M pid :=
  new_Promise (λ p, reject p e).

(** [Queue.startConsumer(onMessage, options)] *)
Definition Queue_startConsumer (q : ref) (onMessage : consumer_fn) (options : props) : M pid :=
  let* Q := deref "queue" queues q in
  match Queue._consumerInitialized Q with
  | Some _ => rejected_promise "amqp-ts Queue.startConsumer error: consumer already defined"
  | None =>
      update_queue q (Queue.with__isStartConsumer true) ;;
      update_queue q (Queue.with__rawConsumer
                        (strict_eq_true (get_prop options "rawMessage"))) ;;
      update_queue q (Queue.with__consumerOptions (Some (delete "rawMessage" options))) ;;
      update_queue q (Queue.with__consumer (Some onMessage)) ;;
      Queue__initializeConsumer q ;;
      let* Q := deref "queue" queues q in
      defined "_consumerInitialized" (Queue._consumerInitialized Q)
  end.

(** [Queue.activateConsumer(onMessage, options)] *)
Definition Queue_activateConsumer (q : ref) (onMessage : consumer_fn) (options : props)
    : M pid :=
  let* Q := deref "queue" queues q in
  match Queue._consumerInitialized Q with
  | Some _ => rejected_promise "amqp-ts Queue.activateConsumer error: consumer already defined"
  | None =>
      update_queue q (Queue.with__consumerOptions (Some options)) ;;
      update_queue q (Queue.with__consumer (Some onMessage)) ;;
      Queue__initializeConsumer q ;;
      let* Q := deref "queue" queues q in
      defined "_consumerInitialized" (Queue._consumerInitialized Q)
  end.

(** The reply sent when the delivery carries a [replyTo]. *)
Definition send_reply (q : ref) (msg : delivery) (result : jsval) : M unit :=
  let replyTo := get_prop (d_properties msg) "replyTo" in
  if truthy replyTo then
    let* ro := lift (Queue__packMessageContent result ∅) in
    let* Q := deref "queue" queues q in
    let* ch := defined "_channel" (Queue._channel Q) in
    chan_call ch (LSendToQueue ch replyTo ro.1 ro.2)
  else M_ret tt.

(** The [catch] block of the three wrappers: [err.message] of [null] or
    [undefined] throws a [TypeError], out of the wrapper. *)
Definition consumer_error (err : thrown) : M unit :=
  match err with
  | Thrown message =>
      log "error" ("Queue.onMessage consumer function returned error: " +:+ message)
  | ThrownNull => M_throw "TypeError: Cannot read property 'message' of null"
  | ThrownUndefined => M_throw "TypeError: Cannot read property 'message' of undefined"
  end.

(** [try { body } catch (err) { ... }] in the wrappers: [body] returns what
    the callback threw, if it did, and skips what follows the call; what the
    facade and the library throw are [Error]s. *)
Definition try_consumer (body : M (option thrown)) : M unit :=
  let* caught := try_catch body (λ err, M_ret (Some (Thrown err))) in
  match caught with
  | Some err => consumer_error err
  | None => M_ret tt
  end.

(** [processedMsgConsumer] in [Queue._initializeConsumer] *)
Definition Queue_processedMsgConsumer (q : ref) (msg : option delivery) : M unit :=
  try_consumer
    (match msg with
     | None => M_ret None
     | Some msg =>
         let* payload := lift (Queue__unpackMessageContent msg) in
         let* Q := deref "queue" queues q in
         let* consumer := defined "_consumer" (Queue._consumer Q) in
         match consumer (ArgPayload payload) with
         | Throws err => M_ret (Some err)
         | Returns result =>
             send_reply q msg result ;;
             let* Q := deref "queue" queues q in
             let* o := defined "_consumerOptions" (Queue._consumerOptions Q) in
             (if strict_eq_true (get_prop o "noAck") then M_ret tt
              else
                let* ch := defined "_channel" (Queue._channel Q) in
                chan_call ch (LAck ch (Some msg) VUndefined)) ;;
             M_ret None
         end
     end).

(** [rawMsgConsumer] *)
Definition Queue_rawMsgConsumer (q : ref) (msg : option delivery) : M unit :=
  try_consumer
    (let* Q := deref "queue" queues q in
     let* consumer := defined "_consumer" (Queue._consumer Q) in
     match consumer (ArgRaw msg (Queue._channel Q)) with
     | Throws err => M_ret (Some err)
     | Returns _ => M_ret None
     end).

(** [activateConsumerWrapper] *)
Definition Queue_activateConsumerWrapper (q : ref) (msg : option delivery) : M unit :=
  try_consumer
    (let* msg := defined "msg" msg in
     let* message := lift (Message_new (VBuf (d_content msg)) (d_properties msg)) in
     let* Q := deref "queue" queues q in
     let message := {| Message.content := Message.content message;
                       Message.fields := Some (d_fields msg);
                       Message.properties := Message.properties message;
                       Message._channel := Queue._channel Q;
                       Message._message := Some msg |} in
     alloc_message message ;;
     let* consumer := defined "_consumer" (Queue._consumer Q) in
     match consumer (ArgMessage message) with
     | Throws err => M_ret (Some err)
     | Returns result => send_reply q msg result ;; M_ret None
     end).

Definition on_CbConsumer (q : ref) (w : wrapper) (msg : option delivery) : M unit :=
  match w with
  | processedMsgConsumer => Queue_processedMsgConsumer q msg
  | rawMsgConsumer => Queue_rawMsgConsumer q msg
  | activateConsumerWrapper => Queue_activateConsumerWrapper q msg
  end.

(** [Queue.stopConsumer] *)
Definition Queue_stopConsumer (q : ref) : M pid :=
  let* Q := deref "queue" queues q in
  match Queue._consumerInitialized Q with
  | None => rejected_promise "amqp-ts Queue.cancelConsumer error: no consumer defined"
  | Some ci => new_Promise (λ p, then_ ci (TQueueCancel q p))
  end.

Definition run_TQueueCancel (q : ref) (p : pid) : M unit :=
  let* Q := deref "queue" queues q in
  let* ch := defined "_channel" (Queue._channel Q) in
  chan_call_cb ch (λ t, LCancel ch (Queue._consumerTag Q) (Some t)) (CbCancel q p).

Definition on_CbCancel (q : ref) (p : pid) (err : option error) : M unit :=
  match err with
  | Some err => reject p err
  | None =>
      update_queue q (Queue.with__consumerInitialized None) ;;
      update_queue q (Queue.with__consumer None) ;;
      update_queue q (Queue.with__consumerOptions None) ;;
      resolve p VNull
  end.

(** ** Deleting and closing *)

Definition unregister_exchange (e : ref) : M unit :=
  let* E := deref "exchange" exchanges e in
  connection_of (Exchange._connection E) ;;
  update_conn (λ c, Connection.with__exchanges
                      (delete (Exchange._name E) (Connection._exchanges c)) c).

Definition unregister_queue (q : ref) : M unit :=
  let* Q := deref "queue" queues q in
  connection_of (Queue._connection Q) ;;
  update_conn (λ c, Connection.with__queues
                      (delete (Queue._name Q) (Connection._queues c)) c).

(** [Exchange.delete] *)
Definition Exchange_delete (e : ref) : M pid :=
  new_Promise (λ p,
    let* E := deref "exchange" exchanges e in
    let* i := defined "initialized" (Exchange.initialized E) in
    then_ i (TExchangeDelete1 e p)).

Definition run_TExchangeDelete1 (e : ref) (p : pid) : M unit :=
  let* j := Binding_removeBindingsContaining (EP_Exchange e) in
  then_ j (TExchangeDelete2 e p).

Definition run_TExchangeDelete2 (e : ref) (p : pid) : M unit :=
  let* E := deref "exchange" exchanges e in
  let* ch := defined "_channel" (Exchange._channel E) in
  chan_call_cb ch (LDeleteExchange ch (Exchange._name E)) (CbDeleteExchange e p).

Definition on_CbDeleteExchange (e : ref) (p : pid) (err : option error) : M unit :=
  match err with
  | Some err => reject p err
  | None =>
      let* E := deref "exchange" exchanges e in
      let* ch := defined "_channel" (Exchange._channel E) in
      chan_call_cb ch (LChannelClose ch) (CbExchangeDeleteClosed e p)
  end.

Definition on_CbExchangeDeleteClosed (e : ref) (p : pid) (err : option error) : M unit :=
  update_exchange e (Exchange.with_initialized None) ;;
  unregister_exchange e ;;
  match err with
  | Some err => reject p err
  | None =>
      update_exchange e (Exchange.with__channel None) ;;
      update_exchange e (Exchange.with__connection None) ;;
      resolve p VNull
  end.

(** [Exchange.close] *)
Definition Exchange_close (e : ref) : M pid :=
  new_Promise (λ p,
    let* E := deref "exchange" exchanges e in
    let* i := defined "initialized" (Exchange.initialized E) in
    then_ i (TExchangeClose1 e p)).

Definition run_TExchangeClose1 (e : ref) (p : pid) : M unit :=
  let* j := Binding_removeBindingsContaining (EP_Exchange e) in
  then_ j (TExchangeClose2 e p).

Definition run_TExchangeClose2 (e : ref) (p : pid) : M unit :=
  update_exchange e (Exchange.with_initialized None) ;;
  unregister_exchange e ;;
  let* E := deref "exchange" exchanges e in
  let* ch := defined "_channel" (Exchange._channel E) in
  chan_call_cb ch (LChannelClose ch) (CbExchangeClosed e p).

Definition on_CbExchangeClosed (e : ref) (p : pid) (err : option error) : M unit :=
  match err with
  | Some err => reject p err
  | None =>
      update_exchange e (Exchange.with__channel None) ;;
      update_exchange e (Exchange.with__connection None) ;;
      resolve p VNull
  end.

(** [Queue.delete] *)
Definition Queue_delete (q : ref) : M pid :=
  new_Promise (λ p,
    let* Q := deref "queue" queues q in
    let* i := defined "initialized" (Queue.initialized Q) in
    then_ i (TQueueDelete1 q p)).

Definition run_TQueueDelete1 (q : ref) (p : pid) : M unit :=
  let* j := Binding_removeBindingsContaining (EP_Queue q) in
  then_ j (TQueueDelete2 q p).

Definition run_TQueueDelete2 (q : ref) (p : pid) : M unit :=
  let* Q := deref "queue" queues q in
  let* ch := defined "_channel" (Queue._channel Q) in
  chan_call_cb ch (LDeleteQueue ch (Queue._name Q)) (CbDeleteQueue q p).

Definition on_CbDeleteQueue (q : ref) (p : pid) (res : error + jsval) : M unit :=
  match res with
  | inl err => reject p err
  | inr ok =>
      update_queue q (Queue.with_initialized None) ;;
      unregister_queue q ;;
      let* Q := deref "queue" queues q in
      let* ch := defined "_channel" (Queue._channel Q) in
      chan_call_cb ch (LChannelClose ch) (CbQueueClosed q p ok)
  end.

(** The callback of [channel.close] in [Queue.delete] ([ok] is the result of
    [deleteQueue]) and in [Queue.close] ([ok] is [null]). *)
Definition on_CbQueueClosed (q : ref) (p : pid) (ok : jsval) (err : option error) : M unit :=
  match err with
  | Some err => reject p err
  | None =>
      update_queue q (Queue.with__channel None) ;;
      update_queue q (Queue.with__connection None) ;;
      resolve p ok
  end.

(** [Queue.close] *)
Definition Queue_close (q : ref) : M pid :=
  new_Promise (λ p,
    let* Q := deref "queue" queues q in
    let* i := defined "initialized" (Queue.initialized Q) in
    then_ i (TQueueClose1 q p)).

Definition run_TQueueClose1 (q : ref) (p : pid) : M unit :=
  let* j := Binding_removeBindingsContaining (EP_Queue q) in
  then_ j (TQueueClose2 q p).

Definition run_TQueueClose2 (q : ref) (p : pid) : M unit :=
  update_queue q (Queue.with_initialized None) ;;
  unregister_queue q ;;
  let* Q := deref "queue" queues q in
  let* ch := defined "_channel" (Queue._channel Q) in
  chan_call_cb ch (LChannelClose ch) (CbQueueClosed q p VNull).

(** [destination.bind(source, pattern, args)] of [Exchange] and [Queue] *)
Definition bind (destination : endpoint) (source : ref) (pattern : string) (args : props)
    : M (option pid) :=
  let* b := Binding_new destination source pattern args in
  let* B := deref "binding" bindings b in
  M_ret (Binding.initialized B).

(** ** The event loop *)

(** Run a function that was passed to [.then] or [.catch]. *)
Definition run_task (t : task) : M unit :=
  match t with
  | TConnectionCatch e => run_TConnectionCatch e
  | TExchangeInit e p => run_TExchangeInit e p
  | TQueueInit q p => run_TQueueInit q p
  | TBindingInit b p => run_TBindingInit b p
  | TBindingDelete b p => run_TBindingDelete b p
  | TExchangeSend e rk c o => run_TExchangeSend e rk c o
  | TExchangeRetransmit n c rk o => run_TExchangeRetransmit n c rk o
  | TQueueSend q c o => Queue_publish_sendMessage q c o
  | TQueueRetransmit n c o => run_TQueueRetransmit n c o
  | TMessageSend m d x rk => Message_sendTo_sendMessage m d x rk
  | TMessageRetransmit m d n rk => run_TMessageRetransmit m d n rk
  | TQueueProcessRpc q p rq => Queue_rpc_processRpc q p rq
  | TQueueConsume q p => run_TQueueConsume q p
  | TQueueCancel q p => run_TQueueCancel q p
  | TExchangeDelete1 e p => run_TExchangeDelete1 e p
  | TExchangeDelete2 e p => run_TExchangeDelete2 e p
  | TExchangeClose1 e p => run_TExchangeClose1 e p
  | TExchangeClose2 e p => run_TExchangeClose2 e p
  | TQueueDelete1 q p => run_TQueueDelete1 q p
  | TQueueDelete2 q p => run_TQueueDelete2 q p
  | TQueueClose1 q p => run_TQueueClose1 q p
  | TQueueClose2 q p => run_TQueueClose2 q p
  | TRebuildDone r => run_TRebuildDone r
  | TRebuildFail r e => run_TRebuildFail r e
  | TAllPart j => run_TAllPart j
  | TAllFail j e => reject j e
  end.

(** A callback of the shape [(err) => ...], called once. *)
Definition once_err (t : token) (res : cb_result) (k : option error → M unit) : M unit :=
  match res with
  | Err e => unregister t ;; k (Some e)
  | Ok _ => unregister t ;; k None
  | _ => M_ret tt
  end.

(** A callback of the shape [(err, ok) => ...], called once. *)
Definition once_res (t : token) (res : cb_result) (k : error + jsval → M unit) : M unit :=
  match res with
  | Err e => unregister t ;; k (inl e)
  | Ok v => unregister t ;; k (inr v)
  | _ => M_ret tt
  end.

(** A callback that receives deliveries, any number of times. *)
Definition on_msg (res : cb_result) (k : option delivery → M unit) : M unit :=
  match res with
  | Msg m => k m
  | _ => M_ret tt
  end.

(** The library calls back the function registered under [t]. *)
Definition fire (t : token) (res : cb_result) : M unit :=
  let* cbs := gets callbacks in
  match cbs !! t with
  | None => M_ret tt
  | Some cb =>
      match cb with
      | CbConnect retry p => once_err t res (on_CbConnect retry p)
      | CbTimer retry p =>
          match res with
          | Fired => unregister t ;; Connection_tryToConnect retry p
          | _ => M_ret tt
          end
      | CbRestart l =>
          match res with
          | Err e => on_CbRestart t l e
          | _ => M_ret tt
          end
      | CbExchangeChannel e p => once_err t res (on_CbExchangeChannel e p)
      | CbExchangeAssert e p => once_res t res (on_CbExchangeAssert e p)
      | CbQueueChannel q p => once_err t res (on_CbQueueChannel q p)
      | CbQueueAssert q p => once_res t res (on_CbQueueAssert q p)
      | CbBind b p => once_err t res (on_CbBind b p)
      | CbUnbind b p => once_err t res (on_CbUnbind b p)
      | CbExchangeRpcReply e p tag => on_msg res (on_CbExchangeRpcReply e p tag)
      | CbExchangeRpcOk e p tag rq rk => once_res t res (on_CbExchangeRpcOk e p tag rq rk)
      | CbQueueRpcReply q p tag => on_msg res (on_CbQueueRpcReply q p tag)
      | CbQueueRpcOk q p tag rq => once_res t res (on_CbQueueRpcOk q p tag rq)
      | CbConsumer q w => on_msg res (on_CbConsumer q w)
      | CbConsumeOk q p => once_res t res (on_CbConsumeOk q p)
      | CbCancel q p => once_err t res (on_CbCancel q p)
      | CbDeleteExchange e p => once_err t res (on_CbDeleteExchange e p)
      | CbExchangeDeleteClosed e p => once_err t res (on_CbExchangeDeleteClosed e p)
      | CbExchangeClosed e p => once_err t res (on_CbExchangeClosed e p)
      | CbDeleteQueue q p => once_res t res (on_CbDeleteQueue q p)
      | CbQueueClosed q p ok => once_err t res (on_CbQueueClosed q p ok)
      end
  end.

(** What happens to the machine: the event loop runs the next queued
    function, the library calls back, a channel goes stale, or the
    application calls the facade. *)
Inductive event :=
| ERunTask
| ECallback (t : token) (res : cb_result)
| EChannelStale (ch : chan)
| ADeclareExchange (name : string) (type : option string) (options : option props)
| ADeclareQueue (name : string) (options : option props)
| ABind (destination : endpoint) (source : ref) (pattern : string) (args : props)
| AExchangePublish (e : ref) (c : jsval) (routingKey : string) (options : props)
| AQueuePublish (q : ref) (c : jsval) (options : props)
| ANewMessage (c : jsval) (options : props)
| ASetContent (m : ref) (c : jsval)
| ASendTo (m : ref) (destination : endpoint) (routingKey : string)
| AAck (m : ref) (allUpTo : jsval)
| ANack (m : ref) (requeue : jsval)
| AReject (m : ref) (requeue : jsval)
| AExchangeRpc (e : ref) (request : jsval) (routingKey : string)
| AQueueRpc (q : ref) (request : jsval)
| AStartConsumer (q : ref) (onMessage : consumer_fn) (options : props)
| AActivateConsumer (q : ref) (onMessage : consumer_fn) (options : props)
| AStopConsumer (q : ref)
| AExchangeDelete (e : ref)
| AExchangeClose (e : ref)
| AQueueDelete (q : ref)
| AQueueClose (q : ref).

Definition run_next : M unit :=
  let* ts := gets tasks in
  match ts with
  | [] => M_ret tt
  | t :: ts' => modify (upd_tasks (λ _, ts')) ;; run_task t
  end.

Definition handle (ev : event) : M unit :=
  match ev with
  | ERunTask => run_next
  | ECallback t res => fire t res
  | EChannelStale ch => modify (upd_stale (λ s, {[ch]} ∪ s))
  | ADeclareExchange name type options =>
      Connection_declareExchange name type options ;; M_ret tt
  | ADeclareQueue name options => Connection_declareQueue name options ;; M_ret tt
  | ABind d s pattern args => bind d s pattern args ;; M_ret tt
  | AExchangePublish e c rk o => Exchange_publish e c rk o
  | AQueuePublish q c o => Queue_publish q c o
  | ANewMessage c o => let* m := lift (Message_new c o) in alloc_message m ;; M_ret tt
  | ASetContent m c =>
      let* msg := deref "message" messages m in
      let* msg := lift (Message_setContent c msg) in
      modify (upd_messages <[m := msg]>)
  | ASendTo m d rk => Message_sendTo m d rk
  | AAck m v => Message_ack m v
  | ANack m v => Message_nack m v
  | AReject m v => Message_reject m v
  | AExchangeRpc e rq rk => Exchange_rpc e rq rk ;; M_ret tt
  | AQueueRpc q rq => Queue_rpc q rq ;; M_ret tt
  | AStartConsumer q f o => Queue_startConsumer q f o ;; M_ret tt
  | AActivateConsumer q f o => Queue_activateConsumer q f o ;; M_ret tt
  | AStopConsumer q => Queue_stopConsumer q ;; M_ret tt
  | AExchangeDelete e => Exchange_delete e ;; M_ret tt
  | AExchangeClose e => Exchange_close e ;; M_ret tt
  | AQueueDelete q => Queue_delete q ;; M_ret tt
  | AQueueClose q => Queue_close q ;; M_ret tt
  end.

(** One step of the machine; an error nobody catches is recorded. *)
Definition step (ev : event) (st : State) : State :=
  match handle ev st with
  | (Ret _, st') => st'
  | (Throw e, st') => upd_unhandled (λ l, l ++ [e]) st'
  end.

Definition run (evs : list event) (st : State) : State :=
  foldl (λ st ev, step ev st) st evs.

End Machine.

(** [new Connection(url, socketOptions, reconnectStrategy)] *)
Definition blank (url : string) (socketOptions : props) (strategy : ReconnectStrategy)
    : State :=
  {| conn := {| Connection.initialized := None; Connection.url := url;
                Connection.socketOptions := socketOptions;
                Connection.reconnectStrategy := strategy;
                Connection.connectedBefore := false;
                Connection._connection := None;
                Connection._rebuilding := false;
                Connection._exchanges := ∅; Connection._queues := ∅;
                Connection._bindings := ∅ |};
     exchanges := ∅; queues := ∅; bindings := ∅; messages := ∅; cells := ∅;
     promises := ∅; joins := ∅; tasks := []; callbacks := ∅; stale := ∅;
     next := 0%nat; calls := []; logs := []; unhandled := [] |}.

Definition Connection_new (url : string) (socketOptions : props)
    (strategy : ReconnectStrategy) : State :=
  exec Connection_rebuildConnection (blank url socketOptions strategy).

(** ** A JSON codec to run the machine on examples

    A compact printer in the style of [JSON.stringify] and a recursive-descent
    parser for what it prints.  The theorems below hold for every instance of
    [JSON]; this one instantiates them on concrete payloads. *)
Module Json.

Definition quote : string := String "034"%char EmptyString.

Fixpoint escape (s : string) : string :=
  match s with
  | EmptyString => EmptyString
  | String c s' =>
      if bool_decide (c = "034"%char) || bool_decide (c = "092"%char)
      then String "092"%char (String c (escape s'))
      else String c (escape s')
  end.

Definition join (sep : string) (l : list string) : string :=
  match l with
  | [] => EmptyString
  | x :: l' => foldl (λ acc y, acc +:+ sep +:+ y) x l'
  end.

(** [undefined] and facade objects have no JSON form; inside an array they
    print as [null], inside an object their key is left out. *)
Fixpoint print (v : jsval) : option string :=
  match v with
  | VUndefined => None
  | VRef _ => None
  | VNull => Some "null"
  | VBool true => Some "true"
  | VBool false => Some "false"
  | VNum n => Some (pretty n)
  | VStr s => Some (quote +:+ escape s +:+ quote)
  | VBuf b => Some ("{" +:+ quote +:+ "type" +:+ quote +:+ ":" +:+ quote +:+ "Buffer"
                    +:+ quote +:+ "," +:+ quote +:+ "data" +:+ quote +:+ ":["
                    +:+ join "," ((λ x : byte, pretty (Z.of_N (Byte.to_N x))) <$> b) +:+ "]}")
  | VArr l =>
      Some ("[" +:+ join "," ((fix elems (l : list jsval) : list string :=
                                 match l with
                                 | [] => []
                                 | x :: l' => default "null" (print x) :: elems l'
                                 end) l) +:+ "]")
  | VObj l =>
      Some ("{" +:+ join "," ((fix members (l : list (string * jsval)) : list string :=
                                 match l with
                                 | [] => []
                                 | (k, x) :: l' =>
                                     match print x with
                                     | Some s => (quote +:+ escape k +:+ quote +:+ ":" +:+ s)
                                                   :: members l'
                                     | None => members l'
                                     end
                                 end) l) +:+ "}")
  end.

Definition is_digit (c : ascii) : bool :=
  (48 <=? nat_of_ascii c)%nat && (nat_of_ascii c <=? 57)%nat.

Fixpoint digits (s : list ascii) (acc : Z) : Z * list ascii :=
  match s with
  | c :: s' =>
      if is_digit c then digits s' (10 * acc + Z.of_nat (nat_of_ascii c - 48))
      else (acc, s)
  | [] => (acc, s)
  end.

(** The text of a string literal after its opening quote. *)
Fixpoint chars (s : list ascii) : option (string * list ascii) :=
  match s with
  | [] => None
  | c :: s' =>
      if bool_decide (c = "034"%char) then Some (EmptyString, s')
      else if bool_decide (c = "092"%char) then
        match s' with
        | c' :: s'' => (λ r, (String c' r.1, r.2)) <$> chars s''
        | [] => None
        end
      else (λ r, (String c r.1, r.2)) <$> chars s'
  end.

Fixpoint value (fuel : nat) (s : list ascii) : option (jsval * list ascii) :=
  match fuel with
  | O => None
  | S fuel =>
      match s with
      | "n" :: "u" :: "l" :: "l" :: r => Some (VNull, r)
      | "t" :: "r" :: "u" :: "e" :: r => Some (VBool true, r)
      | "f" :: "a" :: "l" :: "s" :: "e" :: r => Some (VBool false, r)
      | "-" :: c :: r =>
          if is_digit c then let d := digits (c :: r) 0 in Some (VNum (- d.1), d.2)
          else None
      | "[" :: "]" :: r => Some (VArr [], r)
      | "[" :: r => elements fuel r []
      | "{" :: "}" :: r => Some (VObj [], r)
      | "{" :: r => members fuel r []
      | c :: r =>
          if bool_decide (c = "034"%char) then (λ x, (VStr x.1, x.2)) <$> chars r
          else if is_digit c then let d := digits s 0 in Some (VNum d.1, d.2)
          else None
      | [] => None
      end%char
  end
with elements (fuel : nat) (s : list ascii) (acc : list jsval)
    : option (jsval * list ascii) :=
  match fuel with
  | O => None
  | S fuel =>
      match value fuel s with
      | Some (v, ("," :: r)%char) => elements fuel r (acc ++ [v])
      | Some (v, ("]" :: r)%char) => Some (VArr (acc ++ [v]), r)
      | _ => None
      end
  end
with members (fuel : nat) (s : list ascii) (acc : list (string * jsval))
    : option (jsval * list ascii) :=
  match fuel with
  | O => None
  | S fuel =>
      match s with
      | c :: r =>
          if bool_decide (c = "034"%char) then
            match chars r with
            | Some (k, (":" :: r')%char) =>
                match value fuel r' with
                | Some (v, ("," :: r'')%char) => members fuel r'' (acc ++ [(k, v)])
                | Some (v, ("}" :: r'')%char) => Some (VObj (acc ++ [(k, v)]), r'')
                | _ => None
                end
            | _ => None
            end
          else None
      | [] => None
      end
  end.

Definition parse (s : string) : option jsval :=
  match value (S (String.length s)) (String.list_ascii_of_string s) with
  | Some (v, []) => Some v
  | _ => None
  end.

Definition codec : JSON := {| JSON_stringify := print; JSON_parse := parse |}.

End Json.

(** ** The rest of the facade

    The methods of [Connection], [Exchange] and [Queue] that are written in
    terms of the functions above: [send], [unbind], the consumer of an
    exchange and [deleteConfiguration].  [process.env], [os.hostname()] and
    [process.pid], which [consumerQueueName] reads, are parameters. *)
Section Facade.
Context `{JSON}.
Variables (ApplicationName hostname : string) (process_pid : Z).

(** [Exchange.send(message, routingKey)] *)
Definition Exchange_send (e : ref) (message : ref) (routingKey : string) : M unit :=
  Message_sendTo message (EP_Exchange e) routingKey.

(** [Queue.send(message, routingKey)] *)
Definition Queue_send (q : ref) (message : ref) (routingKey : string) : M unit :=
  Message_sendTo message (EP_Queue q) routingKey.

(** [destination.unbind(source, pattern, args)] of [Exchange] and [Queue]:
    [this._connection._bindings[Binding.id(this, source, pattern)].delete()] *)
Definition unbind (destination : endpoint) (source : ref) (pattern : string) (args : props)
    : M pid :=
  let* c := endpoint_connection destination in
  let* c := connection_of c in
  let* id := Binding_id destination source pattern in
  let* b := defined "binding" (Connection._bindings c !! id) in
  Binding_delete b.

(** [Exchange.consumerQueueName] *)
Definition Exchange_consumerQueueName (e : ref) : M string :=
  let* E := deref "exchange" exchanges e in
  M_ret (Exchange._name E +:+ "." +:+ ApplicationName +:+ "." +:+ hostname +:+ "."
         +:+ pretty process_pid).

(** [Exchange.startConsumer(onMessage, options)] *)
Definition Exchange_startConsumer (e : ref) (onMessage : consumer_fn) (options : option props)
    : M pid :=
  let* queueName := Exchange_consumerQueueName e in
  let* E := deref "exchange" exchanges e in
  let* c := connection_of (Exchange._connection E) in
  match Connection._queues c !! queueName with
  | Some _ =>
      rejected_promise "amqp-ts Exchange.startConsumer error: consumer already defined"
  | None =>
      let* queue := Connection_declareQueue queueName (Some {["durable" := VBool false]}) in
      match queue with
      | Declared queue =>
          let* Q := deref "queue" queues queue in
          let* binding := bind (EP_Queue queue) e "" ∅ in
          let* consumer := Queue_startConsumer queue onMessage (default ∅ options) in
          Promise_all [Queue.initialized Q; binding; Some consumer]
      | Inherited _ => M_throw "TypeError: queue.startConsumer is not a function"
      end
  end.

(** [Exchange.activateConsumer(onMessage, options)] *)
Definition Exchange_activateConsumer (e : ref) (onMessage : consumer_fn)
    (options : option props) : M pid :=
  let* queueName := Exchange_consumerQueueName e in
  let* E := deref "exchange" exchanges e in
  let* c := connection_of (Exchange._connection E) in
  match Connection._queues c !! queueName with
  | Some _ =>
      rejected_promise "amqp-ts Exchange.activateConsumer error: consumer already defined"
  | None =>
      let* queue := Connection_declareQueue queueName (Some {["durable" := VBool false]}) in
      match queue with
      | Declared queue =>
          let* Q := deref "queue" queues queue in
          let* binding := bind (EP_Queue queue) e "" ∅ in
          let* consumer := Queue_activateConsumer queue onMessage (default ∅ options) in
          Promise_all [Queue.initialized Q; binding; Some consumer]
      | Inherited _ => M_throw "TypeError: queue.activateConsumer is not a function"
      end
  end.

(** [Exchange.stopConsumer] *)
Definition Exchange_stopConsumer (e : ref) : M pid :=
  let* E := deref "exchange" exchanges e in
  let* c := connection_of (Exchange._connection E) in
  let* queueName := Exchange_consumerQueueName e in
  match Connection._queues c !! queueName with
  | Some queue =>
      let* id := Binding_id (EP_Queue queue) e "" in
      let binding := Connection._bindings c !! id in
      let* stopped := Queue_stopConsumer queue in
      let* binding := defined "binding" binding in
      let* unbound := Binding_delete binding in
      let* deleted := Queue_delete queue in
      Promise_all [Some stopped; Some unbound; Some deleted]
  | None => rejected_promise "amqp-ts Exchange.cancelConsumer error: no consumer defined"
  end.

(** [Connection.deleteConfiguration] *)
Definition Connection_deleteConfiguration : M pid :=
  let* c := gets conn in
  let* bs := collect (map_to_list (Connection._bindings c)) (λ kv,
    let* p := Binding_delete kv.2 in
    M_ret [Some p]) in
  let* qs := collect (map_to_list (Connection._queues c)) (λ kv,
    let* Q := deref "queue" queues kv.2 in
    let* stopped :=
      match Queue._consumerInitialized Q with
      | Some _ => let* p := Queue_stopConsumer kv.2 in M_ret [Some p]
      | None => M_ret []
      end in
    let* p := Queue_delete kv.2 in
    M_ret (stopped ++ [Some p])) in
  let* es := collect (map_to_list (Connection._exchanges c)) (λ kv,
    let* p := Exchange_delete kv.2 in
    M_ret [Some p]) in
  Promise_all (bs ++ qs ++ es).

End Facade.

(** * Properties *)

(** ** Notions the statements use *)

(** A value that is neither a string nor a [Buffer]. *)
Definition other (v : jsval) : Prop :=
  match v with
  | VStr _ | VBuf _ => False
  | _ => True
  end.

(** A string in which every surrogate has its partner: its bytes are
    well-formed UTF-8. *)
Definition well_formed (s : string) : Prop :=
  is_utf8 (String.list_byte_of_string s) = true.

(** A value is JSON-serializable when [JSON.parse(JSON.stringify(v))] gives
    it back. *)
Definition JSON_serializable `{JSON} (v : jsval) : Prop :=
  ∃ s, JSON_stringify v = Some s ∧ JSON_parse s = Some v.

(** A [Message] made by [new Message(c, o)] on which nothing else is set. *)
Definition local_message `{JSON} (c : jsval) (o : props) (m : Message.t) : Prop :=
  Message_new c o = Ret m.

(** *** Connect attempts in flight *)

(** A connect attempt is in flight while the library holds the callback of a
    pending [AmqpLib.connect], or the timer that will start the next try. *)
Definition connecting (cb : callback) : bool :=
  match cb with
  | CbConnect _ _ | CbTimer _ _ => true
  | _ => false
  end.

Definition in_flight (st : State) : nat :=
  size (filter (λ kv : token * callback, connecting kv.2 = true) (callbacks st)).

(** The guard [this._rebuilding]. *)
Definition guard (st : State) : bool := Connection._rebuilding (conn st).

(** References are handed out in increasing order: what is registered or
    allocated lies below [next]. *)
Definition wf (st : State) : Prop :=
  (∀ t, t ∈ dom (callbacks st) → (t < next st)%nat)
  ∧ (∀ r, r ∈ dom (exchanges st) → (r < next st)%nat)
  ∧ (∀ r, r ∈ dom (queues st) → (r < next st)%nat).

Definition b2n (b : bool) : nat := if b then 1%nat else 0%nat.

(** The promise a connect attempt settles when it ends. *)
Definition attempt_promise (cb : callback) : option pid :=
  match cb with
  | CbConnect _ p | CbTimer _ p => Some p
  | _ => None
  end.

(** The attempts in flight settle the promise [this.initialized] holds. *)
Definition linked (st : State) : Prop :=
  ∀ t cb, callbacks st !! t = Some cb → connecting cb = true →
          Connection.initialized (conn st) = attempt_promise cb.

(** One attempt in flight exactly while the guard is set, and it is the
    attempt of [this.initialized]. *)
Definition serialized (st : State) : Prop :=
  wf st ∧ in_flight st = b2n (guard st) ∧ linked st.

(** Every registered reference is an object of the heap that carries the
    name it is registered under. *)
Definition named (st : State) : Prop :=
  (∀ n e, Connection._exchanges (conn st) !! n = Some e →
          ∃ E, exchanges st !! e = Some E ∧ Exchange._name E = n)
  ∧ (∀ n q, Connection._queues (conn st) !! n = Some q →
            ∃ Q, queues st !! q = Some Q ∧ Queue._name Q = n).

(** Objects stay in the heap and keep their names. *)
Definition persists (st st' : State) : Prop :=
  (∀ e E, exchanges st !! e = Some E →
          ∃ E', exchanges st' !! e = Some E' ∧ Exchange._name E' = Exchange._name E)
  ∧ (∀ q Q, queues st !! q = Some Q →
            ∃ Q', queues st' !! q = Some Q' ∧ Queue._name Q' = Queue._name Q).

(** What every function of the facade other than the connect callbacks keeps:
    the attempts in flight change only together with the guard; a guard that
    is set stays set, with the same [this.initialized]; the registries stay
    named. *)
Definition keeps (st st' : State) : Prop :=
  (wf st → wf st' ∧ (in_flight st' + b2n (guard st) = in_flight st + b2n (guard st'))%nat)
  ∧ (guard st = true →
     guard st' = true
     ∧ Connection.initialized (conn st') = Connection.initialized (conn st))
  ∧ (wf st → in_flight st = b2n (guard st) → linked st → linked st')
  ∧ (wf st → named st → named st')
  ∧ (wf st → persists st st').

Definition respects {A} (m : M A) : Prop := ∀ st, keeps st (m st).2.

(** A change of state that touches neither the callbacks, the counter, the
    connection, nor the exchanges and queues. *)
Definition harmless (f : State → State) : Prop :=
  ∀ st, callbacks (f st) = callbacks st ∧ next (f st) = next st
        ∧ conn (f st) = conn st
        ∧ exchanges (f st) = exchanges st
        ∧ queues (f st) = queues st.

(** A change of the connection that keeps the guard and [initialized], and
    adds nothing to the registries of exchanges and queues. *)
Definition quiet (f : Connection.t → Connection.t) : Prop :=
  ∀ c, Connection._rebuilding (f c) = Connection._rebuilding c
       ∧ Connection.initialized (f c) = Connection.initialized c
       ∧ Connection._exchanges (f c) ⊆ Connection._exchanges c
       ∧ Connection._queues (f c) ⊆ Connection._queues c.

(** [strategy.retries === 0 || strategy.retries > retry]: another try follows
    a failed one. *)
Definition retry_left (st : State) (retry : Z) : bool :=
  let strategy := Connection.reconnectStrategy (conn st) in
  ((retries strategy =? 0) || (retries strategy >? retry))%Z.

(** What [reject(e)] and [resolve(v)] do to the promises and to the queue of
    the event loop. *)
Definition settled (p : pid) (s : pstate) (ts : list reaction → list task) (st st' : State)
    : Prop :=
  match promises st !! p with
  | Some (Pending rs) =>
      promises st' = <[p := s]> (promises st) ∧ tasks st' = tasks st ++ ts rs
  | _ => promises st' = promises st ∧ tasks st' = tasks st
  end.

Definition rejected_with (p : pid) (e : error) : State → State → Prop :=
  settled p (Rejected e) (omap (λ r, (λ f, f e) <$> on_rejected r)).

Definition fulfilled_with (p : pid) (v : jsval) : State → State → Prop :=
  settled p (Fulfilled v) (omap on_fulfilled).

(** The state [rebuildConnection] leaves when it starts an attempt, up to the
    reaction it then adds to the new promise. *)
Definition attempt_started (st : State) : State :=
  upd_conn (Connection.with_initialized (Some (next st)))
    (upd_calls (λ l, l ++ [LConnect (Connection.url (conn st))
                             (Connection.socketOptions (conn st)) (S (next st))])
       (upd_callbacks <[S (next st) := CbConnect 0 (next st)]>
          (upd_next S
             (upd_promises <[next st := Pending []]>
                (upd_next S
                   (upd_conn (Connection.with__rebuilding true) st)))))).

(** The connect attempt settles at event [ev]: the library reports success,
    or a failure after which no retry is left. *)
Definition connect_settles (st : State) (ev : event) : Prop :=
  ∃ t retry p,
    callbacks st !! t = Some (CbConnect retry p)
    ∧ ((∃ v, ev = ECallback t (Ok v))
       ∨ (∃ e, ev = ECallback t (Err e) ∧ retry_left st retry = false)).

(** *** A broker that cannot be reached *)

(** Each connect attempt fails, and the timer of the retry fires: attempt [k]
    was handed callback [2k+1], its retry timer is callback [2k+2]. *)
Fixpoint failures (k : nat) (errs : list error) : list event :=
  match errs with
  | [] => []
  | e :: errs' =>
      ECallback (2 * k + 1) (Err e) :: ECallback (2 * k + 2) Fired :: failures (S k) errs'
  end.

(** The calls of the library up to attempt [k]: the first [connect], then for
    each retry a timer of [interval] milliseconds and the next [connect]. *)
Fixpoint attempt_calls (url : string) (so : props) (rs : ReconnectStrategy) (k : nat)
    : list libcall :=
  match k with
  | O => [LConnect url so 1]
  | S k' =>
      attempt_calls url so rs k'
      ++ [LSetTimeout (2 * k' + 2) (interval rs); LConnect url so (2 * k' + 3)]
  end.

Definition is_connect (c : libcall) : bool :=
  match c with
  | LConnect _ _ _ => true
  | _ => false
  end.

(** The number of connect attempts made. *)
Definition attempts_made (st : State) : nat := length (filter (λ c, is_connect c = true) (calls st)).

(** Attempt [k] of a new connection is pending, and nothing else happened. *)
Definition attempting (url : string) (so : props) (rs : ReconnectStrategy) (k : nat)
    (st : State) : Prop :=
  callbacks st = {[ (2 * k + 1)%nat := CbConnect (Z.of_nat k) 0%nat ]}
  ∧ next st = (2 * k + 2)%nat
  ∧ conn st = conn (Connection_new url so rs)
  ∧ promises st = promises (Connection_new url so rs)
  ∧ tasks st = []
  ∧ calls st = attempt_calls url so rs k.

(** ** Concrete inputs *)

(** [{a: 1, b: [2, 3]}] *)
Definition sample_object : jsval :=
  VObj [("a", VNum 1); ("b", VArr [VNum 2; VNum 3])].

(** Its JSON text. *)
Definition sample_text : string :=
  Eval vm_compute in default EmptyString (Json.print sample_object).

Definition empty_message : Message.t :=
  {| Message.content := None; Message.fields := None; Message.properties := ∅;
     Message._channel := None; Message._message := None |}.

(** The string ["\uD800"], a surrogate without a partner, and the string
    ["\uFFFD"], the replacement character. *)
Definition lone_surrogate : string := String.string_of_list_byte [xed; xa0; x80].

Definition replacement_character : string := String.string_of_list_byte replacement.

(** A message whose caller chose a content type of their own. *)
Definition typed_message : Message.t :=
  Message.with_properties empty_message {["contentType" := VStr "text/plain"]}.

(** The state right after [new Connection("amqp://localhost", {}, {retries: 2, interval: 10})]. *)
Definition fresh_connection : State :=
  Connection_new "amqp://localhost" ∅ {| retries := 2; interval := 10 |}.

(** ... and after [new Message("hello")]: the message is object 2. *)
Definition with_local_message : State :=
  run (H := Json.codec) [ANewMessage (VStr "hello") ∅] fresh_connection.

(** [declareExchange("e1", "direct")] on the new connection: the exchange is
    object 2 and its [initialized] is promise 3. *)
Definition declared_e1 : State :=
  run (H := Json.codec) [ADeclareExchange "e1" (Some "direct") None] fresh_connection.

(** The connection is established (callback 1), the exchange asks for its
    channel (callback 6). *)
Definition e1_wants_channel : State :=
  run (H := Json.codec) [ECallback 1 (Ok VNull); ERunTask] declared_e1.

(** The channel (7) is there and [assertExchange] is pending (callback 8). *)
Definition e1_asserting : State :=
  run (H := Json.codec) [ECallback 6 (Ok VNull)] e1_wants_channel.

(** The broker acknowledged the declaration. *)
Definition e1_ready : State :=
  run (H := Json.codec) [ECallback 8 (Ok (VObj [("exchange", VStr "e1")]))] e1_asserting.

(** ** Observations *)

(** The state after the facade made the calls [l] of the library, and did
    nothing else. *)
Definition issued (l : list libcall) (st : State) : State :=
  upd_calls (λ c, c ++ l) st.

(** The state after rejections nobody handles were reported, and nothing
    else. *)
Definition reported (es : list error) (st : State) : State :=
  upd_unhandled (λ l, l ++ es) st.

(** The state after a line was written to the log, and nothing else. *)
Definition logged (level message : string) (st : State) : State :=
  upd_logs (λ l, l ++ [(level, message)]) st.

(** The [Message] that [activateConsumerWrapper] builds from a delivery
    received on channel [ch]. *)
Definition received (ch : chan) (msg : delivery) : Message.t :=
  {| Message.content := Some (d_content msg); Message.fields := Some (d_fields msg);
     Message.properties := d_properties msg; Message._channel := Some ch;
     Message._message := Some msg |}.

(** The key of a binding in [_bindings], as [Binding.id] builds it. *)
Definition binding_key (source kind destination pattern : string) : string :=
  "[" +:+ source +:+ "]to" +:+ kind +:+ "[" +:+ destination +:+ "]" +:+ pattern.

(** The destination of a binding is an object of the connection: its kind,
    as [Binding.id] writes it, and its name. *)
Definition is_destination (d : endpoint) (kind name : string) (st : State) : Prop :=
  match d with
  | EP_Queue q =>
      kind = "Queue"
      ∧ ∃ Q, queues st !! q = Some Q ∧ Queue._connection Q = Some this_connection
             ∧ Queue._name Q = name
  | EP_Exchange e =>
      kind = "Exchange"
      ∧ ∃ D, exchanges st !! e = Some D ∧ Exchange._connection D = Some this_connection
             ∧ Exchange._name D = name
  end.

(** A name with a dot in it. *)
Fixpoint dotted (s : string) : bool :=
  match s with
  | EmptyString => false
  | String c s' => bool_decide (c = "."%char) || dotted s'
  end.

(** A promise that is settled by rejection with [msg] and did nothing else
    to the connection, its objects or the library. *)
Definition rejects_with {A} (m : M A) (r : A) (p : pid) (msg : error) (st : State) : Prop :=
  ∃ st', m st = (Ret r, st')
         ∧ promises st' !! p = Some (Rejected msg)
         ∧ conn st' = conn st ∧ exchanges st' = exchanges st ∧ queues st' = queues st
         ∧ bindings st' = bindings st ∧ callbacks st' = callbacks st
         ∧ calls st' = calls st ∧ tasks st' = tasks st.

(** ** More concrete inputs *)

(** Consumer callbacks: one that returns what it gets, one that throws an
    [Error], one that throws [null]. *)
Definition echo : consumer_fn :=
  λ a, match a with
       | ArgPayload v => Returns v
       | _ => Returns VNull
       end.

Definition failing : consumer_fn := λ _, Throws (Thrown "boom").

Definition throwing_null : consumer_fn := λ _, Throws ThrownNull.

(** Deliveries: a text, and a request that names a queue for the reply. *)
Definition hello : delivery :=
  {| d_content := utf8_bytes "hello"; d_fields := ∅; d_properties := ∅ |}.

Definition question : delivery :=
  {| d_content := utf8_bytes "ping"; d_fields := ∅;
     d_properties := {["replyTo" := VStr "answers"]} |}.

(** The exchange ["e1"] (object 2, promise 3) and the queue ["q1"] (object 4,
    promise 5) are declared, the connection (6) is established, and both
    have asked for a channel (callbacks 8 and 9). *)
Definition opening : State :=
  run (H := Json.codec)
    [ADeclareExchange "e1" (Some "direct") None; ADeclareQueue "q1" None;
     ECallback 1 (Ok VNull); ERunTask; ERunTask]
    fresh_connection.

(** Both have their channel (10 and 12) and wait for the broker to confirm
    the declaration (callbacks 11 and 13). *)
Definition asserting : State :=
  run (H := Json.codec) [ECallback 8 (Ok VNull); ECallback 9 (Ok VNull)] opening.

(** Both are confirmed; [new Message("hello")] is object 14. *)
Definition ready : State :=
  run (H := Json.codec)
    [ECallback 11 (Ok (VObj [("exchange", VStr "e1")]));
     ECallback 13 (Ok (VObj [("queue", VStr "q1")]));
     ANewMessage (VStr "hello") ∅]
    asserting.

(** [q1.startConsumer(f, o)] is confirmed by the broker: the consumer promise
    is 15, deliveries arrive at callback 16. *)
Definition consuming (f : consumer_fn) (o : props) : State :=
  run (H := Json.codec)
    [AStartConsumer 4 f o; ERunTask;
     ECallback 17 (Ok (VObj [("consumerTag", VStr "ctag-1")]))]
    ready.

(** [q1.stopConsumer()] is confirmed by the broker (callback 19). *)
Definition stopped : State :=
  run (H := Json.codec) [AStopConsumer 4; ERunTask; ECallback 19 (Ok VNull)]
    (consuming echo ∅).

(** The objects of [ready]. *)
Definition e1_object : Exchange.t :=
  {| Exchange.initialized := Some 3%nat; Exchange._connection := Some this_connection;
     Exchange._channel := Some 10%nat; Exchange._name := "e1";
     Exchange._type := Some "direct"; Exchange._options := None |}.

Definition q1_object : Queue.t :=
  {| Queue.initialized := Some 5%nat; Queue._connection := Some this_connection;
     Queue._channel := Some 12%nat; Queue._name := "q1"; Queue._options := None;
     Queue._consumer := None; Queue._isStartConsumer := false;
     Queue._rawConsumer := false; Queue._consumerOptions := None;
     Queue._consumerTag := None; Queue._consumerInitialized := None |}.

(** The queue of [consuming f ∅]. *)
Definition q1_consumer (f : consumer_fn) : Queue.t :=
  {| Queue.initialized := Some 5%nat; Queue._connection := Some this_connection;
     Queue._channel := Some 12%nat; Queue._name := "q1"; Queue._options := None;
     Queue._consumer := Some f; Queue._isStartConsumer := true;
     Queue._rawConsumer := false; Queue._consumerOptions := Some ∅;
     Queue._consumerTag := Some (VStr "ctag-1");
     Queue._consumerInitialized := Some 15%nat |}.

(** The queue of [stopped]. *)
Definition q1_stopped : Queue.t :=
  {| Queue.initialized := Some 5%nat; Queue._connection := Some this_connection;
     Queue._channel := Some 12%nat; Queue._name := "q1"; Queue._options := None;
     Queue._consumer := None; Queue._isStartConsumer := true;
     Queue._rawConsumer := false; Queue._consumerOptions := None;
     Queue._consumerTag := Some (VStr "ctag-1");
     Queue._consumerInitialized := None |}.

(** The broker refused ["e1"]: its [initialized] is rejected. *)
Definition refused : State :=
  step (H := Json.codec) (ECallback 11 (Err "ACCESS_REFUSED")) asserting.


(** [q1.activateConsumer(f)] is confirmed by the broker. *)
Definition activated (f : consumer_fn) : State :=
  run (H := Json.codec)
    [AActivateConsumer 4 f ∅; ERunTask;
     ECallback 17 (Ok (VObj [("consumerTag", VStr "ctag-1")]))]
    ready.

Definition q1_activated (f : consumer_fn) : Queue.t :=
  {| Queue.initialized := Some 5%nat; Queue._connection := Some this_connection;
     Queue._channel := Some 12%nat; Queue._name := "q1"; Queue._options := None;
     Queue._consumer := Some f; Queue._isStartConsumer := false;
     Queue._rawConsumer := false; Queue._consumerOptions := Some ∅;
     Queue._consumerTag := Some (VStr "ctag-1");
     Queue._consumerInitialized := Some 15%nat |}.

(** [q1.bind(e1)] was sent to the broker: the binding is object 15, its
    promise is 16, the answer is awaited by callback 17. *)
Definition binding : State :=
  run (H := Json.codec) [ABind (EP_Queue 4) 2 "" ∅; ERunTask] ready.

Definition b1_object : Binding.t :=
  {| Binding.initialized := Some 16%nat; Binding._source := 2%nat;
     Binding._destination := EP_Queue 4; Binding._pattern := ""; Binding._args := ∅ |}.

(** The exchange of [e1_ready], the only object of that connection. *)
Definition e1_alone : Exchange.t :=
  {| Exchange.initialized := Some 3%nat; Exchange._connection := Some this_connection;
     Exchange._channel := Some 7%nat; Exchange._name := "e1";
     Exchange._type := Some "direct"; Exchange._options := None |}.

(** ["hi"] is published to ["e1"] and the channel goes away before the
    event loop runs. *)
Definition broken : State :=
  run (H := Json.codec) [AExchangePublish 2 (VStr "hi") "rk" ∅; EChannelStale 7] e1_ready.

(** A connection with the queue ["q1"] (object 2, channel 7) alone, and a
    consumer on it (promise 9). *)
Definition q1_alone_consuming : State :=
  run (H := Json.codec)
    [ADeclareQueue "q1" None; ECallback 1 (Ok VNull); ERunTask; ECallback 6 (Ok VNull);
     ECallback 8 (Ok (VObj [("queue", VStr "q1")]));
     AStartConsumer 2 echo ∅; ERunTask;
     ECallback 11 (Ok (VObj [("consumerTag", VStr "ctag-1")]))]
    fresh_connection.

Definition q1_alone : Queue.t :=
  {| Queue.initialized := Some 3%nat; Queue._connection := Some this_connection;
     Queue._channel := Some 7%nat; Queue._name := "q1"; Queue._options := None;
     Queue._consumer := Some echo; Queue._isStartConsumer := true;
     Queue._rawConsumer := false; Queue._consumerOptions := Some ∅;
     Queue._consumerTag := Some (VStr "ctag-1");
     Queue._consumerInitialized := Some 9%nat |}.

(** ** Content encoding (claims C5, C6) *)

Lemma in_range_spec (lo hi : N) (b : byte) :
  in_range lo hi b = true ↔ (lo ≤ Byte.to_N b ∧ Byte.to_N b ≤ hi)%N.
Proof.
  unfold in_range. rewrite andb_true_iff, !N.leb_le. reflexivity.
Qed.

Lemma encode_utf8_step (b : byte) (t : list byte) :
  (Byte.to_N b ≠ 237)%N → encode_utf8 (b :: t) = b :: encode_utf8 t.
Proof.
  intros Hb. cbn [encode_utf8]. destruct t as [| b2 [| b3 t3]]; try done.
  by rewrite (proj2 (N.eqb_neq _ _) Hb).
Qed.

Lemma encode_utf8_lead (b b2 : byte) (t : list byte) :
  in_range 160 191 b2 = false → encode_utf8 (b :: b2 :: t) = b :: encode_utf8 (b2 :: t).
Proof.
  intros Hb. cbn [encode_utf8]. destruct t as [| b3 t3]; try done.
  by rewrite Hb, andb_false_r.
Qed.

Lemma continuation_not_lead (b : byte) :
  continuation b = true → (Byte.to_N b ≠ 237)%N.
Proof. unfold continuation. rewrite in_range_spec. lia. Qed.

Lemma bounds_continuation (b1 b2 : byte) :
  in_range (lower b1) (upper b1) b2 = true →
  continuation b2 = true
  ∧ ((Byte.to_N b1 = 237)%N → in_range 160 191 b2 = false).
Proof.
  unfold continuation, lower, upper. rewrite in_range_spec. intros [Hlo Hhi].
  split.
  - apply in_range_spec.
    repeat match goal with
           | H : context [(?a =? ?b)%N] |- _ => destruct (N.eqb_spec a b)
           end; lia.
  - intros Hb. rewrite Hb in Hhi, Hlo. cbn in Hhi.
    destruct (in_range 160 191 b2) eqn:Hr; [| done].
    apply in_range_spec in Hr. lia.
Qed.

Lemma encode_utf8_second (b1 b2 : byte) (t : list byte) :
  in_range (lower b1) (upper b1) b2 = true →
  encode_utf8 (b1 :: b2 :: t) = b1 :: b2 :: encode_utf8 t.
Proof.
  intros Hb. destruct (bounds_continuation _ _ Hb) as [Hc Hs].
  destruct (N.eq_dec (Byte.to_N b1) 237%N) as [H1 | H1].
  - rewrite encode_utf8_lead by auto.
    by rewrite encode_utf8_step by by apply continuation_not_lead.
  - rewrite encode_utf8_step by done.
    by rewrite encode_utf8_step by by apply continuation_not_lead.
Qed.

(** Well-formed UTF-8 is left as it is by the encoder and by the decoder. *)
Lemma utf8_stable (l : list byte) :
  is_utf8 l = true → decode_utf8 None l = l ∧ encode_utf8 l = l.
Proof.
  remember (length l) as n eqn:Hn. revert l Hn.
  induction n as [n IH] using lt_wf_ind. intros l -> Hv.
  assert (IH' : ∀ t, (length t < length l)%nat → is_utf8 t = true →
                     decode_utf8 None t = t ∧ encode_utf8 t = t).
  { intros t Hlt Ht. by apply (IH (length t)). }
  clear IH.
  destruct l as [| b1 t1]; [done |].
  cbn [is_utf8] in Hv. cbn [decode_utf8]. unfold lead.
  destruct (in_range 0 127 b1) eqn:H1.
  { destruct (IH' t1) as [Hd He]; [simpl; lia | done |].
    cbn [fst snd app]. rewrite Hd. split; [done |].
    rewrite encode_utf8_step, He; [done |]. apply in_range_spec in H1. lia. }
  destruct t1 as [| b2 t2]; [done |].
  destruct (in_range 194 223 b1) eqn:H2.
  { apply andb_true_iff in Hv as [Hc Hv].
    destruct (IH' t2) as [Hd He]; [simpl; lia | done |].
    cbn [fst snd app decode_utf8 bounds needed seen].
    unfold continuation in Hc. rewrite Hc. cbn [app]. rewrite Hd. split; [done |].
    rewrite encode_utf8_step by (apply in_range_spec in H2; lia).
    rewrite encode_utf8_step by (by apply continuation_not_lead).
    by rewrite He. }
  destruct t2 as [| b3 t3]; [done |].
  destruct (in_range 224 239 b1) eqn:H3.
  { apply andb_true_iff in Hv as [Hv Hv3]. apply andb_true_iff in Hv as [Hb2 Hb3].
    destruct (IH' t3) as [Hd He]; [simpl; lia | done |].
    cbn [fst snd app decode_utf8 bounds needed seen].
    rewrite Hb2. cbn [decode_utf8 bounds needed seen fst snd].
    unfold continuation in Hb3. rewrite Hb3. cbn [app]. rewrite Hd. split; [done |].
    rewrite encode_utf8_second by done.
    rewrite encode_utf8_step by (by apply continuation_not_lead).
    by rewrite He. }
  destruct t3 as [| b4 t4]; [done |].
  apply andb_true_iff in Hv as [Hv Hv4]. apply andb_true_iff in Hv as [Hv Hb4].
  apply andb_true_iff in Hv as [Hv Hb3]. apply andb_true_iff in Hv as [H4 Hb2].
  destruct (IH' t4) as [Hd He]; [simpl; lia | done |].
  rewrite H4. cbn [fst snd app decode_utf8 bounds needed seen].
  rewrite Hb2. cbn [decode_utf8 bounds needed seen fst snd].
  unfold continuation in Hb3, Hb4. rewrite Hb3. cbn [decode_utf8 bounds needed seen fst snd].
  rewrite Hb4. cbn [app]. rewrite Hd. split; [done |].
  rewrite encode_utf8_second by done.
  rewrite encode_utf8_step by (by apply continuation_not_lead).
  rewrite encode_utf8_step by (by apply continuation_not_lead).
  by rewrite He.
Qed.

Lemma toString_utf8_bytes (s : string) :
  well_formed s → Buffer_toString (utf8_bytes s) = s.
Proof.
  intros Hs. unfold Buffer_toString, utf8_bytes.
  destruct (utf8_stable _ Hs) as [Hd He]. rewrite He, Hd.
  apply String.string_of_list_byte_of_string.
Qed.

Lemma get_prop_insert (o : props) (k : string) (v : jsval) :
  get_prop (<[k := v]> o) k = v.
Proof. unfold get_prop. by rewrite lookup_insert_eq. Qed.

Lemma get_prop_None (o : props) (k : string) :
  o !! k = None → get_prop o k = VUndefined.
Proof. unfold get_prop. by intros ->. Qed.

Lemma truthy_lookup (o : props) (k : string) :
  truthy (get_prop o k) = true → o !! k = Some (get_prop o k).
Proof. unfold get_prop. by destruct (o !! k). Qed.

Section Encoding.
Context `{JSON}.

Lemma decode_text (b : list byte) (o : props) :
  strict_eq_str (get_prop o "contentType") application_json = false →
  decode b o = Ret (VStr (Buffer_toString b)).
Proof. unfold decode. by intros ->. Qed.

Lemma decode_json (s : string) (o : props) (v : jsval) :
  well_formed s →
  get_prop o "contentType" = VStr application_json →
  JSON_parse s = Some v →
  decode (utf8_bytes s) o = Ret v.
Proof.
  intros Hs Hct Hp. unfold decode. rewrite Hct, toString_utf8_bytes, Hp by done.
  unfold strict_eq_str. by rewrite bool_decide_true.
Qed.

(** C5 (as amended): on each of the three encoding paths a string becomes its
    UTF-8 bytes and a [Buffer] passes through, both with the properties left
    as they are; any other value becomes the bytes of its JSON text, and the
    content type is ["application/json"] when the caller supplied none;
    [Exchange.publish] keeps a content type the caller supplied, provided it is
    truthy. *)
Theorem content_encoding_rules :
  (∀ s m o,
      Message_setContent (VStr s) m = Ret (Message.with_content m (utf8_bytes s))
      ∧ Message.properties (Message.with_content m (utf8_bytes s)) = Message.properties m
      ∧ Queue__packMessageContent (VStr s) o = Ret (utf8_bytes s, o)
      ∧ Exchange_publish_normalize (VStr s) o = Ret (utf8_bytes s, o))
  ∧ (∀ b m o,
      Message_setContent (VBuf b) m = Ret (Message.with_content m b)
      ∧ Message.properties (Message.with_content m b) = Message.properties m
      ∧ Queue__packMessageContent (VBuf b) o = Ret (b, o)
      ∧ Exchange_publish_normalize (VBuf b) o = Ret (b, o))
  ∧ (∀ v s m o,
      other v → JSON_stringify v = Some s →
      (∃ m', Message_setContent v m = Ret m'
             ∧ Message.content m' = Some (utf8_bytes s)
             ∧ (Message.properties m !! "contentType" = None →
                Message.properties m'
                = <["contentType" := VStr application_json]> (Message.properties m)))
      ∧ (∃ o', Queue__packMessageContent v o = Ret (utf8_bytes s, o')
               ∧ (o !! "contentType" = None →
                  o' = <["contentType" := VStr application_json]> o))
      ∧ (∃ o', Exchange_publish_normalize v o = Ret (utf8_bytes s, o')
               ∧ (o !! "contentType" = None →
                  o' = <["contentType" := VStr application_json]> o)
               ∧ (truthy (get_prop o "contentType") = true → o' = o))).
Proof.
  split; [done | split; [done |]].
  intros v s m o Hv Hs.
  assert (Hset : Message_setContent v m
                 = Ret (Message.with_properties (Message.with_content m (utf8_bytes s))
                          (<["contentType" := VStr application_json]> (Message.properties m)))).
  { destruct v; try done; unfold Message_setContent; by rewrite Hs. }
  assert (Hpack : Queue__packMessageContent v o
                  = Ret (utf8_bytes s, <["contentType" := VStr application_json]> o)).
  { destruct v; try done; unfold Queue__packMessageContent; by rewrite Hs. }
  assert (Hpub : Exchange_publish_normalize v o
                 = Ret (utf8_bytes s,
                        <["contentType" := if truthy (get_prop o "contentType")
                                           then get_prop o "contentType"
                                           else VStr application_json]> o)).
  { destruct v; try done; unfold Exchange_publish_normalize; by rewrite Hs. }
  split; [| split].
  - eexists. split; [exact Hset |]. done.
  - eexists. split; [exact Hpack |]. done.
  - eexists. split; [exact Hpub |]. split.
    + intros Hn. by rewrite (get_prop_None _ _ Hn).
    + intros Ht. rewrite Ht. by apply insert_id, truthy_lookup.
Qed.

(** C6 (as amended): decoding what was encoded gives the payload back. A
    string in which every surrogate has its partner, sent with no content
    type set, is stored as its UTF-8 bytes and read back as the string; a
    value that is neither a string nor a [Buffer], whose JSON text parses
    back to it and has no surrogate without a partner, is read back equal to
    itself, with content type ["application/json"]; a [Buffer] is stored as
    it is. The same holds from [Queue._packMessageContent] to
    [Queue._unpackMessageContent]. *)
Theorem encode_decode_roundtrip :
  (∀ s m,
      well_formed s →
      Message.properties m !! "contentType" = None →
      ∃ m', Message_setContent (VStr s) m = Ret m'
            ∧ Message.content m' = Some (utf8_bytes s)
            ∧ Message_getContent m' = Ret (VStr s))
  ∧ (∀ s o f,
      well_formed s →
      o !! "contentType" = None →
      ∃ o', Queue__packMessageContent (VStr s) o = Ret (utf8_bytes s, o')
            ∧ Queue__unpackMessageContent
                {| d_content := utf8_bytes s; d_fields := f; d_properties := o' |}
              = Ret (VStr s))
  ∧ (∀ v m,
      other v → JSON_serializable v → (∀ s, JSON_stringify v = Some s → well_formed s) →
      ∃ m', Message_setContent v m = Ret m'
            ∧ Message_getContent m' = Ret v
            ∧ get_prop (Message.properties m') "contentType" = VStr application_json)
  ∧ (∀ v o f,
      other v → JSON_serializable v → (∀ s, JSON_stringify v = Some s → well_formed s) →
      ∃ b o', Queue__packMessageContent v o = Ret (b, o')
              ∧ Queue__unpackMessageContent
                  {| d_content := b; d_fields := f; d_properties := o' |} = Ret v
              ∧ get_prop o' "contentType" = VStr application_json)
  ∧ (∀ b m o,
      (∃ m', Message_setContent (VBuf b) m = Ret m' ∧ Message.content m' = Some b)
      ∧ Queue__packMessageContent (VBuf b) o = Ret (b, o)).
Proof.
  split; [| split; [| split; [| split]]].
  - intros s m Hs Hn. eexists. split; [reflexivity |]. split; [done |].
    unfold Message_getContent. simpl. rewrite decode_text.
    + by rewrite toString_utf8_bytes.
    + by rewrite (get_prop_None _ _ Hn).
  - intros s o f Hs Hn. eexists. split; [reflexivity |].
    unfold Queue__unpackMessageContent. simpl. rewrite decode_text.
    + by rewrite toString_utf8_bytes.
    + by rewrite (get_prop_None _ _ Hn).
  - intros v m Hv (s & Hs & Hp) Hwf. specialize (Hwf s Hs).
    destruct content_encoding_rules as (_ & _ & Hother).
    destruct (Hother v s m ∅ Hv Hs) as ((m' & Hset & Hc & _) & _).
    assert (Hprops : get_prop (Message.properties m') "contentType" = VStr application_json).
    { destruct v; try done; unfold Message_setContent in Hset; rewrite Hs in Hset;
        simpl in Hset; injection Hset as <-; apply get_prop_insert. }
    exists m'. split; [done |]. split; [| done].
    unfold Message_getContent. rewrite Hc. by apply decode_json.
  - intros v o f Hv (s & Hs & Hp) Hwf. specialize (Hwf s Hs).
    exists (utf8_bytes s), (<["contentType" := VStr application_json]> o).
    split; [| split].
    + destruct v; try done; unfold Queue__packMessageContent; by rewrite Hs.
    + unfold Queue__unpackMessageContent. simpl. apply decode_json; [done | | done].
      apply get_prop_insert.
    + apply get_prop_insert.
  - intros b m o. split; [eexists; split; reflexivity | reflexivity].
Qed.

End Encoding.

(** C5, as the claim states it, fails: a content type supplied by the caller
    is overwritten by [Message.setContent] and by [Queue._packMessageContent],
    and an empty one is replaced by [Exchange.publish]. *)
Lemma caller_contentType_not_preserved :
  get_prop (Message.properties typed_message) "contentType" = VStr "text/plain"
  ∧ (∃ m', Message_setContent (H := Json.codec) sample_object typed_message = Ret m'
           ∧ get_prop (Message.properties m') "contentType" = VStr "application/json")
  ∧ (∃ b o', Queue__packMessageContent (H := Json.codec) sample_object
               {["contentType" := VStr "text/plain"]} = Ret (b, o')
             ∧ get_prop o' "contentType" = VStr "application/json")
  ∧ (∃ b o', Exchange_publish_normalize (H := Json.codec) sample_object
               {["contentType" := VStr EmptyString]} = Ret (b, o')
             ∧ get_prop o' "contentType" = VStr "application/json").
Proof.
  split; [vm_compute; reflexivity |]. split; [| split].
  - exists (Message.with_properties
              (Message.with_content typed_message (utf8_bytes sample_text))
              (<["contentType" := VStr application_json]> (Message.properties typed_message))).
    split; vm_compute; reflexivity.
  - exists (utf8_bytes sample_text),
      (<["contentType" := VStr application_json]> {["contentType" := VStr "text/plain"]}).
    split; vm_compute; reflexivity.
  - exists (utf8_bytes sample_text),
      (<["contentType" := VStr application_json]> {["contentType" := VStr EmptyString]}).
    split; vm_compute; reflexivity.
Qed.

Lemma sample_text_printed : Json.print sample_object = Some sample_text.
Proof. vm_compute. reflexivity. Qed.

Lemma sample_text_parsed : Json.parse sample_text = Some sample_object.
Proof. vm_compute. reflexivity. Qed.

Lemma sample_object_serializable : JSON_serializable (H := Json.codec) sample_object.
Proof. exists sample_text. split; [exact sample_text_printed | exact sample_text_parsed]. Qed.

(** The amended rules at [{a: 1, b: [2, 3]}] sent with no options. *)
Lemma content_encoding_rules_witness :
  other sample_object
  ∧ JSON_stringify (JSON := Json.codec) sample_object = Some sample_text
  ∧ (∃ o', Exchange_publish_normalize (H := Json.codec) sample_object ∅
           = Ret (utf8_bytes sample_text, o')
           ∧ o' = {["contentType" := VStr application_json]}).
Proof.
  split; [exact I |]. split; [exact sample_text_printed |].
  destruct (content_encoding_rules (H := Json.codec)) as (_ & _ & Hother).
  destruct (Hother sample_object sample_text empty_message ∅ I sample_text_printed)
    as (_ & _ & (o' & Hpub & Hdefault & _)).
  exists o'. split; [exact Hpub |]. by apply Hdefault.
Defined.

Lemma sample_text_well_formed : well_formed sample_text.
Proof. vm_compute. reflexivity. Qed.

(** The round trip of [{a: 1, b: [2, 3]}]. *)
Lemma encode_decode_roundtrip_witness :
  ∃ m', Message_setContent (H := Json.codec) sample_object empty_message = Ret m'
        ∧ Message_getContent (H := Json.codec) m' = Ret sample_object
        ∧ get_prop (Message.properties m') "contentType" = VStr application_json.
Proof.
  destruct (encode_decode_roundtrip (H := Json.codec)) as (_ & _ & Hjson & _).
  apply (Hjson sample_object empty_message I sample_object_serializable).
  intros s Hs. change (Json.print sample_object = Some s) in Hs.
  rewrite sample_text_printed in Hs. injection Hs as <-.
  exact sample_text_well_formed.
Defined.

(** C6, as the claim states it, fails: a string is not read back when it has
    a surrogate without a partner. ["\uD800"], sent with no content type set,
    is stored as the bytes of U+FFFD and read back as ["\uFFFD"], by
    [Message.setContent] and [getContent] and by [Queue._packMessageContent]
    and [_unpackMessageContent] alike. *)
Lemma lone_surrogate_not_restored :
  Message.properties empty_message !! "contentType" = None
  ∧ (∃ m', Message_setContent (H := Json.codec) (VStr lone_surrogate) empty_message = Ret m'
           ∧ Message.content m' = Some (utf8_bytes lone_surrogate)
           ∧ utf8_bytes lone_surrogate = replacement
           ∧ Message_getContent (H := Json.codec) m' = Ret (VStr replacement_character))
  ∧ (∃ b o', Queue__packMessageContent (H := Json.codec) (VStr lone_surrogate) ∅ = Ret (b, o')
             ∧ Queue__unpackMessageContent (H := Json.codec)
                 {| d_content := b; d_fields := ∅; d_properties := o' |}
               = Ret (VStr replacement_character))
  ∧ VStr replacement_character ≠ VStr lone_surrogate.
Proof.
  split; [reflexivity |]. split; [| split].
  - exists (Message.with_content empty_message (utf8_bytes lone_surrogate)).
    repeat split; vm_compute; reflexivity.
  - exists (utf8_bytes lone_surrogate), ∅. split; vm_compute; reflexivity.
  - vm_compute. discriminate.
Qed.

(** ** Messages without a channel (claim C10) *)

Section Messages.
Context `{JSON}.

Lemma Message_setContent_channel (c : jsval) (m m' : Message.t) :
  Message_setContent c m = Ret m' → Message._channel m' = Message._channel m.
Proof.
  unfold Message_setContent, new_Buffer.
  destruct c; try destruct (JSON_stringify _); simpl; intros [= <-]; done.
Qed.

(** A message made by [new Message(...)] carries no channel. *)
Lemma local_message_no_channel (c : jsval) (o : props) (m : Message.t) :
  local_message c o m → Message._channel m = None.
Proof.
  unfold local_message, Message_new. intros Hm.
  destruct c; try (by injection Hm as <-);
    by rewrite (Message_setContent_channel _ _ _ Hm).
Qed.

(** C10: on a message that carries no channel, [ack], [nack] and [reject]
    do nothing: no call on any channel, no exception, no change of state. *)
Theorem ack_without_channel_is_noop (st : State) (m : ref) (msg : Message.t) (v : jsval) :
  messages st !! m = Some msg →
  Message._channel msg = None →
  Message_ack m v st = (Ret tt, st)
  ∧ Message_nack m v st = (Ret tt, st)
  ∧ Message_reject m v st = (Ret tt, st)
  ∧ step (AAck m v) st = st ∧ step (ANack m v) st = st ∧ step (AReject m v) st = st.
Proof.
  intros Hm Hc.
  unfold step, handle, Message_ack, Message_nack, Message_reject, deref, M_bind, gets, defined.
  rewrite Hm. simpl. rewrite Hc. done.
Qed.

End Messages.

Lemma ack_without_channel_is_noop_witness :
  (∃ msg, messages with_local_message !! 2%nat = Some msg ∧ Message._channel msg = None)
  ∧ step (H := Json.codec) (AAck 2%nat VUndefined) with_local_message = with_local_message
  ∧ calls (step (H := Json.codec) (ANack 2%nat (VBool true)) with_local_message)
    = calls with_local_message.
Proof.
  assert (Hm : messages with_local_message !! 2%nat
               = Some (Message.with_content empty_message (utf8_bytes "hello")))
    by (vm_compute; reflexivity).
  split; [eexists; split; [exact Hm | reflexivity] |].
  split.
  - apply (ack_without_channel_is_noop (H := Json.codec) _ _ _ VUndefined Hm eq_refl).
  - destruct (ack_without_channel_is_noop (H := Json.codec) _ _ _ (VBool true) Hm eq_refl)
      as (_ & _ & _ & _ & -> & _). reflexivity.
Defined.

(** ** Running a computation on a state *)

(** Unfold the plumbing of a computation, then read the fields of the states
    it builds. *)
Ltac munfold :=
  cbv beta iota zeta delta
    [M_bind M_ret M_throw modify gets lift try_catch defined deref fresh log call
     register unregister update_conn update_exchange update_queue update_binding
     schedule report once_err once_res on_msg check_channel chan_call chan_call_cb exec
     connection_of].

Ltac fields :=
  cbn [conn exchanges queues bindings messages cells promises joins tasks callbacks
       stale next calls logs unhandled
       upd_conn upd_exchanges upd_queues upd_bindings upd_messages upd_cells
       upd_promises upd_joins upd_tasks upd_callbacks upd_stale upd_next upd_calls
       upd_logs upd_unhandled fst snd].

Ltac msimpl := repeat progress (munfold; fields).

(** ** What the functions of the facade keep *)

Lemma persists_refl (st : State) : persists st st.
Proof. split; eauto. Qed.

Lemma persists_trans (s1 s2 s3 : State) : persists s1 s2 → persists s2 s3 → persists s1 s3.
Proof.
  intros [E12 Q12] [E23 Q23]. split.
  - intros e E HE. destruct (E12 e E HE) as (E2 & HE2 & <-). apply (E23 e E2 HE2).
  - intros q Q HQ. destruct (Q12 q Q HQ) as (Q2 & HQ2 & <-). apply (Q23 q Q2 HQ2).
Qed.

(** A state with the same exchanges and queues. *)
Lemma persists_same (st st' : State) :
  exchanges st' = exchanges st → queues st' = queues st → persists st st'.
Proof. intros He Hq. unfold persists. rewrite He, Hq. apply persists_refl. Qed.

Lemma keeps_refl (st : State) : keeps st st.
Proof.
  split; [| split; [| split; [| split]]];
    [intros W; split; [done | lia] | done | by intros | by intros |].
  intros _. apply persists_refl.
Qed.

Lemma keeps_trans (s1 s2 s3 : State) : keeps s1 s2 → keeps s2 s3 → keeps s1 s3.
Proof.
  intros (H12 & G12 & L12 & N12 & P12) (H23 & G23 & L23 & N23 & P23).
  split; [| split; [| split; [| split]]].
  - intros W1. destruct (H12 W1) as [W2 E12]. destruct (H23 W2) as [W3 E23].
    split; [done | lia].
  - intros G1. destruct (G12 G1) as [G2 I2]. destruct (G23 G2) as [G3 I3].
    split; [done | congruence].
  - intros W1 E1 K1. destruct (H12 W1) as [W2 E12]. apply L23; [done | lia | auto].
  - intros W1 M1. destruct (H12 W1) as [W2 _]. auto.
  - intros W1. destruct (H12 W1) as [W2 _]. eapply persists_trans; eauto.
Qed.

Lemma keeps_named (st st' : State) : keeps st st' → wf st → named st → named st'.
Proof. intros (_ & _ & _ & Hn & _). exact Hn. Qed.

Lemma keeps_serialized (st st' : State) : keeps st st' → serialized st → serialized st'.
Proof.
  intros (Hk & _ & Hl & _) (W & Hs & K). destruct (Hk W) as [W' E].
  split; [done | split; [lia | auto]].
Qed.

Lemma respects_ret {A} (a : A) : respects (M_ret a).
Proof. intros st. apply keeps_refl. Qed.

Lemma respects_throw {A} (e : error) : respects (M_throw (A := A) e).
Proof. intros st. apply keeps_refl. Qed.

Lemma respects_lift {A} (x : exn A) : respects (lift x).
Proof. intros st. apply keeps_refl. Qed.

Lemma respects_gets {A} (f : State → A) : respects (gets f).
Proof. intros st. apply keeps_refl. Qed.

Lemma respects_defined {A} (what : string) (o : option A) : respects (defined what o).
Proof. destruct o; intros st; apply keeps_refl. Qed.

Lemma respects_bind {A B} (m : M A) (k : A → M B) :
  respects m → (∀ a, respects (k a)) → respects (M_bind m k).
Proof.
  intros Hm Hk st. unfold M_bind. specialize (Hm st).
  destruct (m st) as [[a | e] st']; simpl in *; [| done].
  eapply keeps_trans; [exact Hm | apply Hk].
Qed.

Lemma respects_try_catch {A} (m : M A) (h : error → M A) :
  respects m → (∀ e, respects (h e)) → respects (try_catch m h).
Proof.
  intros Hm Hh st. unfold try_catch. specialize (Hm st).
  destruct (m st) as [[a | e] st']; simpl in *; [done |].
  eapply keeps_trans; [exact Hm | apply Hh].
Qed.

Lemma respects_for_each {A} (l : list A) (f : A → M unit) :
  (∀ x, respects (f x)) → respects (for_each l f).
Proof.
  intros Hf. induction l as [| x l IH]; simpl.
  - apply respects_ret.
  - apply respects_bind; [apply Hf | intros _; exact IH].
Qed.

Lemma respects_collect {A B} (l : list A) (f : A → M (list B)) :
  (∀ x, respects (f x)) → respects (collect l f).
Proof.
  intros Hf. induction l as [| x l IH]; simpl.
  - apply respects_ret.
  - apply respects_bind; [apply Hf | intros a].
    apply respects_bind; [exact IH | intros b; apply respects_ret].
Qed.

Lemma respects_modify (f : State → State) : harmless f → respects (modify f).
Proof.
  intros Hf st. destruct (Hf st) as (Hc & Hn & Hg & He & Hq).
  unfold modify; simpl. split; [| split; [| split; [| split]]].
  - intros (W1 & W2 & W3). split.
    + unfold wf. rewrite Hc, Hn, He, Hq. done.
    + unfold in_flight, guard. by rewrite Hc, Hg.
  - unfold guard. by rewrite Hg.
  - intros _ _ K. unfold linked. by rewrite Hc, Hg.
  - intros _ M. unfold named. by rewrite Hg, He, Hq.
  - intros _. by apply persists_same.
Qed.

Lemma wf_next (st st' : State) :
  wf st → callbacks st' = callbacks st → exchanges st' = exchanges st →
  queues st' = queues st → (next st ≤ next st')%nat → wf st'.
Proof.
  intros (W1 & W2 & W3) Hc He Hq Hn. unfold wf. rewrite Hc, He, Hq.
  repeat split; intros r Hr; [apply W1 in Hr | apply W2 in Hr | apply W3 in Hr]; lia.
Qed.

Lemma respects_fresh : respects fresh.
Proof.
  intros st. unfold fresh; simpl.
  split; [| split; [| split; [| split]]]; [| done | by intros | done |].
  - intros W. split; [| done]. apply (wf_next st); simpl; auto.
  - intros _. by apply persists_same.
Qed.

Lemma wf_fresh_callback (st : State) : wf st → callbacks st !! next st = None.
Proof.
  intros (W1 & _). apply not_elem_of_dom. intros Hin. apply W1 in Hin. lia.
Qed.

Lemma wf_insert_callback (st : State) (cb : callback) :
  wf st → wf (upd_callbacks <[next st := cb]> (upd_next S st)).
Proof.
  intros (W1 & W2 & W3). repeat split; simpl.
  - intros t. rewrite dom_insert_L, elem_of_union, elem_of_singleton.
    intros [-> | Hin]; [lia | apply W1 in Hin; lia].
  - intros r Hr. apply W2 in Hr. lia.
  - intros r Hr. apply W3 in Hr. lia.
Qed.

(** Handing over a function that is not a connect callback. *)
Lemma respects_register (cb : callback) : connecting cb = false → respects (register cb).
Proof.
  intros Hcb st. unfold register, M_bind, fresh, modify, M_ret; simpl.
  split; [| split; [| split; [| split]]]; [| done | | done | intros _; by apply persists_same].
  - intros W. pose proof (wf_fresh_callback st W) as Hnew.
    split; [by apply wf_insert_callback |].
    unfold in_flight in *; simpl. rewrite map_filter_insert_not'; [done | |].
    + simpl. by rewrite Hcb.
    + intros y Hy. by rewrite Hnew in Hy.
  - intros W _ K t cb'. simpl. rewrite lookup_insert.
    case_decide as Ht; [| apply K]. intros [= <-]. by rewrite Hcb.
Qed.

(** Taking back a function that is not a connect callback. *)
Lemma keeps_unregister (st : State) (t : token) (cb : callback) :
  callbacks st !! t = Some cb → connecting cb = false →
  keeps st (upd_callbacks (delete t) st).
Proof.
  intros Ht Hcb.
  split; [| split; [| split; [| split]]]; [| done | | done | intros _; by apply persists_same].
  - intros (W1 & W2 & W3). split.
    + repeat split; simpl; [| done | done].
      intros t'. rewrite dom_delete_L, elem_of_difference. intros [Hin _]. by apply W1.
    + unfold in_flight in *; simpl. rewrite map_filter_delete_not; [done |].
      intros y Hy. rewrite Ht in Hy. injection Hy as <-. simpl. by rewrite Hcb.
  - intros _ _ K t' cb'. simpl. rewrite lookup_delete_Some. intros [_ Hl].
    exact (K t' cb' Hl).
Qed.

Lemma respects_alloc_exchange (x : Exchange.t) : respects (alloc_exchange x).
Proof.
  intros st. unfold alloc_exchange, M_bind, fresh, modify, M_ret; simpl.
  assert (Hold : wf st → ∀ e E, exchanges st !! e = Some E →
                                <[next st := x]> (exchanges st) !! e = Some E).
  { intros (_ & W2 & _) e E HE. rewrite lookup_insert_ne; [done |]. intros <-.
    assert (Hin : next st ∈ dom (exchanges st)) by (apply elem_of_dom; eauto).
    apply W2 in Hin. lia. }
  split; [| split; [| split; [| split]]]; [| done | by intros | |].
  - intros (W1 & W2 & W3). split; [| done].
    repeat split; simpl.
    + intros r Hr. apply W1 in Hr. lia.
    + intros r. rewrite dom_insert_L, elem_of_union, elem_of_singleton.
      intros [-> | Hin]; [lia | apply W2 in Hin; lia].
    + intros r Hr. apply W3 in Hr. lia.
  - intros W [Me Mq]. split; [| done]. simpl.
    intros n e Hn. destruct (Me n e Hn) as (E & HE & Hname). exists E. split; [| done].
    by apply Hold.
  - intros W. split; simpl; [| eauto]. intros e E HE. exists E. split; [| done]. by apply Hold.
Qed.

Lemma respects_alloc_queue (x : Queue.t) : respects (alloc_queue x).
Proof.
  intros st. unfold alloc_queue, M_bind, fresh, modify, M_ret; simpl.
  assert (Hold : wf st → ∀ q Q, queues st !! q = Some Q →
                                <[next st := x]> (queues st) !! q = Some Q).
  { intros (_ & _ & W3) q Q HQ. rewrite lookup_insert_ne; [done |]. intros <-.
    assert (Hin : next st ∈ dom (queues st)) by (apply elem_of_dom; eauto).
    apply W3 in Hin. lia. }
  split; [| split; [| split; [| split]]]; [| done | by intros | |].
  - intros (W1 & W2 & W3). split; [| done].
    repeat split; simpl.
    + intros r Hr. apply W1 in Hr. lia.
    + intros r Hr. apply W2 in Hr. lia.
    + intros r. rewrite dom_insert_L, elem_of_union, elem_of_singleton.
      intros [-> | Hin]; [lia | apply W3 in Hin; lia].
  - intros W [Me Mq]. split; [done |]. simpl.
    intros n q Hn. destruct (Mq n q Hn) as (Q & HQ & Hname). exists Q. split; [| done].
    by apply Hold.
  - intros W. split; simpl; [eauto |]. intros q Q HQ. exists Q. split; [| done]. by apply Hold.
Qed.

(** A change of an exchange or of a queue that keeps its name. *)
Lemma respects_update_exchange (e : ref) (f : Exchange.t → Exchange.t) :
  (∀ x, Exchange._name (f x) = Exchange._name x) → respects (update_exchange e f).
Proof.
  intros Hf st. unfold update_exchange, modify; simpl.
  assert (Hold : ∀ e' E, exchanges st !! e' = Some E →
                         ∃ E', alter f e (exchanges st) !! e' = Some E'
                               ∧ Exchange._name E' = Exchange._name E).
  { intros e' E HE. rewrite lookup_alter. case_decide as Heq.
    - subst e'. rewrite HE. simpl. eauto.
    - eauto. }
  split; [| split; [| split; [| split]]]; [| done | by intros | |].
  - intros (W1 & W2 & W3). split; [| done].
    repeat split; simpl; [done | | done]. intros r. rewrite dom_alter_L. apply W2.
  - intros _ [Me Mq]. split; [| done]. simpl.
    intros n e' Hn. destruct (Me n e' Hn) as (E & HE & Hname).
    destruct (Hold e' E HE) as (E' & HE' & Hn'). exists E'. split; [done | congruence].
  - intros _. split; simpl; eauto.
Qed.

Lemma respects_update_queue (q : ref) (f : Queue.t → Queue.t) :
  (∀ x, Queue._name (f x) = Queue._name x) → respects (update_queue q f).
Proof.
  intros Hf st. unfold update_queue, modify; simpl.
  assert (Hold : ∀ q' Q, queues st !! q' = Some Q →
                         ∃ Q', alter f q (queues st) !! q' = Some Q'
                               ∧ Queue._name Q' = Queue._name Q).
  { intros q' Q HQ. rewrite lookup_alter. case_decide as Heq.
    - subst q'. rewrite HQ. simpl. eauto.
    - eauto. }
  split; [| split; [| split; [| split]]]; [| done | by intros | |].
  - intros (W1 & W2 & W3). split; [| done].
    repeat split; simpl; [done | done |]. intros r. rewrite dom_alter_L. apply W3.
  - intros _ [Me Mq]. split; [done |]. simpl.
    intros n q' Hn. destruct (Mq n q' Hn) as (Q & HQ & Hname).
    destruct (Hold q' Q HQ) as (Q' & HQ' & Hn'). exists Q'. split; [done | congruence].
  - intros _. split; simpl; eauto.
Qed.

(** A quiet change of the connection. *)
Lemma respects_update_conn (f : Connection.t → Connection.t) :
  quiet f → respects (update_conn f).
Proof.
  intros Hf st. destruct (Hf (conn st)) as (Hg & Hi & He & Hq).
  unfold update_conn, modify; simpl.
  split; [| split; [| split; [| split]]]; [| | | | intros _; by apply persists_same].
  - intros W. split; [by destruct W as (W1 & W2 & W3) |].
    unfold in_flight, guard; simpl. by rewrite Hg.
  - unfold guard; simpl. by rewrite Hg, Hi.
  - intros _ _ K t cb. simpl. rewrite Hi. apply K.
  - intros _ [Me Mq]. split; simpl.
    + intros n e Hn. apply Me. by apply (lookup_weaken _ _ _ _ Hn).
    + intros n q Hn. apply Mq. by apply (lookup_weaken _ _ _ _ Hn).
Qed.

Create HintDb respects discriminated.

#[local] Hint Resolve respects_ret respects_throw respects_lift respects_gets
  respects_defined respects_fresh respects_alloc_exchange respects_alloc_queue : respects.

(** Changes of one field that are harmless whatever is written. *)
Ltac harmless := intros ?; cbn; done.

(** Quiet changes: a field other than the guard, [initialized] and the two
    registries is written, or an entry of a registry is deleted. *)
Ltac quiet := intros ?; repeat split; try reflexivity; apply delete_subseteq.

Lemma harmless_logs f : harmless (upd_logs f).
Proof. harmless. Qed.
Lemma harmless_calls f : harmless (upd_calls f).
Proof. harmless. Qed.
Lemma harmless_tasks f : harmless (upd_tasks f).
Proof. harmless. Qed.
Lemma harmless_promises f : harmless (upd_promises f).
Proof. harmless. Qed.
Lemma harmless_joins f : harmless (upd_joins f).
Proof. harmless. Qed.
Lemma harmless_cells f : harmless (upd_cells f).
Proof. harmless. Qed.
Lemma harmless_messages f : harmless (upd_messages f).
Proof. harmless. Qed.
Lemma harmless_bindings f : harmless (upd_bindings f).
Proof. harmless. Qed.
Lemma harmless_stale f : harmless (upd_stale f).
Proof. harmless. Qed.
Lemma harmless_unhandled f : harmless (upd_unhandled f).
Proof. harmless. Qed.

#[local] Hint Resolve harmless_logs harmless_calls harmless_tasks harmless_promises
  harmless_joins harmless_cells harmless_messages harmless_bindings harmless_stale
  harmless_unhandled : respects.

(** One step of a proof that a function [respects] the invariant: follow the
    structure of the computation, and close the leaves with the lemmas of
    the functions it calls. *)
Ltac respects_step :=
  match goal with
  | |- respects (M_bind _ _) => apply respects_bind; [| intros ?]
  | |- respects (try_catch _ _) => apply respects_try_catch; [| intros ?]
  | |- respects (for_each _ _) => apply respects_for_each; intros ?
  | |- respects (collect _ _) => apply respects_collect; intros ?
  | |- respects (modify _) => apply respects_modify
  | |- respects (update_conn _) => apply respects_update_conn; quiet
  | |- respects (update_exchange _ _) => apply respects_update_exchange; intros ?; reflexivity
  | |- respects (update_queue _ _) => apply respects_update_queue; intros ?; reflexivity
  | |- respects (register _) => apply respects_register; reflexivity
  | |- respects (match ?x with _ => _ end) => destruct x
  | |- respects (let _ := _ in _) => cbv zeta
  | |- _ => solve [eauto with respects]
  end.

Ltac respects_auto := repeat respects_step.

Lemma respects_log lvl msg : respects (log lvl msg).
Proof. unfold log. respects_auto. Qed.
Lemma respects_call c : respects (call c).
Proof. unfold call. respects_auto. Qed.
Lemma respects_new_promise : respects new_promise.
Proof. unfold new_promise. respects_auto. Qed.
Lemma respects_schedule ts : respects (schedule ts).
Proof. unfold schedule. respects_auto. Qed.
Lemma respects_report es : respects (report es).
Proof. unfold report. respects_auto. Qed.
#[local] Hint Resolve respects_log respects_call respects_new_promise respects_schedule
  respects_report : respects.
Lemma respects_resolve p v : respects (resolve p v).
Proof. unfold resolve. respects_auto. Qed.
Lemma respects_reject p e : respects (reject p e).
Proof. unfold reject. respects_auto. Qed.
Lemma respects_then2 p r : respects (then2 p r).
Proof. unfold then2. respects_auto. Qed.
#[local] Hint Resolve respects_resolve respects_reject respects_then2 : respects.
Lemma respects_then p t : respects (then_ p t).
Proof. unfold then_. respects_auto. Qed.
Lemma respects_isFulfilled p : respects (isFulfilled p).
Proof. unfold isFulfilled. respects_auto. Qed.
#[local] Hint Resolve respects_then respects_isFulfilled : respects.
Lemma respects_new_Promise f : (∀ p, respects (f p)) → respects (new_Promise f).
Proof. intros Hf. unfold new_Promise. respects_auto. Qed.
Lemma respects_check_channel ch : respects (check_channel ch).
Proof. unfold check_channel. respects_auto. Qed.
#[local] Hint Resolve respects_check_channel : respects.
Lemma respects_chan_call ch c : respects (chan_call ch c).
Proof. unfold chan_call. respects_auto. Qed.
Lemma respects_chan_call_cb ch c cb : connecting cb = false → respects (chan_call_cb ch c cb).
Proof. intros Hcb. unfold chan_call_cb. respects_auto. by apply respects_register. Qed.
Lemma respects_deref {A} what (h : State → gmap ref A) r : respects (deref what h r).
Proof. unfold deref. respects_auto. Qed.
#[local] Hint Resolve respects_chan_call respects_deref : respects.

Ltac respects_more :=
  repeat first
    [ respects_step
    | match goal with
      | |- respects (new_Promise _) => apply respects_new_Promise; intros ?
      | |- respects (chan_call_cb _ _ _) => apply respects_chan_call_cb; reflexivity
      | |- respects (if ?b then _ else _) => destruct b
      end ].

Lemma respects_unit {A} (m : M A) : respects m → respects (m ;; M_ret tt).
Proof. intros Hm. respects_more. Qed.

Lemma respects_alloc_binding x : respects (alloc_binding x).
Proof. unfold alloc_binding. respects_more. Qed.
Lemma respects_alloc_message x : respects (alloc_message x).
Proof. unfold alloc_message. respects_more. Qed.
Lemma respects_update_binding b f : respects (update_binding b f).
Proof. unfold update_binding. respects_more. Qed.
Lemma respects_connection_of c : respects (connection_of c).
Proof. unfold connection_of. respects_more. Qed.
Lemma respects_endpoint_name d : respects (endpoint_name d).
Proof. unfold endpoint_name. respects_more. Qed.
Lemma respects_endpoint_initialized d : respects (endpoint_initialized d).
Proof. unfold endpoint_initialized. respects_more. Qed.
Lemma respects_endpoint_channel d : respects (endpoint_channel d).
Proof. unfold endpoint_channel. respects_more. Qed.
Lemma respects_endpoint_connection d : respects (endpoint_connection d).
Proof. unfold endpoint_connection. respects_more. Qed.
#[local] Hint Resolve respects_alloc_binding respects_alloc_message
  respects_update_binding respects_connection_of
  respects_endpoint_name respects_endpoint_initialized respects_endpoint_channel
  respects_endpoint_connection : respects.

Lemma respects_Binding_id d s p : respects (Binding_id d s p).
Proof. unfold Binding_id. respects_more. Qed.
#[local] Hint Resolve respects_Binding_id : respects.
Lemma respects_Binding_unregister b : respects (Binding_unregister b).
Proof. unfold Binding_unregister. respects_more. Qed.
Lemma respects_Binding__initialize b : respects (Binding__initialize b).
Proof. unfold Binding__initialize. respects_more. Qed.
Lemma respects_run_TBindingInit b p : respects (run_TBindingInit b p).
Proof. unfold run_TBindingInit. respects_more. Qed.
#[local] Hint Resolve respects_Binding_unregister respects_Binding__initialize
  respects_run_TBindingInit : respects.
Lemma respects_on_CbBind b p err : respects (on_CbBind b p err).
Proof. unfold on_CbBind. respects_more. Qed.
Lemma respects_Binding_new d s p a : respects (Binding_new d s p a).
Proof. unfold Binding_new. respects_more. Qed.
Lemma respects_Binding_delete b : respects (Binding_delete b).
Proof. unfold Binding_delete. respects_more. Qed.
Lemma respects_run_TBindingDelete b p : respects (run_TBindingDelete b p).
Proof. unfold run_TBindingDelete. respects_more. Qed.
Lemma respects_on_CbUnbind b p err : respects (on_CbUnbind b p err).
Proof. unfold on_CbUnbind. respects_more. Qed.
Lemma respects_run_TAllPart j : respects (run_TAllPart j).
Proof. unfold run_TAllPart. respects_more. Qed.
#[local] Hint Resolve respects_on_CbBind respects_Binding_new respects_Binding_delete
  respects_run_TBindingDelete respects_on_CbUnbind respects_run_TAllPart : respects.
Lemma respects_Promise_all ps : respects (Promise_all ps).
Proof. unfold Promise_all. respects_more. Qed.
#[local] Hint Resolve respects_Promise_all : respects.
Lemma respects_removeBindingsContaining d : respects (Binding_removeBindingsContaining d).
Proof. unfold Binding_removeBindingsContaining. respects_more. Qed.
#[local] Hint Resolve respects_removeBindingsContaining : respects.

Lemma deref_eq {A} (what : string) (h : State → gmap ref A) (r : ref) (st : State) :
  deref what h r st = match h st !! r with
                      | Some x => (Ret x, st)
                      | None => (Throw ("TypeError: " +:+ what +:+ " is undefined"), st)
                      end.
Proof. unfold deref, M_bind, gets, defined. by destruct (h st !! r). Qed.

(** Registering an object of the heap under its name. *)
Lemma keeps_register_exchange (st0 st : State) (e : ref) (n : string) :
  keeps st0 st →
  (wf st0 → ∃ E, exchanges st !! e = Some E ∧ Exchange._name E = n) →
  keeps st0 (upd_conn (λ c, Connection.with__exchanges
                              (<[n := e]> (Connection._exchanges c)) c) st).
Proof.
  intros (Hw & Hg & Hl & Hn & Hp) He.
  split; [| split; [| split; [| split]]].
  - intros W. destruct (Hw W) as [(W1 & W2 & W3) Hb]. by split.
  - exact Hg.
  - intros W Hb K. exact (Hl W Hb K).
  - intros W M. destruct (Hn W M) as [Me Mq]. split; [| exact Mq]. simpl.
    intros n' e'. rewrite lookup_insert. case_decide as Heq.
    + intros [= <-]. subst n'. by apply He.
    + apply Me.
  - exact Hp.
Qed.

Lemma keeps_register_queue (st0 st : State) (q : ref) (n : string) :
  keeps st0 st →
  (wf st0 → ∃ Q, queues st !! q = Some Q ∧ Queue._name Q = n) →
  keeps st0 (upd_conn (λ c, Connection.with__queues
                              (<[n := q]> (Connection._queues c)) c) st).
Proof.
  intros (Hw & Hg & Hl & Hn & Hp) Hq.
  split; [| split; [| split; [| split]]].
  - intros W. destruct (Hw W) as [(W1 & W2 & W3) Hb]. by split.
  - exact Hg.
  - intros W Hb K. exact (Hl W Hb K).
  - intros W M. destruct (Hn W M) as [Me Mq]. split; [exact Me |]. simpl.
    intros n' q'. rewrite lookup_insert. case_decide as Heq.
    + intros [= <-]. subst n'. by apply Hq.
    + apply Mq.
  - exact Hp.
Qed.

Lemma respects_Exchange__initialize e : respects (Exchange__initialize e).
Proof.
  intros st. unfold Exchange__initialize, M_bind at 1. rewrite deref_eq.
  destruct (exchanges st !! e) as [E |] eqn:HE; [| apply keeps_refl].
  assert (Hpre : respects (
    let* p := new_Promise (λ p,
      let* c := connection_of (Exchange._connection E) in
      let* i := defined "initialized" (Connection.initialized c) in
      then_ i (TExchangeInit e p)) in
    update_exchange e (Exchange.with_initialized (Some p)) ;;
    connection_of (Exchange._connection E))) by respects_more.
  specialize (Hpre st). revert Hpre. unfold M_bind.
  destruct (new_Promise _ st) as [[p | err] st1]; [| done]. simpl.
  destruct (connection_of _ _) as [[c | err] st2] eqn:Hc; [| done]. simpl.
  intros Hk. unfold update_conn, modify. simpl.
  apply keeps_register_exchange; [exact Hk |].
  intros W. destruct Hk as (_ & _ & _ & _ & Hp). destruct (Hp W) as [Hpe _].
  by apply Hpe.
Qed.
Lemma respects_run_TExchangeInit e p : respects (run_TExchangeInit e p).
Proof. unfold run_TExchangeInit. respects_more. Qed.
Lemma respects_on_CbExchangeChannel e p err : respects (on_CbExchangeChannel e p err).
Proof. unfold on_CbExchangeChannel. respects_more. Qed.
Lemma respects_on_CbExchangeAssert e p res : respects (on_CbExchangeAssert e p res).
Proof. unfold on_CbExchangeAssert. respects_more. Qed.
#[local] Hint Resolve respects_Exchange__initialize respects_run_TExchangeInit
  respects_on_CbExchangeChannel respects_on_CbExchangeAssert : respects.
Lemma respects_Exchange_new n t o : respects (Exchange_new n t o).
Proof. unfold Exchange_new. respects_more. Qed.
Lemma respects_Queue__initialize q : respects (Queue__initialize q).
Proof. unfold Queue__initialize. respects_more. Qed.
Lemma respects_run_TQueueInit q p : respects (run_TQueueInit q p).
Proof. unfold run_TQueueInit. respects_more. Qed.
Lemma respects_on_CbQueueChannel q p err : respects (on_CbQueueChannel q p err).
Proof. unfold on_CbQueueChannel. respects_more. Qed.
Lemma respects_on_CbQueueAssert q p res : respects (on_CbQueueAssert q p res).
Proof. unfold on_CbQueueAssert. respects_more. Qed.
#[local] Hint Resolve respects_Exchange_new respects_Queue__initialize respects_run_TQueueInit
  respects_on_CbQueueChannel respects_on_CbQueueAssert : respects.
Lemma respects_Queue_new n o : respects (Queue_new n o).
Proof.
  intros st. unfold Queue_new.
  assert (Hr : ∀ q, respects (Queue__initialize q ;; M_ret q)) by (intros q; respects_more).
  unfold M_bind at 1.
  pose proof (respects_alloc_queue {| Queue.initialized := None;
                   Queue._connection := Some this_connection;
                   Queue._channel := None; Queue._name := n;
                   Queue._options := o; Queue._consumer := None;
                   Queue._isStartConsumer := false; Queue._rawConsumer := false;
                   Queue._consumerOptions := None; Queue._consumerTag := None;
                   Queue._consumerInitialized := None |} st) as Hk.
  unfold alloc_queue, M_bind, fresh, modify, M_ret in Hk |- *. simpl in Hk |- *.
  eapply keeps_trans; [| apply (Hr (next st))].
  apply keeps_register_queue; [exact Hk |].
  intros _. simpl. eexists. split; [apply lookup_insert_eq | done].
Qed.
Lemma respects_Queue__initializeConsumer q : respects (Queue__initializeConsumer q).
Proof. unfold Queue__initializeConsumer. respects_more. Qed.
Lemma respects_run_TQueueConsume q p : respects (run_TQueueConsume q p).
Proof. unfold run_TQueueConsume. respects_more. Qed.
Lemma respects_on_CbConsumeOk q p res : respects (on_CbConsumeOk q p res).
Proof. unfold on_CbConsumeOk. respects_more. Qed.
#[local] Hint Resolve respects_Queue_new respects_Queue__initializeConsumer
  respects_run_TQueueConsume respects_on_CbConsumeOk : respects.

(** *** Starting and ending a connect attempt *)

Lemma keeps_bind {A B} (m : M A) (k : A → M B) (st0 st : State) :
  keeps st0 (m st).2 → (∀ a, respects (k a)) → keeps st0 (M_bind m k st).2.
Proof.
  intros Hm Hk. unfold M_bind. destruct (m st) as [[a | e] st']; simpl in *; [| done].
  eapply keeps_trans; [exact Hm | apply Hk].
Qed.

Lemma in_flight_insert_connecting (st : State) (t : token) (cb : callback) :
  callbacks st !! t = None → connecting cb = true →
  size (filter (λ kv : token * callback, connecting kv.2 = true) (<[t := cb]> (callbacks st)))
  = S (in_flight st).
Proof.
  intros Ht Hcb. rewrite map_filter_insert_True by done.
  apply map_size_insert_None. by apply map_lookup_filter_None_2; left.
Qed.

Lemma in_flight_delete_connecting (st : State) (t : token) (cb : callback) :
  callbacks st !! t = Some cb → connecting cb = true →
  size (filter (λ kv : token * callback, connecting kv.2 = true) (delete t (callbacks st)))
  = pred (in_flight st).
Proof.
  intros Ht Hcb. rewrite map_filter_delete.
  apply map_size_delete_Some. exists cb. by apply map_lookup_filter_Some_2.
Qed.

Lemma in_flight_pos (st : State) (t : token) (cb : callback) :
  callbacks st !! t = Some cb → connecting cb = true → (0 < in_flight st)%nat.
Proof.
  intros Ht Hcb. unfold in_flight.
  assert (Hin : filter (λ kv : token * callback, connecting kv.2 = true) (callbacks st) !! t
                = Some cb) by (by apply map_lookup_filter_Some_2).
  destruct (size _) eqn:Hsz; [| lia].
  apply map_size_empty_inv in Hsz. rewrite Hsz in Hin. by rewrite lookup_empty in Hin.
Qed.

(** While an attempt is in flight the guard is set, the attempt is the only
    one, and it settles [this.initialized]. *)
Lemma serialized_in_flight (st : State) (t : token) (cb : callback) :
  serialized st → callbacks st !! t = Some cb → connecting cb = true →
  guard st = true ∧ in_flight st = 1%nat
  ∧ Connection.initialized (conn st) = attempt_promise cb.
Proof.
  intros (_ & Hs & K) Ht Hcb. pose proof (in_flight_pos st t cb Ht Hcb).
  split; [| split; [| exact (K t cb Ht Hcb)]]; destruct (guard st); simpl in Hs; done || lia.
Qed.

(** With no attempt in flight no connect callback is registered. *)
Lemma idle_no_attempt (st : State) (t : token) (cb : callback) :
  in_flight st = 0%nat → callbacks st !! t = Some cb → connecting cb = false.
Proof.
  intros Hz Ht. destruct (connecting cb) eqn:Hcb; [| done].
  pose proof (in_flight_pos st t cb Ht Hcb). lia.
Qed.

Lemma wf_set_guard (st : State) (b : bool) :
  wf st → wf (upd_conn (Connection.with__rebuilding b) st).
Proof. by intros (W1 & W2 & W3). Qed.


Lemma keeps_attempt_started (st : State) : guard st = false → keeps st (attempt_started st).
Proof.
  intros Hg.
  split; [| split; [| split; [| split]]];
    [| by rewrite Hg | | done | intros _; by apply persists_same].
  - intros W. pose proof W as (W1 & W2 & W3). split.
    + repeat split; simpl.
      * intros t. rewrite dom_insert_L, elem_of_union, elem_of_singleton.
        intros [-> | Hin]; [lia | apply W1 in Hin; lia].
      * intros r Hr. apply W2 in Hr. lia.
      * intros r Hr. apply W3 in Hr. lia.
    + rewrite Hg. unfold in_flight at 1; simpl.
      rewrite (in_flight_insert_connecting st); [unfold guard; simpl; lia | | done].
      apply not_elem_of_dom. intros Hin. apply W1 in Hin. lia.
  - intros W Hz _ t cb. rewrite Hg in Hz. simpl. rewrite lookup_insert.
    case_decide as Ht; [by intros [= <-] |].
    intros Hl Hcb. by rewrite (idle_no_attempt st t cb Hz Hl) in Hcb.
Qed.

Lemma respects_rebuildConnection : respects Connection_rebuildConnection.
Proof.
  intros st. unfold Connection_rebuildConnection, M_bind at 1, gets.
  destruct (Connection._rebuilding (conn st)) eqn:Hg.
  - assert (Hr : ∀ o, respects (log "debug"
      "Connection rebuild already in progress, joining active rebuild attempt." ;;
      M_ret (A := option pid) o)) by (intros o; respects_more).
    apply Hr.
  - assert (Hr : respects (then2 (next st)
                   {| on_fulfilled := None; on_rejected := Some TConnectionCatch |} ;;
                   M_ret (Some (next st)))) by respects_more.
    eapply keeps_trans; [exact (keeps_attempt_started st Hg) |].
    apply (Hr (attempt_started st)).
Qed.
#[local] Hint Resolve respects_rebuildConnection : respects.

Lemma respects_completeConfiguration : respects Connection_completeConfiguration.
Proof. unfold Connection_completeConfiguration. respects_more. Qed.
#[local] Hint Resolve respects_completeConfiguration : respects.
Lemma respects__rebuildAll err : respects (Connection__rebuildAll err).
Proof. unfold Connection__rebuildAll. respects_more. Qed.
Lemma respects_run_TRebuildDone r : respects (run_TRebuildDone r).
Proof. unfold run_TRebuildDone. respects_more. Qed.
Lemma respects_run_TRebuildFail r e : respects (run_TRebuildFail r e).
Proof. unfold run_TRebuildFail. respects_more. Qed.
Lemma respects_run_TConnectionCatch e : respects (run_TConnectionCatch e).
Proof. unfold run_TConnectionCatch. respects_more. Qed.
Lemma respects_declareExchange n t o : respects (Connection_declareExchange n t o).
Proof. unfold Connection_declareExchange. respects_more. Qed.
Lemma respects_declareQueue n o : respects (Connection_declareQueue n o).
Proof. unfold Connection_declareQueue. respects_more. Qed.
#[local] Hint Resolve respects__rebuildAll respects_run_TRebuildDone respects_run_TRebuildFail
  respects_run_TConnectionCatch respects_declareExchange respects_declareQueue : respects.

Section Respects.
Context `{JSON}.

Lemma respects_Exchange_publish e c rk o : respects (Exchange_publish e c rk o).
Proof. unfold Exchange_publish. respects_more. Qed.
Lemma respects_run_TExchangeSend e rk c o : respects (run_TExchangeSend e rk c o).
Proof. unfold run_TExchangeSend. respects_more. Qed.
Hint Resolve respects_Exchange_publish respects_run_TExchangeSend : respects.
Lemma respects_run_TExchangeRetransmit n c rk o : respects (run_TExchangeRetransmit n c rk o).
Proof. unfold run_TExchangeRetransmit. respects_more. Qed.
Lemma respects_Queue_publish_sendMessage q c o : respects (Queue_publish_sendMessage q c o).
Proof. unfold Queue_publish_sendMessage. respects_more. Qed.
Hint Resolve respects_run_TExchangeRetransmit respects_Queue_publish_sendMessage : respects.
Lemma respects_Queue_publish q c o : respects (Queue_publish q c o).
Proof. unfold Queue_publish. respects_more. Qed.
Hint Resolve respects_Queue_publish : respects.
Lemma respects_run_TQueueRetransmit n c o : respects (run_TQueueRetransmit n c o).
Proof. unfold run_TQueueRetransmit. respects_more. Qed.
Lemma respects_Message_sendTo_sendMessage m d x rk :
  respects (Message_sendTo_sendMessage m d x rk).
Proof. unfold Message_sendTo_sendMessage. respects_more. Qed.
Lemma respects_run_TMessageRetransmit m d n rk : respects (run_TMessageRetransmit m d n rk).
Proof. unfold run_TMessageRetransmit. respects_more. Qed.
Hint Resolve respects_run_TQueueRetransmit respects_Message_sendTo_sendMessage
  respects_run_TMessageRetransmit : respects.
Lemma respects_Message_sendTo m d rk : respects (Message_sendTo m d rk).
Proof. unfold Message_sendTo. respects_more. Qed.
Lemma respects_Message_ack m v : respects (Message_ack m v).
Proof. unfold Message_ack. respects_more. Qed.
Lemma respects_Message_nack m v : respects (Message_nack m v).
Proof. unfold Message_nack. respects_more. Qed.
Lemma respects_Message_reject m v : respects (Message_reject m v).
Proof. unfold Message_reject. respects_more. Qed.
Hint Resolve respects_Message_sendTo respects_Message_ack respects_Message_nack
  respects_Message_reject : respects.
Lemma respects_Exchange_rpc e rq rk : respects (Exchange_rpc e rq rk).
Proof. unfold Exchange_rpc. respects_more. Qed.
Lemma respects_read_cell r : respects (read_cell r).
Proof. unfold read_cell. respects_more. Qed.
Hint Resolve respects_Exchange_rpc respects_read_cell : respects.
Lemma respects_on_CbExchangeRpcReply e p t msg : respects (on_CbExchangeRpcReply e p t msg).
Proof. unfold on_CbExchangeRpcReply. respects_more. Qed.
Lemma respects_on_CbExchangeRpcOk e p t rq rk res :
  respects (on_CbExchangeRpcOk e p t rq rk res).
Proof. unfold on_CbExchangeRpcOk. respects_more. Qed.
Lemma respects_Queue_rpc_processRpc q p rq : respects (Queue_rpc_processRpc q p rq).
Proof. unfold Queue_rpc_processRpc. respects_more. Qed.
Hint Resolve respects_on_CbExchangeRpcReply respects_on_CbExchangeRpcOk
  respects_Queue_rpc_processRpc : respects.
Lemma respects_Queue_rpc q rq : respects (Queue_rpc q rq).
Proof. unfold Queue_rpc. respects_more. Qed.
Lemma respects_on_CbQueueRpcReply q p t msg : respects (on_CbQueueRpcReply q p t msg).
Proof. unfold on_CbQueueRpcReply. respects_more. Qed.
Lemma respects_on_CbQueueRpcOk q p t rq res : respects (on_CbQueueRpcOk q p t rq res).
Proof. unfold on_CbQueueRpcOk. respects_more. Qed.
Lemma respects_rejected_promise e : respects (rejected_promise e).
Proof. unfold rejected_promise. respects_more. Qed.
Hint Resolve respects_Queue_rpc respects_on_CbQueueRpcReply respects_on_CbQueueRpcOk
  respects_rejected_promise : respects.
Lemma respects_Queue_startConsumer q f o : respects (Queue_startConsumer q f o).
Proof. unfold Queue_startConsumer. respects_more. Qed.
Lemma respects_Queue_activateConsumer q f o : respects (Queue_activateConsumer q f o).
Proof. unfold Queue_activateConsumer. respects_more. Qed.
Lemma respects_send_reply q msg r : respects (send_reply q msg r).
Proof. unfold send_reply. respects_more. Qed.
Lemma respects_consumer_error e : respects (consumer_error e).
Proof. unfold consumer_error. respects_more. Qed.
Hint Resolve respects_Queue_startConsumer respects_Queue_activateConsumer
  respects_send_reply respects_consumer_error : respects.
Lemma respects_try_consumer body : respects body → respects (try_consumer body).
Proof. intros Hb. unfold try_consumer. respects_more. Qed.
Lemma respects_processedMsgConsumer q msg : respects (Queue_processedMsgConsumer q msg).
Proof.
  unfold Queue_processedMsgConsumer. apply respects_try_consumer. respects_more.
Qed.
Lemma respects_rawMsgConsumer q msg : respects (Queue_rawMsgConsumer q msg).
Proof. unfold Queue_rawMsgConsumer. apply respects_try_consumer. respects_more. Qed.
Lemma respects_activateConsumerWrapper q msg : respects (Queue_activateConsumerWrapper q msg).
Proof.
  unfold Queue_activateConsumerWrapper. apply respects_try_consumer. respects_more.
Qed.
Hint Resolve respects_processedMsgConsumer respects_rawMsgConsumer
  respects_activateConsumerWrapper : respects.
Lemma respects_on_CbConsumer q w msg : respects (on_CbConsumer q w msg).
Proof. unfold on_CbConsumer. respects_more. Qed.
Lemma respects_Queue_stopConsumer q : respects (Queue_stopConsumer q).
Proof. unfold Queue_stopConsumer. respects_more. Qed.
Lemma respects_run_TQueueCancel q p : respects (run_TQueueCancel q p).
Proof. unfold run_TQueueCancel. respects_more. Qed.
Lemma respects_on_CbCancel q p err : respects (on_CbCancel q p err).
Proof. unfold on_CbCancel. respects_more. Qed.
Lemma respects_unregister_exchange e : respects (unregister_exchange e).
Proof. unfold unregister_exchange. respects_more. Qed.
Lemma respects_unregister_queue q : respects (unregister_queue q).
Proof. unfold unregister_queue. respects_more. Qed.
Hint Resolve respects_on_CbConsumer respects_Queue_stopConsumer respects_run_TQueueCancel
  respects_on_CbCancel respects_unregister_exchange respects_unregister_queue : respects.
Lemma respects_Exchange_delete e : respects (Exchange_delete e).
Proof. unfold Exchange_delete. respects_more. Qed.
Lemma respects_run_TExchangeDelete1 e p : respects (run_TExchangeDelete1 e p).
Proof. unfold run_TExchangeDelete1. respects_more. Qed.
Lemma respects_run_TExchangeDelete2 e p : respects (run_TExchangeDelete2 e p).
Proof. unfold run_TExchangeDelete2. respects_more. Qed.
Lemma respects_on_CbDeleteExchange e p err : respects (on_CbDeleteExchange e p err).
Proof. unfold on_CbDeleteExchange. respects_more. Qed.
Lemma respects_on_CbExchangeDeleteClosed e p err : respects (on_CbExchangeDeleteClosed e p err).
Proof. unfold on_CbExchangeDeleteClosed. respects_more. Qed.
Lemma respects_Exchange_close e : respects (Exchange_close e).
Proof. unfold Exchange_close. respects_more. Qed.
Lemma respects_run_TExchangeClose1 e p : respects (run_TExchangeClose1 e p).
Proof. unfold run_TExchangeClose1. respects_more. Qed.
Lemma respects_run_TExchangeClose2 e p : respects (run_TExchangeClose2 e p).
Proof. unfold run_TExchangeClose2. respects_more. Qed.
Lemma respects_on_CbExchangeClosed e p err : respects (on_CbExchangeClosed e p err).
Proof. unfold on_CbExchangeClosed. respects_more. Qed.
Lemma respects_Queue_delete q : respects (Queue_delete q).
Proof. unfold Queue_delete. respects_more. Qed.
Lemma respects_run_TQueueDelete1 q p : respects (run_TQueueDelete1 q p).
Proof. unfold run_TQueueDelete1. respects_more. Qed.
Lemma respects_run_TQueueDelete2 q p : respects (run_TQueueDelete2 q p).
Proof. unfold run_TQueueDelete2. respects_more. Qed.
Lemma respects_on_CbDeleteQueue q p res : respects (on_CbDeleteQueue q p res).
Proof. unfold on_CbDeleteQueue. respects_more. Qed.
Lemma respects_on_CbQueueClosed q p ok err : respects (on_CbQueueClosed q p ok err).
Proof. unfold on_CbQueueClosed. respects_more. Qed.
Lemma respects_Queue_close q : respects (Queue_close q).
Proof. unfold Queue_close. respects_more. Qed.
Lemma respects_run_TQueueClose1 q p : respects (run_TQueueClose1 q p).
Proof. unfold run_TQueueClose1. respects_more. Qed.
Lemma respects_run_TQueueClose2 q p : respects (run_TQueueClose2 q p).
Proof. unfold run_TQueueClose2. respects_more. Qed.
Lemma respects_bind_endpoint d s p a : respects (bind d s p a).
Proof. unfold bind. respects_more. Qed.
Hint Resolve respects_Exchange_delete respects_run_TExchangeDelete1
  respects_run_TExchangeDelete2 respects_on_CbDeleteExchange
  respects_on_CbExchangeDeleteClosed respects_Exchange_close respects_run_TExchangeClose1
  respects_run_TExchangeClose2 respects_on_CbExchangeClosed respects_Queue_delete
  respects_run_TQueueDelete1 respects_run_TQueueDelete2 respects_on_CbDeleteQueue
  respects_on_CbQueueClosed respects_Queue_close respects_run_TQueueClose1
  respects_run_TQueueClose2 respects_bind_endpoint : respects.

Lemma respects_run_task t : respects (run_task t).
Proof. destruct t; simpl; eauto with respects. Qed.
Hint Resolve respects_run_task : respects.

Lemma respects_run_next : respects run_next.
Proof. unfold run_next. respects_more. Qed.


(** *** The callbacks of a connect attempt *)

Lemma reject_settled (p : pid) (e : error) (st : State) :
  ∃ st', reject p e st = (Ret tt, st') ∧ rejected_with p e st st'
         ∧ conn st' = conn st ∧ callbacks st' = callbacks st ∧ calls st' = calls st
         ∧ next st' = next st ∧ exchanges st' = exchanges st ∧ queues st' = queues st.
Proof.
  unfold reject, rejected_with, settled, M_bind, gets.
  destruct (promises st !! p) as [[rs | v | e'] |] eqn:Hp; simpl;
    (eexists; split; [reflexivity |]); rewrite ?Hp; done.
Qed.

Lemma resolve_settled (p : pid) (v : jsval) (st : State) :
  ∃ st', resolve p v st = (Ret tt, st') ∧ fulfilled_with p v st st'
         ∧ conn st' = conn st ∧ callbacks st' = callbacks st ∧ calls st' = calls st
         ∧ next st' = next st ∧ exchanges st' = exchanges st ∧ queues st' = queues st.
Proof.
  unfold resolve, fulfilled_with, settled, M_bind, gets.
  destruct (promises st !! p) as [[rs | v' | e'] |] eqn:Hp; simpl;
    (eexists; split; [reflexivity |]); rewrite ?Hp; done.
Qed.

(** A failed attempt with a retry left: the timer of the next try is set. *)
Lemma connect_failed_retry (st : State) (t : token) (retry : Z) (p : pid) (e : error) :
  callbacks st !! t = Some (CbConnect retry p) → retry_left st retry = true →
  ∃ st', fire t (Err e) st = (Ret tt, st')
         ∧ callbacks st' = <[next st := CbTimer (retry + 1) p]> (delete t (callbacks st))
         ∧ calls st'
           = calls st ++ [LSetTimeout (next st)
                            (interval (Connection.reconnectStrategy (conn st)))]
         ∧ next st' = S (next st) ∧ conn st' = conn st
         ∧ promises st' = promises st ∧ tasks st' = tasks st
         ∧ exchanges st' = exchanges st ∧ queues st' = queues st.
Proof.
  intros Ht Hr. unfold retry_left in Hr.
  unfold fire, M_bind at 1, gets. rewrite Ht. unfold once_err, on_CbConnect.
  unfold M_bind, unregister, modify, gets. simpl. rewrite Hr.
  eexists. split; [reflexivity |]. done.
Qed.

(** The timer fires: the next try starts. *)
Lemma timer_fired (st : State) (t : token) (retry : Z) (p : pid) :
  callbacks st !! t = Some (CbTimer retry p) →
  ∃ st', fire t Fired st = (Ret tt, st')
         ∧ callbacks st' = <[next st := CbConnect retry p]> (delete t (callbacks st))
         ∧ calls st'
           = calls st ++ [LConnect (Connection.url (conn st))
                            (Connection.socketOptions (conn st)) (next st)]
         ∧ next st' = S (next st) ∧ conn st' = conn st
         ∧ promises st' = promises st ∧ tasks st' = tasks st
         ∧ exchanges st' = exchanges st ∧ queues st' = queues st.
Proof.
  intros Ht. unfold fire, M_bind at 1, gets. rewrite Ht.
  eexists. split; [reflexivity |]. done.
Qed.

(** A failed attempt with no retry left: the guard is cleared and the promise
    is rejected with the error of this attempt. *)
Lemma connect_failed_last (st : State) (t : token) (retry : Z) (p : pid) (e : error) :
  callbacks st !! t = Some (CbConnect retry p) → retry_left st retry = false →
  ∃ st', fire t (Err e) st = (Ret tt, st')
         ∧ callbacks st' = delete t (callbacks st)
         ∧ calls st' = calls st ∧ next st' = next st
         ∧ conn st' = Connection.with__rebuilding false (conn st)
         ∧ rejected_with p e st st'
         ∧ exchanges st' = exchanges st ∧ queues st' = queues st.
Proof.
  intros Ht Hr. unfold retry_left in Hr.
  unfold fire, M_bind at 1, gets. rewrite Ht. unfold once_err, on_CbConnect.
  unfold M_bind at 1, unregister, modify. unfold M_bind at 1, gets.
  cbn [conn upd_callbacks]. rewrite Hr. unfold rebuild_callback.
  unfold M_bind at 1, log, modify. unfold M_bind at 1. unfold M_bind at 1, update_conn, modify.
  match goal with |- context [reject p e ?s] =>
    destruct (reject_settled p e s) as (st' & -> & Hrej & Hc & Hcb & Hcl & Hn & He & Hq)
  end.
  exists st'. split; [reflexivity |].
  rewrite Hc, Hcb, Hcl, Hn, He, Hq. repeat split; done.
Qed.

(** A successful attempt: the [error] listener is installed, the guard is
    cleared and the promise is fulfilled. *)
Lemma connect_succeeded (st : State) (t : token) (retry : Z) (p : pid) (v : jsval) :
  callbacks st !! t = Some (CbConnect retry p) →
  ∃ st', fire t (Ok v) st = (Ret tt, st')
         ∧ callbacks st' = <[S (next st) := CbRestart (next st)]> (delete t (callbacks st))
         ∧ calls st' = calls st ++ [LOnError (next st) (S (next st))]
         ∧ next st' = S (S (next st))
         ∧ guard st' = false
         ∧ Connection._connection (conn st') = Some (next st)
         ∧ Connection.connectedBefore (conn st') = true
         ∧ Connection.initialized (conn st') = Connection.initialized (conn st)
         ∧ fulfilled_with p VNull st st'
         ∧ exchanges st' = exchanges st ∧ queues st' = queues st
         ∧ Connection._exchanges (conn st') = Connection._exchanges (conn st)
         ∧ Connection._queues (conn st') = Connection._queues (conn st).
Proof.
  intros Ht.
  unfold fire. munfold. rewrite Ht. unfold on_CbConnect, rebuild_callback. munfold. fields.
  destruct (Connection.connectedBefore (conn st)) eqn:Hb; cbn [Connection.connectedBefore
    Connection.with__connection Connection.with__rebuilding]; rewrite Hb; fields;
    match goal with |- context [resolve p VNull ?s] =>
      destruct (resolve_settled p VNull s) as (st' & -> & Hres & Hc & Hcb & Hcl & Hn & He & Hq)
    end;
    (exists st'; split; [reflexivity |]);
    unfold guard; rewrite Hc, Hcb, Hcl, Hn, He, Hq; cbn; repeat split; done.
Qed.

(** *** Every step keeps the invariant *)

Lemma attempts_insert (m : gmap token callback) (t : token) (cb : callback) :
  m !! t = None →
  size (filter (λ kv : token * callback, connecting kv.2 = true) (<[t := cb]> m))
  = (b2n (connecting cb)
     + size (filter (λ kv : token * callback, connecting kv.2 = true) m))%nat.
Proof.
  intros Ht. destruct (connecting cb) eqn:Hcb; simpl.
  - rewrite map_filter_insert_True by done.
    apply map_size_insert_None. by apply map_lookup_filter_None_2; left.
  - rewrite map_filter_insert_not'; [done | simpl; by rewrite Hcb |].
    intros y Hy. by rewrite Ht in Hy.
Qed.

Lemma attempts_delete (m : gmap token callback) (t : token) (cb : callback) :
  m !! t = Some cb →
  (b2n (connecting cb)
   + size (filter (λ kv : token * callback, connecting kv.2 = true) (delete t m)))%nat
  = size (filter (λ kv : token * callback, connecting kv.2 = true) m).
Proof.
  intros Ht. destruct (connecting cb) eqn:Hcb; simpl.
  - rewrite map_filter_delete, map_size_delete_Some.
    + assert (Hin : filter (λ kv : token * callback, connecting kv.2 = true) m !! t = Some cb)
        by (by apply map_lookup_filter_Some_2).
      destruct (size _) eqn:Hsz; [| done].
      apply map_size_empty_inv in Hsz. rewrite Hsz in Hin. by rewrite lookup_empty in Hin.
    + exists cb. by apply map_lookup_filter_Some_2.
  - rewrite map_filter_delete_not; [done |].
    intros y Hy. rewrite Ht in Hy. injection Hy as <-. simpl. by rewrite Hcb.
Qed.

(** One attempt is replaced by its successor: the timer after a failure, the
    next try after the timer. *)
Lemma serialized_next_attempt (st st' : State) (t : token) (cb cb' : callback) :
  serialized st → callbacks st !! t = Some cb →
  connecting cb = true → connecting cb' = true →
  attempt_promise cb' = attempt_promise cb →
  callbacks st' = <[next st := cb']> (delete t (callbacks st)) →
  next st' = S (next st) → conn st' = conn st →
  exchanges st' = exchanges st → queues st' = queues st →
  serialized st'.
Proof.
  intros (W & Hs & K) Ht Hcb Hcb' Hp Hc Hn Hconn He Hq.
  pose proof W as (W1 & W2 & W3).
  assert (Hfresh : delete t (callbacks st) !! next st = None).
  { rewrite lookup_delete_None. right. by apply wf_fresh_callback. }
  split; [| split].
  - unfold wf. rewrite Hc, Hn, He, Hq. repeat split.
    + intros t'. rewrite dom_insert_L, dom_delete_L. intros Hin.
      apply elem_of_union in Hin as [Hin | Hin].
      * apply elem_of_singleton in Hin as ->. lia.
      * apply elem_of_difference in Hin as [Hin _]. apply W1 in Hin. lia.
    + intros r Hr. apply W2 in Hr. lia.
    + intros r Hr. apply W3 in Hr. lia.
  - unfold in_flight, guard in *. rewrite Hc, Hconn, attempts_insert by done.
    pose proof (attempts_delete _ _ _ Ht) as Hd. rewrite Hcb in Hd. rewrite Hcb'. lia.
  - intros t' c. rewrite Hc, Hconn, lookup_insert. case_decide as Hk.
    + intros [= <-] _. rewrite Hp. exact (K t cb Ht Hcb).
    + rewrite lookup_delete_Some. intros [_ Hl]. exact (K t' c Hl).
Qed.

(** The attempt in flight ends, and no other starts. *)
Lemma serialized_attempt_over (st st' : State) (t : token) (cb : callback) :
  serialized st → callbacks st !! t = Some cb → connecting cb = true →
  (callbacks st' = delete t (callbacks st) ∧ next st' = next st
   ∨ callbacks st' = <[S (next st) := CbRestart (next st)]> (delete t (callbacks st))
     ∧ next st' = S (S (next st))) →
  guard st' = false →
  exchanges st' = exchanges st → queues st' = queues st →
  serialized st'.
Proof.
  intros Hser Ht Hcb Hc Hg He Hq.
  destruct (serialized_in_flight st t cb Hser Ht Hcb) as (Hg0 & Hone & _).
  destruct Hser as (W & Hs & K). pose proof W as (W1 & W2 & W3).
  pose proof (attempts_delete _ _ _ Ht) as Hd. rewrite Hcb in Hd. simpl in Hd.
  assert (Hz : in_flight st' = 0%nat).
  { unfold in_flight in *. destruct Hc as [[-> _] | [-> _]]; [lia |].
    rewrite attempts_insert; [simpl; lia |].
    rewrite lookup_delete_None. right.
    apply not_elem_of_dom. intros Hin. apply W1 in Hin. lia. }
  split; [| split].
  - unfold wf. rewrite He, Hq. destruct Hc as [[-> ->] | [-> ->]]; repeat split.
    + intros t'. rewrite dom_delete_L, elem_of_difference. intros [Hin _]. by apply W1.
    + done.
    + done.
    + intros t'. rewrite dom_insert_L, dom_delete_L. intros Hin.
      apply elem_of_union in Hin as [Hin | Hin].
      * apply elem_of_singleton in Hin as ->. lia.
      * apply elem_of_difference in Hin as [Hin _]. apply W1 in Hin. lia.
    + intros r Hr. apply W2 in Hr. lia.
    + intros r Hr. apply W3 in Hr. lia.
  - by rewrite Hz, Hg.
  - intros t' c Hl Hcn. by rewrite (idle_no_attempt st' t' c Hz Hl) in Hcn.
Qed.

Lemma keeps_once_err (st : State) (t : token) (cb : callback) (res : cb_result)
    (k : option error → M unit) :
  callbacks st !! t = Some cb → connecting cb = false → (∀ r, respects (k r)) →
  keeps st (once_err t res k st).2.
Proof.
  intros Ht Hcb Hk. destruct res; simpl; try apply keeps_refl;
    (eapply keeps_trans; [exact (keeps_unregister st t cb Ht Hcb) | apply Hk]).
Qed.

Lemma keeps_once_res (st : State) (t : token) (cb : callback) (res : cb_result)
    (k : error + jsval → M unit) :
  callbacks st !! t = Some cb → connecting cb = false → (∀ r, respects (k r)) →
  keeps st (once_res t res k st).2.
Proof.
  intros Ht Hcb Hk. destruct res; simpl; try apply keeps_refl;
    (eapply keeps_trans; [exact (keeps_unregister st t cb Ht Hcb) | apply Hk]).
Qed.

Lemma respects_on_msg (res : cb_result) (k : option delivery → M unit) :
  (∀ m, respects (k m)) → respects (on_msg res k).
Proof. intros Hk. destruct res; simpl; auto with respects. Qed.

Lemma keeps_on_CbRestart (st : State) (t : token) (l : link) (e : error) :
  callbacks st !! t = Some (CbRestart l) → keeps st (on_CbRestart t l e st).2.
Proof.
  intros Ht. unfold on_CbRestart.
  assert (Hr : respects (call (LRemoveListener l t) ;; Connection__rebuildAll e ;; M_ret tt))
    by respects_more.
  unfold M_bind at 1, log, modify. unfold M_bind at 1, unregister, modify.
  eapply keeps_trans; [| apply Hr].
  eapply keeps_trans; [apply (respects_log "debug" "Connection error occurred." st) |].
  by apply (keeps_unregister _ t (CbRestart l)).
Qed.

(** A callback that does not belong to a connect attempt. *)
Lemma fire_keeps (st : State) (t : token) (cb : callback) (res : cb_result) :
  callbacks st !! t = Some cb → connecting cb = false → keeps st (fire t res st).2.
Proof.
  intros Ht Hcb. unfold fire, M_bind at 1, gets. rewrite Ht.
  destruct cb; try discriminate Hcb;
    try (eapply keeps_once_err; [exact Ht | done | intros ?; eauto with respects]);
    try (eapply keeps_once_res; [exact Ht | done | intros ?; eauto with respects]);
    try (apply respects_on_msg; intros ?; eauto with respects).
  destruct res; try apply keeps_refl. by apply keeps_on_CbRestart.
Qed.

Lemma fire_unknown (st : State) (t : token) (res : cb_result) :
  callbacks st !! t = None → fire t res st = (Ret tt, st).
Proof. intros Ht. unfold fire, M_bind, gets. by rewrite Ht. Qed.

Lemma fire_serialized (st : State) (t : token) (res : cb_result) :
  serialized st → serialized (fire t res st).2.
Proof.
  intros Hs. destruct (callbacks st !! t) as [cb |] eqn:Ht;
    [| by rewrite fire_unknown].
  destruct (connecting cb) eqn:Hcb;
    [| exact (keeps_serialized st _ (fire_keeps st t cb res Ht Hcb) Hs)].
  destruct cb as [retry p | retry p | | | | | | | | | | | | | | | | | | |];
    try discriminate Hcb.
  - destruct res as [e | v | m |].
    + destruct (retry_left st retry) eqn:Hr.
      * destruct (connect_failed_retry st t retry p e Ht Hr)
          as (st' & -> & Hc & _ & Hn & Hconn & _ & _ & He & Hq).
        by apply (serialized_next_attempt st st' t (CbConnect retry p) (CbTimer (retry + 1) p)).
      * destruct (connect_failed_last st t retry p e Ht Hr)
          as (st' & -> & Hc & _ & Hn & Hconn & _ & He & Hq).
        apply (serialized_attempt_over st st' t (CbConnect retry p)); try done; [by left |].
        unfold guard. by rewrite Hconn.
    + destruct (connect_succeeded st t retry p v Ht)
        as (st' & -> & Hc & _ & Hn & Hg & _ & _ & _ & _ & He & Hq & _).
      apply (serialized_attempt_over st st' t (CbConnect retry p)); try done. by right.
    + unfold fire, M_bind, gets. by rewrite Ht.
    + unfold fire, M_bind, gets. by rewrite Ht.
  - destruct res as [e | v | m |]; try (unfold fire, M_bind, gets; by rewrite Ht).
    destruct (timer_fired st t retry p Ht) as (st' & -> & Hc & _ & Hn & Hconn & _ & _ & He & Hq).
    by apply (serialized_next_attempt st st' t (CbTimer retry p) (CbConnect retry p)).
Qed.

Lemma named_same (st st' : State) :
  named st →
  Connection._exchanges (conn st') = Connection._exchanges (conn st) →
  Connection._queues (conn st') = Connection._queues (conn st) →
  exchanges st' = exchanges st → queues st' = queues st →
  named st'.
Proof. intros M Hre Hrq He Hq. unfold named. by rewrite Hre, Hrq, He, Hq. Qed.

Lemma fire_named (st : State) (t : token) (res : cb_result) :
  wf st → named st → named (fire t res st).2.
Proof.
  intros W M. destruct (callbacks st !! t) as [cb |] eqn:Ht;
    [| by rewrite fire_unknown].
  destruct (connecting cb) eqn:Hcb;
    [| exact (keeps_named st _ (fire_keeps st t cb res Ht Hcb) W M)].
  destruct cb as [retry p | retry p | | | | | | | | | | | | | | | | | | |];
    try discriminate Hcb.
  - destruct res as [e | v | m |].
    + destruct (retry_left st retry) eqn:Hr.
      * destruct (connect_failed_retry st t retry p e Ht Hr)
          as (st' & -> & _ & _ & _ & Hconn & _ & _ & He & Hq).
        simpl. apply (named_same st); by rewrite ?Hconn.
      * destruct (connect_failed_last st t retry p e Ht Hr)
          as (st' & -> & _ & _ & _ & Hconn & _ & He & Hq).
        simpl. apply (named_same st); by rewrite ?Hconn.
    + destruct (connect_succeeded st t retry p v Ht)
        as (st' & -> & _ & _ & _ & _ & _ & _ & _ & _ & He & Hq & Hre & Hrq).
      simpl. by apply (named_same st).
    + unfold fire, M_bind, gets. by rewrite Ht.
    + unfold fire, M_bind, gets. by rewrite Ht.
  - destruct res as [e | v | m |]; unfold fire, M_bind, gets; by rewrite Ht.
Qed.

Lemma respects_handle (ev : event) :
  (∀ t res, ev ≠ ECallback t res) → respects (handle ev).
Proof.
  intros Hev. destruct ev; simpl; try (by respects_more); try apply respects_run_next.
  by destruct (Hev t res).
Qed.

Lemma keeps_unhandled (st : State) (e : error) :
  keeps st (upd_unhandled (λ l, l ++ [e]) st).
Proof. apply (respects_modify (upd_unhandled (λ l, l ++ [e]))). harmless. Qed.

(** Apart from the callbacks of the library, every event keeps the guard and
    [this.initialized] while an attempt is in flight. *)
Lemma step_keeps (ev : event) (st : State) :
  (∀ t res, ev ≠ ECallback t res) → keeps st (step ev st).
Proof.
  intros Hev. unfold step. pose proof (respects_handle ev Hev st) as Hk.
  destruct (handle ev st) as [[[] | e] st']; simpl in Hk; [done |].
  eapply keeps_trans; [exact Hk | apply keeps_unhandled].
Qed.

Lemma step_serialized (ev : event) (st : State) : serialized st → serialized (step ev st).
Proof.
  intros Hs.
  assert (Hh : serialized (handle ev st).2).
  { destruct ev;
      try (by eapply keeps_serialized; [apply respects_handle | exact Hs]).
    by apply fire_serialized. }
  unfold step. destruct (handle ev st) as [[[] | e] st']; simpl in Hh; [done |].
  eapply keeps_serialized; [apply keeps_unhandled | exact Hh].
Qed.

Lemma step_named (ev : event) (st : State) : wf st → named st → named (step ev st).
Proof.
  intros W M.
  assert (Hh : named (handle ev st).2).
  { destruct ev;
      try (by eapply keeps_named; [apply respects_handle | exact W | exact M]).
    by apply fire_named. }
  unfold step. destruct (handle ev st) as [[[] | e] st']; simpl in Hh; [done |].
  by apply (named_same st').
Qed.

Lemma blank_serialized url so rs : serialized (blank url so rs).
Proof.
  split; [| split].
  - repeat split; simpl; intros r; rewrite dom_empty_L; set_solver.
  - unfold in_flight; simpl. by rewrite map_filter_empty, map_size_empty.
  - intros t cb. simpl. by rewrite lookup_empty.
Qed.

Lemma Connection_new_serialized url so rs : serialized (Connection_new url so rs).
Proof.
  eapply keeps_serialized; [| apply (blank_serialized url so rs)].
  apply respects_rebuildConnection.
Qed.

Lemma run_serialized (evs : list event) (st : State) :
  serialized st → serialized (run evs st).
Proof.
  revert st. induction evs as [| ev evs IH]; intros st Hs; simpl; [done |].
  by apply IH, step_serialized.
Qed.

Lemma Connection_new_named url so rs : named (Connection_new url so rs).
Proof.
  eapply keeps_named; [apply (respects_rebuildConnection (blank url so rs)) | |].
  - apply blank_serialized.
  - split; intros n e; simpl; by rewrite lookup_empty.
Qed.

Lemma run_named (evs : list event) (st : State) :
  serialized st → named st → named (run evs st).
Proof.
  revert st. induction evs as [| ev evs IH]; intros st Hs M; simpl; [done |].
  apply IH; [by apply step_serialized | apply step_named; [apply Hs | done]].
Qed.


(** ** Rebuild serialization (claim C1) *)

(** A call of [rebuildConnection] while the guard is set joins the rebuild in
    progress: it returns [this.initialized] and changes nothing but the log. *)
Lemma rebuildConnection_joins (st : State) :
  guard st = true →
  Connection_rebuildConnection st
  = (Ret (Connection.initialized (conn st)),
     upd_logs (λ l, l ++ [("debug",
       "Connection rebuild already in progress, joining active rebuild attempt.")]) st).
Proof.
  unfold guard. intros Hg. unfold Connection_rebuildConnection. munfold. by rewrite Hg.
Qed.

(** While the guard is set there is an attempt in flight, and it settles
    [this.initialized]. *)
Lemma guard_attempt (st : State) :
  serialized st → guard st = true →
  ∃ t cb, callbacks st !! t = Some cb ∧ connecting cb = true
          ∧ Connection.initialized (conn st) = attempt_promise cb.
Proof.
  intros (W & Hs & K) Hg. rewrite Hg in Hs. unfold in_flight in Hs.
  destruct (map_choose (filter (λ kv : token * callback, connecting kv.2 = true)
                          (callbacks st))) as (t & cb & Hl).
  { intros Hempty. rewrite Hempty, map_size_empty in Hs. discriminate. }
  apply map_lookup_filter_Some in Hl as [Hl Hcb]. exists t, cb. eauto.
Qed.

Lemma step_fire (st st' : State) (t : token) (res : cb_result) :
  fire t res st = (Ret tt, st') → step (ECallback t res) st = st'.
Proof. unfold step, handle. by intros ->. Qed.

Lemma step_guard_keeps (ev : event) (st : State) :
  keeps st (handle ev st).2 → guard st = true →
  guard (step ev st) = true
  ∧ Connection.initialized (conn (step ev st)) = Connection.initialized (conn st).
Proof.
  intros (_ & Hk & _) Hg. destruct (Hk Hg) as [Hg' Hi'].
  unfold step. by destruct (handle ev st) as [[[] | e] st'].
Qed.


Lemma settle_clears_guard (ev : event) (st : State) :
  connect_settles st ev → guard (step ev st) = false.
Proof.
  intros (t & retry & p & Ht & [(v & ->) | (e & -> & Hr)]).
  - destruct (connect_succeeded st t retry p v Ht) as (st' & Hf & _ & _ & _ & Hg & _).
    by rewrite (step_fire _ _ _ _ Hf).
  - destruct (connect_failed_last st t retry p e Ht Hr) as (st' & Hf & _ & _ & _ & Hc & _).
    rewrite (step_fire _ _ _ _ Hf). unfold guard. by rewrite Hc.
Qed.

Lemma step_guard_cases (ev : event) (st : State) :
  guard st = true →
  connect_settles st ev
  ∨ (guard (step ev st) = true
     ∧ Connection.initialized (conn (step ev st)) = Connection.initialized (conn st)).
Proof.
  intros Hg.
  destruct ev as [| t res | | | | | | | | | | | | | | | | | | | | |];
    try (right; apply step_guard_keeps; [by apply respects_handle | done]).
  destruct (callbacks st !! t) as [cb |] eqn:Ht.
  2:{ right. rewrite (step_fire st st t res (fire_unknown st t res Ht)). done. }
  destruct (connecting cb) eqn:Hcb.
  2:{ right. apply step_guard_keeps; [exact (fire_keeps st t cb res Ht Hcb) | done]. }
  destruct cb as [retry p | retry p | | | | | | | | | | | | | | | | | | |];
    try discriminate Hcb.
  - destruct res as [e | v | m |].
    + destruct (retry_left st retry) eqn:Hr.
      * right. destruct (connect_failed_retry st t retry p e Ht Hr)
          as (st' & Hf & _ & _ & _ & Hconn & _).
        rewrite (step_fire _ _ _ _ Hf). unfold guard in *. by rewrite Hconn.
      * left. exists t, retry, p. split; [done |]. right. by exists e.
    + left. exists t, retry, p. split; [done |]. left. by exists v.
    + right. rewrite (step_fire st st t (Msg m)); [done |].
      unfold fire, M_bind, gets. by rewrite Ht.
    + right. rewrite (step_fire st st t Fired); [done |].
      unfold fire, M_bind, gets. by rewrite Ht.
  - right. destruct res as [e | v | m |];
      try (rewrite (step_fire st st t _); [done | unfold fire, M_bind, gets; by rewrite Ht]).
    destruct (timer_fired st t retry p Ht) as (st' & Hf & _ & _ & _ & Hconn & _).
    rewrite (step_fire _ _ _ _ Hf). unfold guard in *. by rewrite Hconn.
Qed.

(** C1: in every state the machine reaches, at most one connect attempt is in
    flight, and one is exactly while the guard [_rebuilding] is set; a call of
    [rebuildConnection] made then returns the [initialized] future of that
    attempt and starts nothing; the guard is cleared by the very event at
    which the connect settles (success, or a failure with no retry left) and
    by no other event, the end of a topology rebuild included; until then
    [initialized] stays the same future. *)
Theorem rebuild_serialization (url : string) (so : props) (rs : ReconnectStrategy)
    (evs : list event) :
  let st := run evs (Connection_new url so rs) in
  ((in_flight st ≤ 1)%nat ∧ (guard st = true ↔ in_flight st = 1%nat))
  ∧ (guard st = true →
     (∃ t cb, callbacks st !! t = Some cb ∧ connecting cb = true
              ∧ Connection.initialized (conn st) = attempt_promise cb)
     ∧ ∃ st', Connection_rebuildConnection st = (Ret (Connection.initialized (conn st)), st')
              ∧ calls st' = calls st ∧ callbacks st' = callbacks st
              ∧ promises st' = promises st ∧ conn st' = conn st)
  ∧ (∀ ev, guard st = true →
           (guard (step ev st) = false ↔ connect_settles st ev)
           ∧ (guard (step ev st) = true →
              Connection.initialized (conn (step ev st)) = Connection.initialized (conn st))).
Proof.
  intros st.
  assert (Hser : serialized st) by apply run_serialized, Connection_new_serialized.
  split; [| split].
  - destruct Hser as (_ & Hs & _). rewrite Hs. destruct (guard st); simpl; split; try lia; done.
  - intros Hg. split; [by apply guard_attempt |].
    eexists. split; [by apply rebuildConnection_joins |]. done.
  - intros ev Hg. destruct (step_guard_cases ev st Hg) as [Hsettle | [Hg' Hi']].
    + pose proof (settle_clears_guard ev st Hsettle) as Hc. split; [done |].
      intros Hg'. by rewrite Hc in Hg'.
    + split; [| done]. split; [by rewrite Hg' | apply settle_clears_guard].
Qed.

End Respects.

(** ** Reconnecting (claim C3) *)

Section Reconnect.
Context `{JSON}.
Variables (url : string) (so : props) (rs : ReconnectStrategy).

Lemma attempting_first : attempting url so rs 0 (Connection_new url so rs).
Proof. repeat split. Qed.

Lemma attempting_retry_left (k : nat) (st : State) :
  attempting url so rs k st → retry_left st (Z.of_nat k) = retry_left (blank url so rs) (Z.of_nat k).
Proof. intros (_ & _ & Hc & _). unfold retry_left. by rewrite Hc. Qed.

Lemma attempts_made_calls (k : nat) :
  length (filter (λ c, is_connect c = true) (attempt_calls url so rs k)) = S k.
Proof.
  induction k as [| k IH]; [done |].
  simpl. rewrite filter_app, length_app, IH. simpl. lia.
Qed.

(** A failed attempt with a retry left, then the timer: the next attempt. *)
Lemma attempting_next (k : nat) (e : error) (st : State) :
  attempting url so rs k st → retry_left st (Z.of_nat k) = true →
  attempting url so rs (S k)
    (run [ECallback (2 * k + 1) (Err e); ECallback (2 * k + 2) Fired] st).
Proof.
  intros (Hcb & Hn & Hc & Hp & Ht & Hcl) Hr.
  assert (Hl : callbacks st !! (2 * k + 1)%nat = Some (CbConnect (Z.of_nat k) 0%nat))
    by (rewrite Hcb; apply lookup_singleton_eq).
  destruct (connect_failed_retry st _ _ _ e Hl Hr)
    as (st1 & Hf1 & Hcb1 & Hcl1 & Hn1 & Hc1 & Hp1 & Ht1 & _).
  assert (Hl1 : callbacks st1 !! (2 * k + 2)%nat = Some (CbTimer (Z.of_nat k + 1) 0%nat))
    by (rewrite Hcb1, Hn; apply lookup_insert_eq).
  destruct (timer_fired st1 _ _ _ Hl1)
    as (st2 & Hf2 & Hcb2 & Hcl2 & Hn2 & Hc2 & Hp2 & Ht2 & _).
  change (run [ECallback (2 * k + 1) (Err e); ECallback (2 * k + 2) Fired] st)
    with (step (ECallback (2 * k + 2) Fired) (step (ECallback (2 * k + 1) (Err e)) st)).
  rewrite (step_fire _ _ _ _ Hf1), (step_fire _ _ _ _ Hf2).
  repeat split.
  - rewrite Hcb2, Hcb1, Hn1, Hn, Hcb. rewrite delete_singleton_eq, insert_empty.
    rewrite delete_singleton_eq, insert_empty.
    replace (Z.of_nat k + 1) with (Z.of_nat (S k)) by lia.
    f_equal. lia.
  - lia.
  - congruence.
  - congruence.
  - congruence.
  - rewrite Hcl2, Hcl1, Hc1, Hn1, Hn, Hcl, Hc. simpl. rewrite <- app_assoc. simpl.
    repeat f_equal; lia.
Qed.

(** As long as retries are left, [n] failures lead to attempt [k + n]. *)
Lemma attempting_after (errs : list error) (k : nat) (st : State) :
  attempting url so rs k st →
  (∀ j, (k ≤ j < k + length errs)%nat → retry_left (blank url so rs) (Z.of_nat j) = true) →
  attempting url so rs (k + length errs) (run (failures k errs) st).
Proof.
  revert k st. induction errs as [| e errs IH]; intros k st Hk Hr.
  - simpl. by rewrite Nat.add_0_r.
  - change (run (failures k (e :: errs)) st)
      with (run (failures (S k) errs)
              (run [ECallback (2 * k + 1) (Err e); ECallback (2 * k + 2) Fired] st)).
    replace (k + length (e :: errs))%nat with (S k + length errs)%nat by (simpl; lia).
    apply IH.
    + apply attempting_next; [done |].
      rewrite (attempting_retry_left k st Hk). apply Hr. simpl. lia.
    + intros j Hj. apply Hr. simpl. lia.
Qed.

(** The failure of the attempt after which no retry is left. *)
Lemma attempting_last (k : nat) (e : error) (st : State) :
  attempting url so rs k st → retry_left st (Z.of_nat k) = false →
  let st' := step (ECallback (2 * k + 1) (Err e)) st in
  promises st' !! 0%nat = Some (Rejected e)
  ∧ Connection.initialized (conn st') = Some 0%nat
  ∧ guard st' = false
  ∧ callbacks st' = ∅
  ∧ calls st' = attempt_calls url so rs k
  ∧ tasks st' = [TConnectionCatch e].
Proof.
  intros (Hcb & Hn & Hc & Hp & Ht & Hcl) Hr.
  assert (Hl : callbacks st !! (2 * k + 1)%nat = Some (CbConnect (Z.of_nat k) 0%nat))
    by (rewrite Hcb; apply lookup_singleton_eq).
  destruct (connect_failed_last st _ _ _ e Hl Hr)
    as (st1 & Hf1 & Hcb1 & Hcl1 & Hn1 & Hc1 & Hrej & _).
  cbv zeta. rewrite (step_fire _ _ _ _ Hf1).
  unfold rejected_with, settled in Hrej. rewrite Hp in Hrej. simpl in Hrej.
  destruct Hrej as [Hp1 Ht1].
  repeat split.
  - rewrite Hp1. apply lookup_insert_eq.
  - by rewrite Hc1, Hc.
  - unfold guard. by rewrite Hc1.
  - rewrite Hcb1, Hcb. apply delete_singleton_eq.
  - congruence.
  - by rewrite Ht1, Ht.
Qed.

Lemma run_failures_app (errs : list error) (e : error) (k : nat) (st : State) :
  run (failures k (errs ++ [e])) st
  = step (ECallback (2 * (k + length errs) + 2) Fired)
      (step (ECallback (2 * (k + length errs) + 1) (Err e)) (run (failures k errs) st)).
Proof.
  revert k st. induction errs as [| x errs IH]; intros k st.
  - simpl (k + length [])%nat. by rewrite Nat.add_0_r.
  - change (run (failures k ((x :: errs) ++ [e])) st)
      with (run (failures (S k) (errs ++ [e]))
              (run [ECallback (2 * k + 1) (Err x); ECallback (2 * k + 2) Fired] st)).
    rewrite IH.
    by replace (S k + length errs)%nat with (k + length (x :: errs))%nat by (simpl; lia).
Qed.

(** C3: a connection made with [{retries: r, interval: i}] against a broker
    that fails every attempt.  With [r > 0], after [r + 1] failures exactly
    [r + 1] attempts were made, each retry [i] milliseconds after the failure
    before it, and [initialized] is rejected with the last error; it is not
    settled by fewer failures.  With [r = 0] every failure is followed by the
    next attempt and [initialized] stays pending. *)
Theorem reconnect_attempts (errs : list error) (e : error) :
  let r := retries rs in
  let st0 := Connection_new url so rs in
  let n := length errs in
  (0 < r → n = Z.to_nat r →
   let st := run (failures 0 (errs ++ [e])) st0 in
   attempts_made st = S n
   ∧ calls st = attempt_calls url so rs n
   ∧ promises st !! 0%nat = Some (Rejected e)
   ∧ Connection.initialized (conn st) = Some 0%nat
   ∧ callbacks st = ∅)
  ∧ (0 < r → (n ≤ Z.to_nat r)%nat →
     let st := run (failures 0 errs) st0 in
     promises st !! 0%nat = promises st0 !! 0%nat
     ∧ callbacks st = {[ (2 * n + 1)%nat := CbConnect (Z.of_nat n) 0%nat ]})
  ∧ (r = 0 →
     let st := run (failures 0 errs) st0 in
     attempts_made st = S n
     ∧ promises st !! 0%nat = promises st0 !! 0%nat
     ∧ promises st0 !! 0%nat
       = Some (Pending [{| on_fulfilled := None; on_rejected := Some TConnectionCatch |}])
     ∧ callbacks st = {[ (2 * n + 1)%nat := CbConnect (Z.of_nat n) 0%nat ]}).
Proof.
  intros r st0 n.
  assert (Hleft : ∀ j : nat, (r = 0 ∨ Z.of_nat j < r) →
                             retry_left (blank url so rs) (Z.of_nat j) = true).
  { intros j Hj. unfold retry_left. simpl. fold r.
    destruct Hj as [-> | Hj]; [done |].
    apply orb_true_iff. right. apply Z.gtb_lt. lia. }
  split; [| split].
  - intros Hr Hn st.
    assert (Hk : attempting url so rs n (run (failures 0 errs) st0)).
    { apply (attempting_after errs 0 st0 attempting_first).
      intros j Hj. apply Hleft. right. lia. }
    assert (Hlast : retry_left (run (failures 0 errs) st0) (Z.of_nat n) = false).
    { rewrite (attempting_retry_left n _ Hk). unfold retry_left. simpl. fold r.
      apply orb_false_iff. split; [apply Z.eqb_neq; lia |].
      apply not_true_is_false. rewrite Z.gtb_lt. lia. }
    destruct (attempting_last n e _ Hk Hlast) as (Hp & Hi & Hg & Hcb & Hcl & Ht).
    assert (Hst : st = step (ECallback (2 * n + 1) (Err e)) (run (failures 0 errs) st0)).
    { unfold st. rewrite run_failures_app. simpl (0 + length errs)%nat. fold n.
      apply step_fire, fire_unknown. rewrite Hcb. apply lookup_empty. }
    rewrite Hst. repeat split; try done.
    unfold attempts_made. rewrite Hcl. apply attempts_made_calls.
  - intros Hr Hn st.
    destruct (attempting_after errs 0 st0 attempting_first) as (Hcb & _ & _ & Hp & _).
    { intros j Hj. apply Hleft. right. lia. }
    subst st. split; [by rewrite Hp | exact Hcb].
  - intros Hr st.
    destruct (attempting_after errs 0 st0 attempting_first) as (Hcb & _ & _ & Hp & _ & Hcl).
    { intros j Hj. apply Hleft. by left. }
    subst st. repeat split; try done.
    + unfold attempts_made. rewrite Hcl. apply attempts_made_calls.
    + by rewrite Hp.
Qed.

End Reconnect.

(** [{retries: 2, interval: 10}] against an unreachable broker: three
    attempts, then the rejection with the third error. *)
Lemma reconnect_attempts_witness :
  let st := run (H := Json.codec)
              (failures 0 ["ECONNREFUSED 1"; "ECONNREFUSED 2"; "ECONNREFUSED 3"])
              fresh_connection in
  (0 < retries {| retries := 2; interval := 10 |})
  ∧ attempts_made st = 3%nat
  ∧ promises st !! 0%nat = Some (Rejected "ECONNREFUSED 3").
Proof.
  destruct (reconnect_attempts (H := Json.codec) "amqp://localhost" ∅
              {| retries := 2; interval := 10 |}
              ["ECONNREFUSED 1"; "ECONNREFUSED 2"] "ECONNREFUSED 3") as (Hlast & _ & _).
  destruct Hlast as (Hn & _ & Hp & _); [simpl; lia | reflexivity |].
  split; [simpl; lia |]. split; [exact Hn | exact Hp].
Defined.

(** ** Declaring by name (claim C7) *)

Lemma declareExchange_registered (st : State) (name : string) (e : ref)
    (t : option string) (o : option props) :
  Connection._exchanges (conn st) !! name = Some e →
  Connection_declareExchange name t o st = (Ret (Declared e), st).
Proof. intros Hr. unfold Connection_declareExchange. munfold. by rewrite Hr. Qed.

Lemma declareQueue_registered (st : State) (name : string) (q : ref) (o : option props) :
  Connection._queues (conn st) !! name = Some q →
  Connection_declareQueue name o st = (Ret (Declared q), st).
Proof. intros Hr. unfold Connection_declareQueue. munfold. by rewrite Hr. Qed.

(** A name that [Object.prototype] defines and that is not registered: the
    value found there is returned and nothing is created. *)
Lemma declare_inherited (st : State) (name : string) (t : option string)
    (o : option props) :
  name ∈ Object_prototype →
  (Connection._exchanges (conn st) !! name = None →
   Connection_declareExchange name t o st = (Ret (Inherited name), st))
  ∧ (Connection._queues (conn st) !! name = None →
     Connection_declareQueue name o st = (Ret (Inherited name), st)).
Proof.
  intros Hin. split; intros Hr.
  - unfold Connection_declareExchange. munfold. by rewrite Hr, bool_decide_true.
  - unfold Connection_declareQueue. munfold. by rewrite Hr, bool_decide_true.
Qed.

Lemma then2_spec (p : pid) (r : reaction) (st : State) :
  ∃ st', then2 p r st = (Ret tt, st')
         ∧ conn st' = conn st ∧ exchanges st' = exchanges st ∧ queues st' = queues st
         ∧ next st' = next st ∧ calls st' = calls st ∧ callbacks st' = callbacks st.
Proof.
  unfold then2. munfold.
  destruct (promises st !! p) as [[rs | v | e] |]; eexists; (split; [reflexivity | done]).
Qed.

Lemma declareExchange_new (st : State) (name : string) (t : option string)
    (o : option props) :
  Connection._exchanges (conn st) !! name = None →
  name ∉ Object_prototype →
  ∃ st' E, Connection_declareExchange name t o st = (Ret (Declared (next st)), st')
           ∧ Connection._exchanges (conn st') = <[name := next st]> (Connection._exchanges (conn st))
           ∧ exchanges st' = <[next st := E]> (exchanges st)
           ∧ Exchange._name E = name ∧ Exchange._type E = t ∧ Exchange._options E = o
           ∧ Exchange.initialized E = Some (S (next st))
           ∧ calls st' = calls st.
Proof.
  intros Hr Hown. unfold Connection_declareExchange. munfold.
  rewrite Hr, bool_decide_false by done.
  unfold Exchange_new, alloc_exchange, Exchange__initialize, new_Promise, new_promise.
  msimpl. rewrite lookup_insert_eq. msimpl. cbn [Exchange._connection Exchange._name].
  msimpl.
  destruct (Connection.initialized (conn st)) as [i |].
  - unfold then_. msimpl.
    match goal with |- context [then2 i ?r ?s] =>
      destruct (then2_spec i r s) as (st1 & -> & Hc & He & Hq & Hn & Hcl & Hcb)
    end.
    msimpl.
    eexists _, _. split; [reflexivity |]. fields. rewrite Hc, He, Hcl. fields.
    rewrite alter_insert_eq. repeat split; reflexivity.
  - unfold reject. msimpl. rewrite lookup_insert_eq. msimpl.
    eexists _, _. split; [reflexivity |]. fields.
    rewrite alter_insert_eq. repeat split; reflexivity.
Qed.

Lemma declareQueue_new (st : State) (name : string) (o : option props) :
  Connection._queues (conn st) !! name = None →
  name ∉ Object_prototype →
  ∃ st' Q, Connection_declareQueue name o st = (Ret (Declared (next st)), st')
           ∧ Connection._queues (conn st') = <[name := next st]> (Connection._queues (conn st))
           ∧ queues st' = <[next st := Q]> (queues st)
           ∧ Queue._name Q = name ∧ Queue._options Q = o
           ∧ Queue.initialized Q = Some (S (next st))
           ∧ calls st' = calls st.
Proof.
  intros Hr Hown. unfold Connection_declareQueue. munfold.
  rewrite Hr, bool_decide_false by done.
  unfold Queue_new, alloc_queue, Queue__initialize, new_Promise, new_promise.
  msimpl. rewrite lookup_insert_eq. msimpl. cbn [Queue._connection Queue._name].
  msimpl. cbn [Connection.initialized Connection.with__queues].
  destruct (Connection.initialized (conn st)) as [i |].
  - unfold then_. msimpl.
    match goal with |- context [then2 i ?r ?s] =>
      destruct (then2_spec i r s) as (st1 & -> & Hc & He & Hq & Hn & Hcl & Hcb)
    end.
    msimpl.
    eexists _, _. split; [reflexivity |]. fields. rewrite Hc, Hq, Hcl. fields.
    rewrite alter_insert_eq. repeat split; reflexivity.
  - unfold reject. msimpl. rewrite lookup_insert_eq. msimpl.
    eexists _, _. split; [reflexivity |]. fields.
    rewrite alter_insert_eq. repeat split; reflexivity.
Qed.

(** Closing and deleting take the entry of the name out of the registry. *)
Lemma Exchange_close_unregisters (st : State) (e : ref) (E : Exchange.t) (p : pid) :
  exchanges st !! e = Some E → Exchange._connection E = Some this_connection →
  Connection._exchanges (conn (exec (run_TExchangeClose2 e p) st))
  = delete (Exchange._name E) (Connection._exchanges (conn st)).
Proof.
  intros HE Hc. unfold run_TExchangeClose2, unregister_exchange.
  repeat (msimpl; try rewrite lookup_alter, decide_True, HE by done;
          cbn [fmap option_fmap option_map Exchange.with_initialized Exchange._connection
               Exchange._name Exchange._channel]; try rewrite Hc).
  destruct (Exchange._channel E) as [ch |]; msimpl; [| reflexivity].
  destruct (decide (ch ∈ stale st)); msimpl; reflexivity.
Qed.

Lemma Queue_close_unregisters (st : State) (q : ref) (Q : Queue.t) (p : pid) :
  queues st !! q = Some Q → Queue._connection Q = Some this_connection →
  Connection._queues (conn (exec (run_TQueueClose2 q p) st))
  = delete (Queue._name Q) (Connection._queues (conn st)).
Proof.
  intros HQ Hc. unfold run_TQueueClose2, unregister_queue.
  repeat (msimpl; try rewrite lookup_alter, decide_True, HQ by done;
          cbn [fmap option_fmap option_map Queue.with_initialized Queue._connection
               Queue._name Queue._channel]; try rewrite Hc).
  destruct (Queue._channel Q) as [ch |]; msimpl; [| reflexivity].
  destruct (decide (ch ∈ stale st)); msimpl; reflexivity.
Qed.

Lemma Exchange_delete_unregisters (st : State) (e : ref) (E : Exchange.t) (p : pid)
    (err : option error) :
  exchanges st !! e = Some E → Exchange._connection E = Some this_connection →
  Connection._exchanges (conn (exec (on_CbExchangeDeleteClosed e p err) st))
  = delete (Exchange._name E) (Connection._exchanges (conn st)).
Proof.
  intros HE Hc. unfold on_CbExchangeDeleteClosed, unregister_exchange.
  repeat (msimpl; try rewrite lookup_alter, decide_True, HE by done;
          cbn [fmap option_fmap option_map Exchange.with_initialized Exchange._connection
               Exchange._name Exchange._channel]; try rewrite Hc).
  destruct err as [err |]; msimpl.
  - match goal with |- context [reject p err ?s] =>
      destruct (reject_settled p err s) as (st' & -> & _ & Hcn & _)
    end. msimpl. by rewrite Hcn.
  - match goal with |- context [resolve p VNull ?s] =>
      destruct (resolve_settled p VNull s) as (st' & -> & _ & Hcn & _)
    end. msimpl. by rewrite Hcn.
Qed.

Lemma Queue_delete_unregisters (st : State) (q : ref) (Q : Queue.t) (p : pid) (ok : jsval) :
  queues st !! q = Some Q → Queue._connection Q = Some this_connection →
  Connection._queues (conn (exec (on_CbDeleteQueue q p (inr ok)) st))
  = delete (Queue._name Q) (Connection._queues (conn st)).
Proof.
  intros HQ Hc. unfold on_CbDeleteQueue, unregister_queue.
  repeat (msimpl; try rewrite lookup_alter, decide_True, HQ by done;
          cbn [fmap option_fmap option_map Queue.with_initialized Queue._connection
               Queue._name Queue._channel]; try rewrite Hc).
  destruct (Queue._channel Q) as [ch |]; msimpl; [| reflexivity].
  destruct (decide (ch ∈ stale st)); msimpl; reflexivity.
Qed.

(** * Further properties of the facade *)

(** ** Running a computation along a path *)

(** Rewrite with the hypotheses that tell what a lookup or a field is. *)
Ltac mhyp :=
  match goal with
  | H : ?l = _ |- context [?l] => rewrite H
  end.

Ltac projs :=
  cbn [Exchange.initialized Exchange._connection Exchange._channel Exchange._name
       Exchange._type Exchange._options Exchange.with_initialized Exchange.with__connection
       Exchange.with__channel
       Queue.initialized Queue._connection Queue._channel Queue._name Queue._options
       Queue._consumer Queue._isStartConsumer Queue._rawConsumer Queue._consumerOptions
       Queue._consumerTag Queue._consumerInitialized Queue.with_initialized
       Queue.with__connection Queue.with__channel Queue.with__consumer
       Queue.with__isStartConsumer Queue.with__rawConsumer Queue.with__consumerOptions
       Queue.with__consumerTag Queue.with__consumerInitialized
       Binding.initialized Binding._source Binding._destination Binding._pattern
       Binding._args Binding.with_initialized
       Connection.initialized Connection.url Connection.socketOptions
       Connection.reconnectStrategy Connection.connectedBefore Connection._connection
       Connection._rebuilding Connection._exchanges Connection._queues Connection._bindings
       Connection.with_initialized Connection.with_connectedBefore
       Connection.with__connection Connection.with__rebuilding Connection.with__exchanges
       Connection.with__queues Connection.with__bindings
       Message.content Message.fields Message.properties Message._channel Message._message
       Message.with_content Message.with_properties
       fmap option_fmap option_map mbind option_bind id].

Ltac mrun :=
  repeat first
    [ progress msimpl
    | progress cbn [endpoint_name endpoint_initialized endpoint_channel endpoint_connection]
    | progress unfold isFulfilled, issued, logged, reported
    | progress (unfold derived_rejections; cbn [omap list_omap on_rejected])
    | mhyp
    | rewrite lookup_insert_eq
    | rewrite lookup_alter_eq
    | rewrite lookup_delete_eq
    | rewrite lookup_insert_ne by lia
    | rewrite lookup_delete_ne by lia
    | rewrite decide_False by done
    | rewrite decide_True by done
    | progress projs ].

Ltac fields_in H :=
  cbn [conn exchanges queues bindings messages cells promises joins tasks callbacks
       stale next calls logs unhandled
       upd_conn upd_exchanges upd_queues upd_bindings upd_messages upd_cells
       upd_promises upd_joins upd_tasks upd_callbacks upd_stale upd_next upd_calls
       upd_logs upd_unhandled fst snd] in H.

(** *** Steps of the machine *)

Lemma step_ret `{JSON} (ev : event) (st st' : State) :
  handle ev st = (Ret tt, st') → step ev st = st'.
Proof. intros Hf. unfold step. by rewrite Hf. Qed.

Lemma step_fire_ret `{JSON} (t : token) (res : cb_result) (st st' : State) :
  fire t res st = (Ret tt, st') → step (ECallback t res) st = st'.
Proof. apply (step_ret (ECallback t res)). Qed.

(** *** Calls on a channel *)

Lemma issued_app (l1 l2 : list libcall) (st : State) :
  issued l2 (issued l1 st) = issued (l1 ++ l2) st.
Proof. unfold issued, upd_calls. cbn. by rewrite app_assoc. Qed.

Lemma chan_call_live (ch : chan) (c : libcall) (st : State) :
  ch ∉ stale st → chan_call ch c st = (Ret tt, issued [c] st).
Proof. intros Hs. unfold chan_call. munfold. by rewrite decide_False. Qed.

Lemma chan_call_stale (ch : chan) (c : libcall) (st : State) :
  ch ∈ stale st → chan_call ch c st = (Throw "IllegalOperationError: Channel closed", st).
Proof. intros Hs. unfold chan_call. munfold. by rewrite decide_True. Qed.

(** *** Promises *)

Lemma rejected_promise_spec (e : error) (st : State) :
  rejects_with (rejected_promise e) (next st) (next st) e st.
Proof.
  unfold rejects_with, rejected_promise, new_Promise, new_promise, reject. msimpl.
  rewrite lookup_insert_eq. msimpl. eexists. split; [reflexivity |]. fields.
  rewrite lookup_insert_eq. simpl. rewrite app_nil_r. done.
Qed.

(** [.then(f)] on a promise that is rejected: [f] is dropped, and the
    rejection of the promise [.then] returns is reported. *)
Lemma then_rejected (i : pid) (t : task) (e : error) (st : State) :
  promises st !! i = Some (Rejected e) → then_ i t st = (Ret tt, reported [e] st).
Proof.
  intros Hi. unfold then_, then2. msimpl. rewrite Hi. msimpl.
  destruct st; unfold reported, upd_unhandled, upd_tasks; simpl. by rewrite app_nil_r.
Qed.

Lemma then_fulfilled (i : pid) (t : task) (v : jsval) (st : State) :
  promises st !! i = Some (Fulfilled v) →
  then_ i t st = (Ret tt, upd_tasks (λ q, q ++ [t]) st).
Proof. intros Hi. unfold then_, then2. msimpl. by rewrite Hi. Qed.

Lemma then_pending (i : pid) (t : task) (rs : list reaction) (st : State) :
  promises st !! i = Some (Pending rs) →
  then_ i t st
  = (Ret tt, upd_promises <[i := Pending (rs ++ [{| on_fulfilled := Some t;
                                                    on_rejected := None |}])]> st).
Proof. intros Hi. unfold then_, then2. msimpl. by rewrite Hi. Qed.

(** Whatever the state of the promise, [.then] touches the promises and the
    queue of the event loop only. *)
Lemma then2_frame (p : pid) (r : reaction) (st : State) :
  ∃ st', then2 p r st = (Ret tt, st')
         ∧ conn st' = conn st ∧ exchanges st' = exchanges st ∧ queues st' = queues st
         ∧ bindings st' = bindings st ∧ messages st' = messages st
         ∧ next st' = next st ∧ calls st' = calls st ∧ callbacks st' = callbacks st
         ∧ stale st' = stale st.
Proof.
  unfold then2. munfold.
  destruct (promises st !! p) as [[rs | v | e] |]; eexists; (split; [reflexivity | done]).
Qed.

Lemma then_frame (p : pid) (t : task) (st : State) :
  ∃ st', then_ p t st = (Ret tt, st')
         ∧ conn st' = conn st ∧ exchanges st' = exchanges st ∧ queues st' = queues st
         ∧ bindings st' = bindings st ∧ messages st' = messages st
         ∧ next st' = next st ∧ calls st' = calls st ∧ callbacks st' = callbacks st
         ∧ stale st' = stale st.
Proof. apply then2_frame. Qed.

Ltac frame_step lem :=
  let st' := fresh "st" in
  let Hc := fresh "Hconn" in let He := fresh "Hexchanges" in let Hq := fresh "Hqueues" in
  let Hb := fresh "Hbindings" in let Hm := fresh "Hmessages" in let Hn := fresh "Hnext" in
  let Hcl := fresh "Hcalls" in let Hcb := fresh "Hcallbacks" in let Hs := fresh "Hstale" in
  destruct lem as (st' & -> & Hc & He & Hq & Hb & Hm & Hn & Hcl & Hcb & Hs);
  fields; fields_in Hc; fields_in He; fields_in Hq; fields_in Hb; fields_in Hm;
  fields_in Hn; fields_in Hcl; fields_in Hcb; fields_in Hs.

Ltac then_step :=
  match goal with
  | |- context [then_ ?i ?t ?s] => frame_step (then_frame i t s)
  | |- context [then2 ?i ?r ?s] => frame_step (then2_frame i r s)
  end.

(** *** Keys of bindings *)

Lemma Binding_id_queue (q s : ref) (Q : Queue.t) (S0 : Exchange.t) (pattern : string)
    (st : State) :
  queues st !! q = Some Q → exchanges st !! s = Some S0 →
  Binding_id (EP_Queue q) s pattern st
  = (Ret (binding_key (Exchange._name S0) "Queue" (Queue._name Q) pattern), st).
Proof. intros HQ HS. unfold Binding_id. mrun. reflexivity. Qed.

Lemma Binding_id_exchange (d s : ref) (D S0 : Exchange.t) (pattern : string) (st : State) :
  exchanges st !! d = Some D → exchanges st !! s = Some S0 →
  Binding_id (EP_Exchange d) s pattern st
  = (Ret (binding_key (Exchange._name S0) "Exchange" (Exchange._name D) pattern), st).
Proof. intros HD HS. unfold Binding_id. mrun. reflexivity. Qed.

(** *** Names that [Object.prototype] defines *)

Lemma dotted_app (a b : string) : dotted (a +:+ "." +:+ b) = true.
Proof.
  change (dotted (a +:+ String "." b) = true).
  induction a as [| c a IH]; [done |].
  change (bool_decide (c = "."%char) || dotted (a +:+ String "." b) = true).
  rewrite IH. apply orb_true_r.
Qed.

(** [Object.prototype] defines no name with a dot in it. *)
Lemma dotted_own (s : string) : dotted s = true → s ∉ Object_prototype.
Proof.
  intros Hd Hin. unfold Object_prototype in Hin.
  repeat (apply elem_of_cons in Hin as [-> | Hin]; [vm_compute in Hd; discriminate |]).
  by apply elem_of_nil in Hin.
Qed.

(** The next step of a run: the innermost one that is not computed yet. *)
Ltac run_step :=
  match goal with
  | |- context [step ?ev ?s] =>
      lazymatch s with
      | context [step _ _] => fail
      | _ => erewrite (step_ret ev s); [| cbn [handle]]
      end
  end.

(** Loops over registries that are empty or hold one entry. *)
Ltac mloop :=
  repeat first
    [ progress mrun
    | rewrite map_to_list_empty
    | rewrite map_to_list_singleton
    | rewrite insert_singleton_eq
    | progress cbn [for_each collect app omap list_omap length option_list option_rect
                    on_fulfilled on_rejected default pred run_task] ].

(** ** The concrete states *)

Lemma e2_own : "e2" ∉ Object_prototype.
Proof. apply (bool_decide_unpack _). vm_compute. exact I. Qed.

Lemma constructor_inherited : "constructor" ∈ Object_prototype.
Proof. apply (bool_decide_unpack _). vm_compute. exact I. Qed.

Lemma ready_exchange : exchanges ready !! 2%nat = Some e1_object.
Proof. vm_compute. reflexivity. Qed.

Lemma ready_queue : queues ready !! 4%nat = Some q1_object.
Proof. vm_compute. reflexivity. Qed.

Lemma ready_message :
  messages ready !! 14%nat = Some (Message.with_content empty_message (utf8_bytes "hello")).
Proof. vm_compute. reflexivity. Qed.

Lemma ready_exchange_initialized :
  promises ready !! 3%nat = Some (Fulfilled (VObj [("exchange", VStr "e1")])).
Proof. vm_compute. reflexivity. Qed.

Lemma ready_queue_initialized :
  promises ready !! 5%nat = Some (Fulfilled (VObj [("queue", VStr "q1")])).
Proof. vm_compute. reflexivity. Qed.


Lemma ready_fresh : promises ready !! next ready = None.
Proof. vm_compute. reflexivity. Qed.


Lemma ready_idle : tasks ready = [].
Proof. vm_compute. reflexivity. Qed.

Lemma ready_connection :
  Connection.initialized (conn ready) = Some 0%nat
  ∧ Connection._connection (conn ready) = Some 6%nat
  ∧ Connection._exchanges (conn ready) !! "e2" = None
  ∧ Connection._bindings (conn ready) = ∅.
Proof. vm_compute. done. Qed.

Lemma ready_live (ch : chan) : ch ∉ stale ready.
Proof.
  assert (Hs : stale ready = ∅) by (vm_compute; reflexivity).
  rewrite Hs. apply not_elem_of_empty.
Qed.

Lemma opening_facts :
  callbacks opening !! 8%nat = Some (CbExchangeChannel 2 3)
  ∧ callbacks opening !! 9%nat = Some (CbQueueChannel 4 5)
  ∧ promises opening !! 3%nat = Some (Pending [])
  ∧ promises opening !! 5%nat = Some (Pending []).
Proof. vm_compute. done. Qed.

Lemma asserting_exchange :
  exchanges asserting !! 2%nat = Some e1_object
  ∧ callbacks asserting !! 11%nat = Some (CbExchangeAssert 2 3)
  ∧ promises asserting !! 3%nat = Some (Pending []).
Proof. vm_compute. done. Qed.

Lemma asserting_queue :
  queues asserting !! 4%nat = Some q1_object
  ∧ callbacks asserting !! 13%nat = Some (CbQueueAssert 4 5)
  ∧ promises asserting !! 5%nat = Some (Pending [])
  ∧ promises asserting !! next asserting = None.
Proof. vm_compute. done. Qed.

Lemma consuming_queue (f : consumer_fn) :
  queues (consuming f ∅) !! 4%nat = Some (q1_consumer f).
Proof. vm_compute. reflexivity. Qed.

Lemma consuming_callback (f : consumer_fn) :
  callbacks (consuming f ∅) !! 16%nat = Some (CbConsumer 4 processedMsgConsumer).
Proof. vm_compute. reflexivity. Qed.

Lemma consuming_live (f : consumer_fn) (ch : chan) : ch ∉ stale (consuming f ∅).
Proof.
  assert (Hs : stale (consuming f ∅) = ∅) by (vm_compute; reflexivity).
  rewrite Hs. apply not_elem_of_empty.
Qed.

Lemma stopped_queue : queues stopped !! 4%nat = Some q1_stopped.
Proof. vm_compute. reflexivity. Qed.

Lemma stopped_facts :
  promises stopped !! 5%nat = Some (Fulfilled (VObj [("queue", VStr "q1")]))
  ∧ promises stopped !! next stopped = None.
Proof. vm_compute. done. Qed.

Lemma stopped_live (ch : chan) : ch ∉ stale stopped.
Proof.
  assert (Hs : stale stopped = ∅) by (vm_compute; reflexivity).
  rewrite Hs. apply not_elem_of_empty.
Qed.

Lemma refused_facts :
  exchanges refused !! 2%nat = Some e1_object
  ∧ promises refused !! 3%nat = Some (Rejected "ACCESS_REFUSED").
Proof. vm_compute. done. Qed.

Lemma activated_queue (f : consumer_fn) :
  queues (activated f) !! 4%nat = Some (q1_activated f).
Proof. vm_compute. reflexivity. Qed.

Lemma activated_live (f : consumer_fn) (ch : chan) : ch ∉ stale (activated f).
Proof.
  assert (Hs : stale (activated f) = ∅) by (vm_compute; reflexivity).
  rewrite Hs. apply not_elem_of_empty.
Qed.

Lemma binding_facts :
  bindings binding !! 15%nat = Some b1_object
  ∧ queues binding !! 4%nat = Some q1_object
  ∧ exchanges binding !! 2%nat = Some e1_object
  ∧ promises binding !! 16%nat = Some (Pending [])
  ∧ callbacks binding !! 17%nat = Some (CbBind 15 16).
Proof. vm_compute. done. Qed.

Lemma broken_facts :
  exchanges broken !! 2%nat = Some e1_alone
  ∧ Connection._exchanges (conn broken) = {["e1" := 2%nat]}
  ∧ Connection._queues (conn broken) = ∅
  ∧ Connection._bindings (conn broken) = ∅
  ∧ Connection._rebuilding (conn broken) = false
  ∧ Connection.connectedBefore (conn broken) = true
  ∧ tasks broken = [TExchangeSend 2 "rk" (utf8_bytes "hi") ∅]
  ∧ stale broken = {[7%nat]}.
Proof. vm_compute. done. Qed.

Lemma q1_alone_facts :
  Connection._exchanges (conn q1_alone_consuming) = ∅
  ∧ Connection._queues (conn q1_alone_consuming) = {["q1" := 2%nat]}
  ∧ Connection._bindings (conn q1_alone_consuming) = ∅
  ∧ queues q1_alone_consuming !! 2%nat = Some q1_alone
  ∧ promises q1_alone_consuming !! 3%nat = Some (Fulfilled (VObj [("queue", VStr "q1")]))
  ∧ promises q1_alone_consuming !! 9%nat
    = Some (Fulfilled (VObj [("consumerTag", VStr "ctag-1")]))
  ∧ next q1_alone_consuming = 12%nat
  ∧ stale q1_alone_consuming = ∅
  ∧ tasks q1_alone_consuming = [].
Proof. vm_compute. done. Qed.

Lemma asserting_live (ch : chan) : ch ∉ stale asserting.
Proof.
  assert (Hs : stale asserting = ∅) by (vm_compute; reflexivity).
  rewrite Hs. apply not_elem_of_empty.
Qed.




Lemma hello_payload : Queue__unpackMessageContent (H := Json.codec) hello = Ret (VStr "hello").
Proof. vm_compute. reflexivity. Qed.

Lemma question_payload :
  Queue__unpackMessageContent (H := Json.codec) question = Ret (VStr "ping")
  ∧ truthy (get_prop (d_properties question) "replyTo") = true
  ∧ Queue__packMessageContent (H := Json.codec) (VStr "ping") ∅ = Ret (utf8_bytes "ping", ∅).
Proof. vm_compute. done. Qed.

Lemma hello_no_reply : truthy (get_prop (d_properties hello) "replyTo") = false.
Proof. vm_compute. reflexivity. Qed.

Lemma ready_no_consumer_queue :
  Connection._queues (conn ready)
    !! (Exchange._name e1_object +:+ "." +:+ "app" +:+ "." +:+ "host" +:+ "." +:+ pretty 42%Z)
  = None.
Proof. vm_compute. reflexivity. Qed.

(** ** Declaring by name *)

Section Declare.
Context `{JSON}.
Variables (url : string) (so : props) (rs : ReconnectStrategy) (evs : list event).

(** X1: in every state the machine reaches from [new Connection],
    [declareExchange] and [declareQueue] of a name that is registered return
    the registered object and change nothing, whatever type and options are
    passed; the object carries the name it is registered under. *)
Theorem declare_returns_the_registered_object :
  let st := run evs (Connection_new url so rs) in
  (∀ name e t o,
      Connection._exchanges (conn st) !! name = Some e →
      Connection_declareExchange name t o st = (Ret (Declared e), st)
      ∧ ∃ E, exchanges st !! e = Some E ∧ Exchange._name E = name)
  ∧ (∀ name q o,
      Connection._queues (conn st) !! name = Some q →
      Connection_declareQueue name o st = (Ret (Declared q), st)
      ∧ ∃ Q, queues st !! q = Some Q ∧ Queue._name Q = name).
Proof.
  intros st.
  assert (Hnamed : named st)
    by (apply run_named; [apply Connection_new_serialized | apply Connection_new_named]).
  destruct Hnamed as [Me Mq]. split.
  - intros name e t o Hr. split; [by apply declareExchange_registered | by apply Me].
  - intros name q o Hr. split; [by apply declareQueue_registered | by apply Mq].
Qed.

(** X2: in every state the machine reaches, [declareExchange] and
    [declareQueue] of a name that is not registered, and that
    [Object.prototype] does not define, make an object that did not exist,
    with the name, type and options passed, and register it, so that later
    declarations of the name return it; nothing is sent to the broker by the
    declaration itself. Of a name that is not registered and that
    [Object.prototype] defines (["constructor"], ["toString"], ...) they
    return what is found there, and make and register nothing. *)
Theorem declare_creates_and_registers :
  let st := run evs (Connection_new url so rs) in
  (∀ name t o,
      Connection._exchanges (conn st) !! name = None →
      name ∉ Object_prototype →
      ∃ st' E, Connection_declareExchange name t o st = (Ret (Declared (next st)), st')
               ∧ exchanges st !! next st = None
               ∧ exchanges st' !! next st = Some E
               ∧ Exchange._name E = name ∧ Exchange._type E = t ∧ Exchange._options E = o
               ∧ Connection._exchanges (conn st') !! name = Some (next st)
               ∧ calls st' = calls st
               ∧ ∀ t' o', Connection_declareExchange name t' o' st'
                          = (Ret (Declared (next st)), st'))
  ∧ (∀ name o,
      Connection._queues (conn st) !! name = None →
      name ∉ Object_prototype →
      ∃ st' Q, Connection_declareQueue name o st = (Ret (Declared (next st)), st')
               ∧ queues st !! next st = None
               ∧ queues st' !! next st = Some Q
               ∧ Queue._name Q = name ∧ Queue._options Q = o
               ∧ Connection._queues (conn st') !! name = Some (next st)
               ∧ calls st' = calls st
               ∧ ∀ o', Connection_declareQueue name o' st' = (Ret (Declared (next st)), st'))
  ∧ (∀ name t o,
      name ∈ Object_prototype →
      (Connection._exchanges (conn st) !! name = None →
       Connection_declareExchange name t o st = (Ret (Inherited name), st))
      ∧ (Connection._queues (conn st) !! name = None →
         Connection_declareQueue name o st = (Ret (Inherited name), st))).
Proof.
  intros st.
  assert (Hser : serialized st) by apply run_serialized, Connection_new_serialized.
  destruct Hser as ((W1 & W2 & W3) & _). split; [| split].
  - intros name t o Hr Hown.
    destruct (declareExchange_new st name t o Hr Hown)
      as (st' & E & Hd & Hreg & Hheap & Hn & Ht & Ho & _ & Hcalls).
    assert (Hl : Connection._exchanges (conn st') !! name = Some (next st))
      by (rewrite Hreg; apply lookup_insert_eq).
    exists st', E. repeat split; try done.
    + apply not_elem_of_dom. intros Hin. apply W2 in Hin. lia.
    + rewrite Hheap. apply lookup_insert_eq.
    + intros t' o'. by apply declareExchange_registered.
  - intros name o Hr Hown.
    destruct (declareQueue_new st name o Hr Hown)
      as (st' & Q & Hd & Hreg & Hheap & Hn & Ho & _ & Hcalls).
    assert (Hl : Connection._queues (conn st') !! name = Some (next st))
      by (rewrite Hreg; apply lookup_insert_eq).
    exists st', Q. repeat split; try done.
    + apply not_elem_of_dom. intros Hin. apply W3 in Hin. lia.
    + rewrite Hheap. apply lookup_insert_eq.
    + intros o'. by apply declareQueue_registered.
  - intros name t o Hin. by apply declare_inherited.
Qed.

End Declare.

(** X3: [close] and [delete] take the name out of the registry: [Exchange.close]
    and [Queue.close] before the channel is closed, [Queue.delete] when the
    broker confirmed the deletion, [Exchange.delete] when the channel is
    closed after that, also if closing failed. *)
Theorem close_and_delete_free_the_name (st : State) :
  (∀ e E p err,
      exchanges st !! e = Some E → Exchange._connection E = Some this_connection →
      Connection._exchanges (conn (exec (run_TExchangeClose2 e p) st)) !! Exchange._name E = None
      ∧ Connection._exchanges (conn (exec (on_CbExchangeDeleteClosed e p err) st))
          !! Exchange._name E = None)
  ∧ (∀ q Q p ok,
      queues st !! q = Some Q → Queue._connection Q = Some this_connection →
      Connection._queues (conn (exec (run_TQueueClose2 q p) st)) !! Queue._name Q = None
      ∧ Connection._queues (conn (exec (on_CbDeleteQueue q p (inr ok)) st))
          !! Queue._name Q = None).
Proof.
  split.
  - intros e E p err HE Hc. split.
    + rewrite (Exchange_close_unregisters st e E p HE Hc). apply lookup_delete_eq.
    + rewrite (Exchange_delete_unregisters st e E p err HE Hc). apply lookup_delete_eq.
  - intros q Q p ok HQ Hc. split.
    + rewrite (Queue_close_unregisters st q Q p HQ Hc). apply lookup_delete_eq.
    + rewrite (Queue_delete_unregisters st q Q p ok HQ Hc). apply lookup_delete_eq.
Qed.

(** ["e1"] is declared a second time, as a durable topic exchange. *)
Lemma declare_returns_the_registered_object_witness :
  let st := run (H := Json.codec) [ADeclareExchange "e1" (Some "direct") None]
              (Connection_new "amqp://localhost" ∅ {| retries := 2; interval := 10 |}) in
  Connection._exchanges (conn st) !! "e1" = Some 2%nat
  ∧ Connection_declareExchange "e1" (Some "topic") (Some {["durable" := VBool true]}) st
    = (Ret (Declared 2), st).
Proof.
  intros st.
  assert (Hreg : Connection._exchanges (conn st) !! "e1" = Some 2%nat)
    by (vm_compute; reflexivity).
  split; [exact Hreg |].
  destruct (declare_returns_the_registered_object (H := Json.codec) "amqp://localhost" ∅
              {| retries := 2; interval := 10 |}
              [ADeclareExchange "e1" (Some "direct") None]) as (Hsame & _).
  exact (proj1 (Hsame "e1" 2%nat (Some "topic") (Some {["durable" := VBool true]}) Hreg)).
Defined.

(** ["e2"] and ["constructor"] are declared after ["e1"]. *)
Lemma declare_creates_and_registers_witness :
  let st := run (H := Json.codec) [ADeclareExchange "e1" (Some "direct") None]
              (Connection_new "amqp://localhost" ∅ {| retries := 2; interval := 10 |}) in
  Connection._exchanges (conn st) !! "e2" = None
  ∧ (∃ st' E, Connection_declareExchange "e2" (Some "topic") None st
              = (Ret (Declared (next st)), st')
              ∧ exchanges st' !! next st = Some E
              ∧ Exchange._name E = "e2"
              ∧ calls st' = calls st)
  ∧ Connection._exchanges (conn st) !! "constructor" = None
  ∧ Connection_declareExchange "constructor" (Some "topic") None st
    = (Ret (Inherited "constructor"), st).
Proof.
  intros st.
  assert (Hreg : Connection._exchanges (conn st) !! "e2" = None)
    by (vm_compute; reflexivity).
  assert (Hreg' : Connection._exchanges (conn st) !! "constructor" = None)
    by (vm_compute; reflexivity).
  destruct (declare_creates_and_registers (H := Json.codec) "amqp://localhost" ∅
              {| retries := 2; interval := 10 |}
              [ADeclareExchange "e1" (Some "direct") None]) as (Hnew & _ & Hproto).
  destruct (Hnew "e2" (Some "topic") None Hreg e2_own)
    as (st' & E & Hd & _ & Hheap & Hn & _ & _ & _ & Hcalls & _).
  split; [exact Hreg |]. split; [by exists st', E |]. split; [exact Hreg' |].
  exact (proj1 (Hproto "constructor" (Some "topic") None constructor_inherited) Hreg').
Defined.

(** The exchange ["e1"] of [ready] is closed. *)
Lemma close_and_delete_free_the_name_witness :
  exchanges ready !! 2%nat = Some e1_object
  ∧ Connection._exchanges (conn (exec (run_TExchangeClose2 2 20) ready))
      !! Exchange._name e1_object = None.
Proof.
  assert (HE : exchanges ready !! 2%nat = Some e1_object) by (vm_compute; reflexivity).
  split; [exact HE |].
  destruct (close_and_delete_free_the_name ready) as (Hx & _).
  exact (proj1 (Hx 2%nat e1_object 20%nat None HE eq_refl)).
Defined.

(** ** Declarations the broker refuses, channels that cannot be opened *)

Section Declaration.
Context `{JSON}.

(** X4: When [assertExchange] or [assertQueue] reports an error, the name is
    taken out of the registry and [initialized] is rejected with the error of
    the broker; nothing is sent. *)
Theorem refused_declaration_frees_the_name (t : token) (p : pid) (rs : list reaction)
    (err : error) (st : State) :
  promises st !! p = Some (Pending rs) →
  (∀ e E,
      callbacks st !! t = Some (CbExchangeAssert e p) →
      exchanges st !! e = Some E →
      Exchange._connection E = Some this_connection →
      let st' := step (ECallback t (Err err)) st in
      Connection._exchanges (conn st')
      = delete (Exchange._name E) (Connection._exchanges (conn st))
      ∧ promises st' !! p = Some (Rejected err)
      ∧ calls st' = calls st)
  ∧ (∀ q Q,
      callbacks st !! t = Some (CbQueueAssert q p) →
      queues st !! q = Some Q →
      Queue._connection Q = Some this_connection →
      let st' := step (ECallback t (Err err)) st in
      Connection._queues (conn st')
      = delete (Queue._name Q) (Connection._queues (conn st))
      ∧ promises st' !! p = Some (Rejected err)
      ∧ calls st' = calls st).
Proof.
  intros Hp. split.
  - intros e E Ht HE Hc st'. subst st'.
    erewrite step_fire_ret.
    2:{ unfold fire. mrun. unfold on_CbExchangeAssert, reject. mrun. reflexivity. }
    by mrun.
  - intros q Q Ht HQ Hc st'. subst st'.
    erewrite step_fire_ret.
    2:{ unfold fire. mrun. unfold on_CbQueueAssert, reject. mrun. reflexivity. }
    by mrun.
Qed.

(** X5: When [createChannel] reports an error, [initialized] is rejected with it
    and the registry is left as it is: the name stays registered for an
    object that has no channel. *)
Theorem failed_channel_keeps_the_name (t : token) (p : pid) (rs : list reaction)
    (err : error) (st : State) :
  promises st !! p = Some (Pending rs) →
  (∀ e, callbacks st !! t = Some (CbExchangeChannel e p) →
        let st' := step (ECallback t (Err err)) st in
        conn st' = conn st ∧ exchanges st' = exchanges st
        ∧ promises st' !! p = Some (Rejected err) ∧ calls st' = calls st)
  ∧ (∀ q, callbacks st !! t = Some (CbQueueChannel q p) →
          let st' := step (ECallback t (Err err)) st in
          conn st' = conn st ∧ queues st' = queues st
          ∧ promises st' !! p = Some (Rejected err) ∧ calls st' = calls st).
Proof.
  intros Hp. split.
  - intros e Ht st'. subst st'.
    erewrite step_fire_ret.
    2:{ unfold fire. mrun. unfold on_CbExchangeChannel, reject. mrun. reflexivity. }
    by mrun.
  - intros q Ht st'. subst st'.
    erewrite step_fire_ret.
    2:{ unfold fire. mrun. unfold on_CbQueueChannel, reject. mrun. reflexivity. }
    by mrun.
Qed.

(** ** From the declaration to the broker and back *)


(** X7: [Exchange.delete] on an exchange that is ready, on a connection
    without bindings: the exchange is deleted at the broker and, when the
    broker has confirmed, its channel is closed; until the channel is closed
    the name stays registered, the object is as it was and the promise is
    pending; when it is closed the name is taken out of the registry, the
    object is invalidated and the promise is fulfilled. *)
Theorem exchange_delete_round_trip (e : ref) (E : Exchange.t) (i : pid) (v0 v v' : jsval)
    (ch : chan) (st : State) :
  exchanges st !! e = Some E →
  Exchange.initialized E = Some i →
  promises st !! i = Some (Fulfilled v0) →
  Exchange._connection E = Some this_connection →
  Exchange._channel E = Some ch →
  ch ∉ stale st →
  Connection._bindings (conn st) = ∅ →
  promises st !! next st = None →
  tasks st = [] →
  let n := next st in
  let st0 := run [AExchangeDelete e; ERunTask; ERunTask] st in
  let st1 := step (ECallback (S (S n)) (Ok v)) st0 in
  let st' := step (ECallback (S (S (S n))) (Ok v')) st1 in
  calls st0 = calls st ++ [LDeleteExchange ch (Exchange._name E) (S (S n))]
  ∧ (calls st1 = calls st0 ++ [LChannelClose ch (S (S (S n)))]
     ∧ Connection._exchanges (conn st1) = Connection._exchanges (conn st)
     ∧ exchanges st1 !! e = Some E
     ∧ promises st1 !! n = Some (Pending []))
  ∧ (calls st' = calls st1
     ∧ Connection._exchanges (conn st')
       = delete (Exchange._name E) (Connection._exchanges (conn st))
     ∧ exchanges st' !! e
       = Some {| Exchange.initialized := None; Exchange._connection := None;
                 Exchange._channel := None; Exchange._name := Exchange._name E;
                 Exchange._type := Exchange._type E;
                 Exchange._options := Exchange._options E |}
     ∧ promises st' !! n = Some (Fulfilled VNull)
     ∧ unhandled st' = unhandled st).
Proof.
  intros HE Hi Hp Hc Hch Hs Hb Hfresh Ht n st0 st1 st'. subst n st0 st1 st'.
  assert (Hne : next st ≠ i) by (intros Heq; rewrite Heq in Hfresh; congruence).
  unfold run. cbn [foldl].
  run_step.
  2:{ unfold Exchange_delete, new_Promise, new_promise. mrun.
      rewrite (then_fulfilled i _ v0) by (fields; by rewrite lookup_insert_ne).
      mrun. reflexivity. }
  run_step.
  2:{ unfold run_next. mrun. cbn [app run_task].
      unfold run_TExchangeDelete1, Binding_removeBindingsContaining. mrun.
      rewrite map_to_list_empty. cbn [collect]. mrun.
      unfold Promise_all, new_promise. mrun. cbn [omap list_omap length]. mrun.
      unfold resolve. mrun. cbn [omap list_omap]. mrun.
      rewrite (then_fulfilled (S (next st)) _ VNull) by (fields; by rewrite lookup_insert_eq).
      mrun. reflexivity. }
  run_step.
  2:{ unfold run_next. mrun. cbn [app run_task].
      unfold run_TExchangeDelete2. mrun. reflexivity. }
  run_step.
  2:{ unfold fire. mrun. unfold on_CbDeleteExchange. mrun. reflexivity. }
  run_step.
  2:{ unfold fire. mrun.
      unfold on_CbExchangeDeleteClosed, unregister_exchange, resolve. mrun. reflexivity. }
  mrun. split; [done |]. split; [done |]. destruct E. done.
Qed.

End Declaration.

(** The broker refuses ["e1"]. *)
Lemma refused_declaration_frees_the_name_witness :
  let st' := step (H := Json.codec) (ECallback 11 (Err "ACCESS_REFUSED")) asserting in
  Connection._exchanges (conn st')
  = delete (Exchange._name e1_object) (Connection._exchanges (conn asserting))
  ∧ promises st' !! 3%nat = Some (Rejected "ACCESS_REFUSED")
  ∧ calls st' = calls asserting.
Proof.
  destruct asserting_exchange as (HE & Hcb & Hp).
  destruct (refused_declaration_frees_the_name (H := Json.codec) 11 3 [] "ACCESS_REFUSED"
              asserting Hp) as (Hx & _).
  exact (Hx 2%nat e1_object Hcb HE eq_refl).
Defined.

(** The channel of ["e1"] cannot be opened. *)
Lemma failed_channel_keeps_the_name_witness :
  let st' := step (H := Json.codec) (ECallback 8 (Err "channel error")) opening in
  conn st' = conn opening ∧ exchanges st' = exchanges opening
  ∧ promises st' !! 3%nat = Some (Rejected "channel error") ∧ calls st' = calls opening.
Proof.
  destruct opening_facts as (Hcb & _ & Hp & _).
  destruct (failed_channel_keeps_the_name (H := Json.codec) 8 3 [] "channel error"
              opening Hp) as (Hx & _).
  exact (Hx 2%nat Hcb).
Defined.


(** ["e1"] is deleted. *)
Lemma exchange_delete_round_trip_witness :
  let n := next ready in
  let st0 := run (H := Json.codec) [AExchangeDelete 2; ERunTask; ERunTask] ready in
  let st1 := step (H := Json.codec) (ECallback (S (S n)) (Ok VNull)) st0 in
  let st' := step (H := Json.codec) (ECallback (S (S (S n))) (Ok VNull)) st1 in
  calls st0 = calls ready ++ [LDeleteExchange 10 (Exchange._name e1_object) (S (S n))]
  ∧ (calls st1 = calls st0 ++ [LChannelClose 10 (S (S (S n)))]
     ∧ Connection._exchanges (conn st1) = Connection._exchanges (conn ready)
     ∧ exchanges st1 !! 2%nat = Some e1_object
     ∧ promises st1 !! n = Some (Pending []))
  ∧ Connection._exchanges (conn st')
    = delete (Exchange._name e1_object) (Connection._exchanges (conn ready))
  ∧ promises st' !! n = Some (Fulfilled VNull).
Proof.
  destruct ready_connection as (_ & _ & _ & Hb).
  destruct (exchange_delete_round_trip (H := Json.codec) 2 e1_object 3
              (VObj [("exchange", VStr "e1")]) VNull VNull 10 ready
              ready_exchange eq_refl ready_exchange_initialized eq_refl eq_refl
              (ready_live _) Hb ready_fresh ready_idle)
    as (Hc0 & H1 & _ & Hreg & _ & Hp & _).
  exact (conj Hc0 (conj H1 (conj Hreg Hp))).
Defined.

(** ** Publishing *)

Section Publishing.
Context `{JSON}.

Lemma pack_buffer (c : list byte) (o : props) :
  Queue__packMessageContent (VBuf c) o = Ret (c, o).
Proof. reflexivity. Qed.

Lemma normalize_buffer (c : list byte) (o : props) :
  Exchange_publish_normalize (VBuf c) o = Ret (c, o).
Proof. reflexivity. Qed.

Lemma Queue_publish_ready (q : ref) (Q : Queue.t) (i : pid) (v : jsval)
    (ch : chan) (c : jsval) (o o' : props) (b : list byte) (st : State) :
  queues st !! q = Some Q →
  Queue.initialized Q = Some i →
  promises st !! i = Some (Fulfilled v) →
  Queue._channel Q = Some ch →
  ch ∉ stale st →
  Queue__packMessageContent c o = Ret (b, o') →
  Queue_publish q c o st
  = (Ret tt, issued [LSendToQueue ch (VStr (Queue._name Q)) b o'] st).
Proof.
  intros HQ Hi Hp Hch Hs Hpk. unfold Queue_publish. mrun.
  unfold Queue_publish_sendMessage. mrun. reflexivity.
Qed.

(** X8: On an exchange and a queue that are both ready, [Exchange.publish] hands
    its message to the channel in the next turn of the event loop, while
    [Queue.publish] does so at once: a message published to the queue after
    one published to the exchange reaches the library first. *)
Theorem publish_order (e q : ref) (E : Exchange.t) (Q : Queue.t) (ie iq : pid)
    (ve vq : jsval) (che chq : chan) (ca cb : jsval) (rk : string) (oa ob oa' ob' : props)
    (ba bb : list byte) (st : State) :
  exchanges st !! e = Some E → Exchange.initialized E = Some ie →
  promises st !! ie = Some (Fulfilled ve) →
  Exchange._channel E = Some che → che ∉ stale st →
  queues st !! q = Some Q → Queue.initialized Q = Some iq →
  promises st !! iq = Some (Fulfilled vq) →
  Queue._channel Q = Some chq → chq ∉ stale st →
  tasks st = [] →
  Exchange_publish_normalize ca oa = Ret (ba, oa') →
  Queue__packMessageContent cb ob = Ret (bb, ob') →
  calls (step (AExchangePublish e ca rk oa) st) = calls st
  ∧ calls (run [AExchangePublish e ca rk oa; AQueuePublish q cb ob; ERunTask] st)
    = calls st ++ [LSendToQueue chq (VStr (Queue._name Q)) bb ob';
                   LPublish che (Exchange._name E) rk (Some ba) oa'].
Proof.
  intros HE Hie Hpe Hche Hse HQ Hiq Hpq Hchq Hsq Ht Hn Hpk.
  assert (H1 : handle (AExchangePublish e ca rk oa) st
               = (Ret tt, upd_tasks (λ q, q ++ [TExchangeSend e rk ba oa']) st)).
  { cbn [handle]. unfold Exchange_publish. mrun.
    by rewrite (then_fulfilled ie _ ve) by done. }
  split; [by rewrite (step_ret _ _ _ H1) |].
  unfold run. cbn [foldl]. rewrite (step_ret _ _ _ H1).
  run_step.
  2:{ rewrite (Queue_publish_ready q Q iq vq chq cb ob ob' bb) by done. reflexivity. }
  run_step.
  2:{ unfold run_next. mrun. cbn [app run_task]. unfold run_TExchangeSend. mrun.
      reflexivity. }
  mrun. by rewrite <- app_assoc.
Qed.

(** X9: [Queue.send] and [Exchange.send] pass the message to [Message.sendTo],
    which publishes at once on a destination that is ready: to a queue
    through the default exchange with the name of the queue as the routing
    key, whatever routing key was passed; to an exchange with the routing key
    passed. *)
Theorem sendTo_addresses (m : ref) (msg : Message.t) (i : pid) (v : jsval) (ch : chan)
    (rk : string) (st : State) :
  messages st !! m = Some msg →
  promises st !! i = Some (Fulfilled v) →
  ch ∉ stale st →
  (∀ q Q,
      queues st !! q = Some Q → Queue.initialized Q = Some i → Queue._channel Q = Some ch →
      Queue_send q m rk st
      = (Ret tt, issued [LPublish ch "" (Queue._name Q) (Message.content msg)
                           (Message.properties msg)] st))
  ∧ (∀ e E,
      exchanges st !! e = Some E → Exchange.initialized E = Some i →
      Exchange._channel E = Some ch →
      Exchange_send e m rk st
      = (Ret tt, issued [LPublish ch (Exchange._name E) rk (Message.content msg)
                           (Message.properties msg)] st)).
Proof.
  intros Hm Hp Hs. split.
  - intros q Q HQ Hi Hch. unfold Queue_send, Message_sendTo. mrun.
    unfold Message_sendTo_sendMessage. mrun. reflexivity.
  - intros e E HE Hi Hch. unfold Exchange_send, Message_sendTo. mrun.
    unfold Message_sendTo_sendMessage. mrun. reflexivity.
Qed.

(** X10: Publishing to an exchange or a queue whose [initialized] is rejected
    (the channel could not be opened, or the broker refused the declaration)
    sends nothing and queues nothing, and the caller gets no error: the
    message is lost. The one trace is the rejection, with the error of the
    declaration, of the promise [initialized.then] returns, which nothing
    handles. *)
Theorem publish_after_failed_declaration_is_dropped (i : pid) (err : error) (st : State) :
  promises st !! i = Some (Rejected err) →
  (∀ e E c rk o b o',
      exchanges st !! e = Some E → Exchange.initialized E = Some i →
      Exchange_publish_normalize c o = Ret (b, o') →
      Exchange_publish e c rk o st = (Ret tt, reported [err] st))
  ∧ (∀ q Q c o b o',
      queues st !! q = Some Q → Queue.initialized Q = Some i →
      Queue__packMessageContent c o = Ret (b, o') →
      Queue_publish q c o st = (Ret tt, reported [err] st))
  ∧ (∀ m e E rk,
      exchanges st !! e = Some E → Exchange.initialized E = Some i →
      Message_sendTo m (EP_Exchange e) rk st = (Ret tt, reported [err] st))
  ∧ (∀ m q Q rk,
      queues st !! q = Some Q → Queue.initialized Q = Some i →
      Message_sendTo m (EP_Queue q) rk st = (Ret tt, reported [err] st)).
Proof.
  intros Hp. split; [| split; [| split]].
  - intros e E c rk o b o' HE Hi Hn. unfold Exchange_publish. mrun.
    by rewrite (then_rejected _ _ _ _ Hp).
  - intros q Q c o b o' HQ Hi Hpk. unfold Queue_publish. mrun.
    by rewrite (then_rejected _ _ _ _ Hp).
  - intros m e E rk HE Hi. unfold Message_sendTo. mrun.
    by rewrite (then_rejected _ _ _ _ Hp).
  - intros m q Q rk HQ Hi. unfold Message_sendTo. mrun.
    by rewrite (then_rejected _ _ _ _ Hp).
Qed.

(** X11: The retransmission after a rebuild looks the destination up by its name
    and publishes the bytes, routing key and options of the failed call
    unchanged; if the name is not registered any more it throws, and the
    message is not sent. *)
Theorem retransmission_repeats_the_message (name : string) (c : list byte) (rk : string)
    (o : props) (st : State) :
  (∀ e E i v,
      Connection._exchanges (conn st) !! name = Some e →
      exchanges st !! e = Some E → Exchange.initialized E = Some i →
      promises st !! i = Some (Fulfilled v) →
      run_TExchangeRetransmit name c rk o st
      = (Ret tt, upd_tasks (λ q, q ++ [TExchangeSend e rk c o])
                   (logged "debug" "Retransmitting message." st)))
  ∧ (∀ q Q i v ch,
      Connection._queues (conn st) !! name = Some q →
      queues st !! q = Some Q → Queue.initialized Q = Some i →
      promises st !! i = Some (Fulfilled v) →
      Queue._channel Q = Some ch → ch ∉ stale st →
      run_TQueueRetransmit name c o st
      = (Ret tt, issued [LSendToQueue ch (VStr (Queue._name Q)) c o]
                   (logged "debug" "Retransmitting message." st)))
  ∧ (Connection._exchanges (conn st) !! name = None →
     run_TExchangeRetransmit name c rk o st
     = (Throw "TypeError: exchange is undefined",
        logged "debug" "Retransmitting message." st))
  ∧ (Connection._queues (conn st) !! name = None →
     run_TQueueRetransmit name c o st
     = (Throw "TypeError: queue is undefined",
        logged "debug" "Retransmitting message." st)).
Proof.
  split; [| split; [| split]].
  - intros e E i v Hr HE Hi Hp. unfold run_TExchangeRetransmit. mrun.
    unfold Exchange_publish. mrun. rewrite normalize_buffer. mrun.
    by rewrite (then_fulfilled _ _ v) by done.
  - intros q Q i v ch Hr HQ Hi Hp Hch Hs. unfold run_TQueueRetransmit. mrun.
    by rewrite (Queue_publish_ready q Q i v ch (VBuf c) o o c).
  - intros Hr. unfold run_TExchangeRetransmit. mrun. reflexivity.
  - intros Hr. unfold run_TQueueRetransmit. mrun. reflexivity.
Qed.

(** X12: A publish that finds the channel of the exchange closed, on a connection
    whose only object is that exchange: the connection is made again, the
    exchange is declared again on a new channel with its name, type and
    options, and when the rebuild is complete the bytes, routing key and
    options of the failed call are published on the new channel; no error
    escapes. *)
Theorem publish_survives_a_closed_channel (e : ref) (E : Exchange.t) (ch : chan)
    (rk : string) (b : list byte) (o : props) (v v' ok : jsval) (st : State) :
  exchanges st !! e = Some E →
  Exchange._connection E = Some this_connection →
  Exchange._channel E = Some ch →
  ch ∈ stale st →
  S (S (S (S (S (S (S (S (next st)))))))) ∉ stale st →
  Connection._exchanges (conn st) = {[Exchange._name E := e]} →
  Connection._queues (conn st) = ∅ →
  Connection._bindings (conn st) = ∅ →
  Connection._rebuilding (conn st) = false →
  Connection.connectedBefore (conn st) = true →
  tasks st = [TExchangeSend e rk b o] →
  let n := next st in
  let l := S (S (S (S (S n)))) in
  let ch' := S (S (S l)) in
  let st' := run [ERunTask;
                  ECallback (S n) (Ok v);
                  ERunTask;
                  ECallback (S (S l)) (Ok v');
                  ECallback (S ch') (Ok ok);
                  ERunTask; ERunTask; ERunTask; ERunTask] st in
  calls st' = calls st ++
    [LConnect (Connection.url (conn st)) (Connection.socketOptions (conn st)) (S n);
     LOnError l (S l);
     LCreateChannel l (S (S l));
     LAssertExchange ch' (Exchange._name E) (Exchange._type E) (Exchange._options E) (S ch');
     LPublish ch' (Exchange._name E) rk (Some b) o]
  ∧ tasks st' = []
  ∧ unhandled st' = unhandled st.
Proof.
  intros HE Hc Hch Hs Hs' Hre Hrq Hrb Hg Hcb Ht n l ch' st'. subst n l ch' st'.
  unfold run. cbn [foldl].
  run_step.
  2:{ unfold run_next. mloop. unfold run_TExchangeSend. mloop.
      unfold Connection__rebuildAll, Connection_rebuildConnection, new_Promise, new_promise,
        Connection_tryToConnect. mloop.
      unfold then2. mloop.
      unfold Exchange__initialize, new_Promise, new_promise. mloop.
      unfold then_, then2. mloop.
      unfold Connection_completeConfiguration. mloop.
      unfold Promise_all, new_promise. mloop.
      unfold then2. mloop. reflexivity. }
  run_step.
  2:{ unfold fire. mloop. unfold on_CbConnect, rebuild_callback, resolve. mloop.
      reflexivity. }
  run_step.
  2:{ unfold run_next. mloop. unfold run_TExchangeInit. mloop. reflexivity. }
  run_step.
  2:{ unfold fire. mloop. unfold on_CbExchangeChannel. mloop. reflexivity. }
  run_step.
  2:{ unfold fire. mloop. unfold on_CbExchangeAssert, resolve. mloop. reflexivity. }
  run_step.
  2:{ unfold run_next. mloop. unfold run_TAllPart, resolve. mloop. reflexivity. }
  run_step.
  2:{ unfold run_next. mloop. unfold run_TRebuildDone, resolve. mloop. reflexivity. }
  run_step.
  2:{ unfold run_next. mloop. unfold run_TExchangeRetransmit. mloop.
      unfold Exchange_publish. mloop. cbn [Exchange_publish_normalize]. mloop.
      unfold then_, then2. mloop. reflexivity. }
  run_step.
  2:{ unfold run_next. mloop. unfold run_TExchangeSend. mloop. reflexivity. }
  mloop. rewrite <- !app_assoc. done.
Qed.

End Publishing.

(** ["first"] goes to the exchange, then ["second"] to the queue. *)
Lemma publish_order_witness :
  calls (run (H := Json.codec)
           [AExchangePublish 2 (VStr "first") "rk" ∅; AQueuePublish 4 (VStr "second") ∅;
            ERunTask] ready)
  = calls ready ++ [LSendToQueue 12 (VStr (Queue._name q1_object)) (utf8_bytes "second") ∅;
                    LPublish 10 (Exchange._name e1_object) "rk" (Some (utf8_bytes "first")) ∅].
Proof.
  exact (proj2 (publish_order (H := Json.codec) 2 4 e1_object q1_object 3 5 _ _ 10 12
                  (VStr "first") (VStr "second") "rk" ∅ ∅ ∅ ∅ _ _ ready
                  ready_exchange eq_refl ready_exchange_initialized eq_refl (ready_live _)
                  ready_queue eq_refl ready_queue_initialized eq_refl (ready_live _)
                  ready_idle eq_refl eq_refl)).
Defined.

(** The message ["hello"] is sent to the queue with a routing key. *)
Lemma sendTo_addresses_witness :
  Queue_send 4 14 "ignored" ready
  = (Ret tt, issued [LPublish 12 "" (Queue._name q1_object)
                       (Message.content (Message.with_content empty_message
                                           (utf8_bytes "hello")))
                       (Message.properties (Message.with_content empty_message
                                              (utf8_bytes "hello")))] ready).
Proof.
  exact (proj1 (sendTo_addresses 14 _ 5 _ 12 "ignored" ready
                  ready_message ready_queue_initialized (ready_live _))
           4%nat q1_object ready_queue eq_refl eq_refl).
Defined.

(** A publish to the exchange the broker refused. *)
Lemma publish_after_failed_declaration_is_dropped_witness :
  Exchange_publish (H := Json.codec) 2 (VStr "lost") "rk" ∅ refused
  = (Ret tt, reported ["ACCESS_REFUSED"] refused).
Proof.
  destruct refused_facts as (HE & Hp).
  exact (proj1 (publish_after_failed_declaration_is_dropped (H := Json.codec) 3
                  "ACCESS_REFUSED" refused Hp)
           2%nat e1_object (VStr "lost") "rk" ∅ (utf8_bytes "lost") ∅ HE eq_refl eq_refl).
Defined.

(** A retransmission to ["e1"]. *)
Lemma retransmission_repeats_the_message_witness :
  run_TExchangeRetransmit (H := Json.codec) "e1" (utf8_bytes "again") "rk" ∅ ready
  = (Ret tt, upd_tasks (λ q, q ++ [TExchangeSend 2 "rk" (utf8_bytes "again") ∅])
               (logged "debug" "Retransmitting message." ready)).
Proof.
  assert (Hr : Connection._exchanges (conn ready) !! "e1" = Some 2%nat)
    by (vm_compute; reflexivity).
  exact (proj1 (retransmission_repeats_the_message (H := Json.codec) "e1"
                  (utf8_bytes "again") "rk" ∅ ready)
           2%nat e1_object 3%nat _ Hr ready_exchange eq_refl ready_exchange_initialized).
Defined.

(** ["hi"] reaches the broker on the channel of the second connection. *)
Lemma publish_survives_a_closed_channel_witness :
  let n := next broken in
  let l := S (S (S (S (S n)))) in
  let ch' := S (S (S l)) in
  let st' := run (H := Json.codec)
               [ERunTask;
                ECallback (S n) (Ok VNull);
                ERunTask;
                ECallback (S (S l)) (Ok VNull);
                ECallback (S ch') (Ok (VObj [("exchange", VStr "e1")]));
                ERunTask; ERunTask; ERunTask; ERunTask] broken in
  calls st' = calls broken ++
    [LConnect (Connection.url (conn broken)) (Connection.socketOptions (conn broken)) (S n);
     LOnError l (S l);
     LCreateChannel l (S (S l));
     LAssertExchange ch' (Exchange._name e1_alone) (Exchange._type e1_alone)
       (Exchange._options e1_alone) (S ch');
     LPublish ch' (Exchange._name e1_alone) "rk" (Some (utf8_bytes "hi")) ∅]
  ∧ tasks st' = []
  ∧ unhandled st' = unhandled broken.
Proof.
  destruct broken_facts as (HE & Hre & Hrq & Hrb & Hg & Hcb & Ht & Hs).
  assert (Hin : 7%nat ∈ stale broken) by (rewrite Hs; apply elem_of_singleton_2; reflexivity).
  assert (Hout : S (S (S (S (S (S (S (S (next broken)))))))) ∉ stale broken).
  { rewrite Hs. apply not_elem_of_singleton_2. vm_compute. lia. }
  exact (publish_survives_a_closed_channel (H := Json.codec) 2 e1_alone 7 "rk"
           (utf8_bytes "hi") ∅ VNull VNull (VObj [("exchange", VStr "e1")]) broken
           HE eq_refl eq_refl Hin Hout Hre Hrq Hrb Hg Hcb Ht).
Defined.

(** ** Remote procedure calls *)

Section Rpc.
Context `{JSON}.

(** X13: [Exchange.rpc] does not wait for [initialized]: it consumes from the
    reply queue on the channel the exchange has when it is called, and
    nothing is queued.  On an exchange that has no channel yet, or whose
    channel is closed, the promise it returns is rejected at once. *)
Theorem Exchange_rpc_does_not_wait (e : ref) (E : Exchange.t) (rq : jsval) (rk : string)
    (st : State) :
  exchanges st !! e = Some E →
  ∃ st', Exchange_rpc e rq rk st = (Ret (next st), st')
         ∧ tasks st' = tasks st
         ∧ match Exchange._channel E with
           | Some ch =>
               if decide (ch ∈ stale st) then
                 calls st' = calls st
                 ∧ promises st' !! next st
                   = Some (Rejected "IllegalOperationError: Channel closed")
               else
                 calls st' = calls st ++
                   [LConsume ch DIRECT_REPLY_TO_QUEUE (Some {["noAck" := VBool true]})
                      (S (S (next st))) (S (S (S (next st))))]
                 ∧ promises st' !! next st = Some (Pending [])
           | None =>
               calls st' = calls st
               ∧ promises st' !! next st = Some (Rejected "TypeError: _channel is undefined")
           end.
Proof.
  intros HE. unfold Exchange_rpc, new_Promise, new_promise. mrun.
  destruct (Exchange._channel E) as [ch |]; mrun.
  - destruct (decide (ch ∈ stale st)); mrun.
    + unfold reject. mrun. eexists. split; [reflexivity |]. mrun. simpl.
      by rewrite app_nil_r.
    + eexists. split; [reflexivity |]. by mrun.
  - unfold reject. mrun. eexists. split; [reflexivity |]. mrun. simpl.
    by rewrite app_nil_r.
Qed.

(** X14: [Queue.rpc] on a queue that is not initialized yet calls nothing: it
    leaves the request to a function that runs when [initialized] is
    fulfilled. *)
Theorem Queue_rpc_waits_for_initialized (q : ref) (Q : Queue.t) (i : pid)
    (rs : list reaction) (rq : jsval) (st : State) :
  queues st !! q = Some Q →
  Queue.initialized Q = Some i →
  promises st !! i = Some (Pending rs) →
  promises st !! next st = None →
  Queue_rpc q rq st
  = (Ret (next st),
     upd_promises <[i := Pending (rs ++ [{| on_fulfilled :=
                                              Some (TQueueProcessRpc q (next st) rq);
                                            on_rejected := None |}])]>
       (upd_promises <[next st := Pending []]> (upd_next S st))).
Proof.
  intros HQ Hi Hp Hfresh.
  assert (Hne : next st ≠ i) by (intros Heq; rewrite Heq in Hfresh; congruence).
  unfold Queue_rpc, new_Promise, new_promise. mrun.
  try (rewrite lookup_insert_ne, Hp by done).
  rewrite (then_pending i _ rs) by (fields; by rewrite lookup_insert_ne).
  reflexivity.
Qed.



End Rpc.

(** ["e1"] has a channel but the broker has not confirmed it yet. *)
Lemma Exchange_rpc_does_not_wait_witness :
  ∃ st', Exchange_rpc 2 (VStr "ping") "rk" asserting
         = (Ret (next asserting), st')
         ∧ tasks st' = tasks asserting
         ∧ calls st' = calls asserting ++
             [LConsume 10 DIRECT_REPLY_TO_QUEUE (Some {["noAck" := VBool true]})
                (S (S (next asserting))) (S (S (S (next asserting))))]
         ∧ promises st' !! next asserting = Some (Pending []).
Proof.
  destruct (Exchange_rpc_does_not_wait 2 e1_object (VStr "ping") "rk"
              asserting (proj1 asserting_exchange)) as (st' & Hr & Ht & Hc).
  change (Exchange._channel e1_object) with (Some 10%nat) in Hc.
  destruct (decide (10%nat ∈ stale asserting)) as [Hin | _].
  - destruct (asserting_live _ Hin).
  - exact (ex_intro _ st' (conj Hr (conj Ht Hc))).
Defined.

(** ["q1"] is declared but not confirmed. *)
Lemma Queue_rpc_waits_for_initialized_witness :
  Queue_rpc 4 (VStr "ping") asserting
  = (Ret (next asserting),
     upd_promises <[5%nat := Pending ([] ++ [{| on_fulfilled :=
                                              Some (TQueueProcessRpc 4 (next asserting)
                                                      (VStr "ping"));
                                            on_rejected := None |}])]>
       (upd_promises <[next asserting := Pending []]> (upd_next S asserting))).
Proof.
  destruct asserting_queue as (HQ & _ & Hp & Hfresh).
  exact (Queue_rpc_waits_for_initialized 4 q1_object 5 [] (VStr "ping")
           asserting HQ eq_refl Hp Hfresh).
Defined.


(** ** Consumers *)

Section Consumers.
Context `{JSON}.

(** The three ways out of the [try] block of a wrapper. *)
Lemma try_consumer_done (body : M (option thrown)) (st st1 : State) :
  body st = (Ret None, st1) → try_consumer body st = (Ret tt, st1).
Proof. intros Hb. unfold try_consumer. munfold. by rewrite Hb. Qed.

Lemma try_consumer_thrown (body : M (option thrown)) (err : thrown) (st st1 : State) :
  body st = (Ret (Some err), st1) → try_consumer body st = consumer_error err st1.
Proof. intros Hb. unfold try_consumer. munfold. by rewrite Hb. Qed.

Lemma try_consumer_error (body : M (option thrown)) (err : error) (st st1 : State) :
  body st = (Throw err, st1) → try_consumer body st = consumer_error (Thrown err) st1.
Proof. intros Hb. unfold try_consumer. munfold. by rewrite Hb. Qed.

(** What is left of a delivery when the wrapper is done: the calls and the
    lines of the log may have grown, a [Message] may have been made. *)
Ltac wrapper_cases :=
  repeat (mrun;
          match goal with
          | |- context [match ?x with _ => _ end] =>
              lazymatch x with
              | context [match _ with _ => _ end] => fail
              | _ => destruct x eqn:?
              end
          end);
  mrun.

(** X17: The function the facade hands to [channel.consume] returns normally,
    whatever the delivery is, as long as the callback of the consumer does
    not throw [null] or [undefined]: an exception of the callback, of the
    decoding, of the reply or of the acknowledgement does not reach the
    library. When the callback throws [null] or [undefined], the [catch]
    block itself throws, and a [TypeError] reaches the library; nothing is
    logged and nothing is sent. *)
Theorem consumer_errors_are_contained (q : ref) (w : wrapper) (t : token) (st : State) :
  callbacks st !! t = Some (CbConsumer q w) →
  (∀ msg,
      (∀ Q f a, queues st !! q = Some Q → Queue._consumer Q = Some f →
                f a ≠ Throws ThrownNull ∧ f a ≠ Throws ThrownUndefined) →
      ∃ st', on_CbConsumer q w msg st = (Ret tt, st')
             ∧ step (ECallback t (Msg msg)) st = st'
             ∧ unhandled st' = unhandled st)
  ∧ (∀ msg Q f payload nothing,
      queues st !! q = Some Q → Queue._consumer Q = Some f →
      nothing = ThrownNull ∨ nothing = ThrownUndefined →
      (∀ a, f a = Throws nothing) →
      Queue__unpackMessageContent msg = Ret payload →
      ∃ st' err, on_CbConsumer q w (Some msg) st = (Throw err, st')
                 ∧ step (ECallback t (Msg (Some msg))) st = reported [err] st'
                 ∧ (err = "TypeError: Cannot read property 'message' of null"
                    ∨ err = "TypeError: Cannot read property 'message' of undefined")
                 ∧ calls st' = calls st ∧ logs st' = logs st).
Proof.
  intros Ht. split.
  - intros msg Hsafe.
    assert (Hw : ∃ st', on_CbConsumer q w msg st = (Ret tt, st')
                        ∧ unhandled st' = unhandled st).
    { destruct w; cbn [on_CbConsumer];
        unfold Queue_processedMsgConsumer, Queue_rawMsgConsumer,
          Queue_activateConsumerWrapper, try_consumer, consumer_error, send_reply,
          alloc_message;
        wrapper_cases;
        try (eexists; split; [reflexivity | reflexivity]);
        match goal with
        | Hf : Queue._consumer ?Q = Some ?f, Hr : ?f ?a = Throws _ |- _ =>
            destruct (Hsafe Q f a eq_refl Hf); congruence
        end. }
    destruct Hw as (st' & Hw & Hu). exists st'. split; [exact Hw |].
    split; [| exact Hu]. apply step_fire_ret. unfold fire. mrun. reflexivity.
  - intros msg Q f payload nothing HQ Hf Hn Hnull Hp.
    assert (Hw : ∃ st' err, on_CbConsumer q w (Some msg) st = (Throw err, st')
                   ∧ (err = "TypeError: Cannot read property 'message' of null"
                      ∨ err = "TypeError: Cannot read property 'message' of undefined")
                   ∧ calls st' = calls st ∧ logs st' = logs st).
    { unfold Queue__unpackMessageContent in Hp.
      destruct Hn as [-> | ->];
        destruct w; cbn [on_CbConsumer];
        unfold Queue_processedMsgConsumer, Queue_rawMsgConsumer,
          Queue_activateConsumerWrapper, try_consumer, alloc_message,
          Queue__unpackMessageContent;
        mrun; cbn [Message_new Message_setContent Message.with_content Message.content
                   Message.properties]; mrun;
        rewrite Hnull; mrun; cbn [consumer_error]; mrun;
        (eexists _, _; split; [reflexivity | split; [by auto | done]]). }
    destruct Hw as (st' & err & Hw & Herr & Hc & Hl). exists st', err.
    split; [exact Hw |]. split; [| done].
    unfold step. cbn [handle]. unfold fire. mrun. reflexivity.
Qed.

(** X18: The consumer of [startConsumer] acknowledges a delivery after the
    callback has returned, unless [noAck] is [true]; that is all it does when
    the delivery names no [replyTo]. *)
Theorem processed_consumer_acks_after_callback (q : ref) (Q : Queue.t) (f : consumer_fn)
    (msg : delivery) (payload result : jsval) (o : props) (ch : chan) (st : State) :
  queues st !! q = Some Q →
  Queue._consumer Q = Some f →
  Queue._consumerOptions Q = Some o →
  Queue._channel Q = Some ch →
  ch ∉ stale st →
  Queue__unpackMessageContent msg = Ret payload →
  f (ArgPayload payload) = Returns result →
  truthy (get_prop (d_properties msg) "replyTo") = false →
  Queue_processedMsgConsumer q (Some msg) st
  = (Ret tt, if strict_eq_true (get_prop o "noAck") then st
             else issued [LAck ch (Some msg) VUndefined] st).
Proof.
  intros HQ Hf Ho Hch Hs Hp Hr Hre.
  unfold Queue_processedMsgConsumer, try_consumer, send_reply. mrun.
  destruct (strict_eq_true (get_prop o "noAck")); mrun; reflexivity.
Qed.

(** X19: When the delivery names a [replyTo], the result of the callback is packed
    like a published content and sent to that queue on the channel of the
    consumer, before the acknowledgement. *)
Theorem processed_consumer_replies_then_acks (q : ref) (Q : Queue.t) (f : consumer_fn)
    (msg : delivery) (payload result : jsval) (o ro : props) (b : list byte) (ch : chan)
    (st : State) :
  queues st !! q = Some Q →
  Queue._consumer Q = Some f →
  Queue._consumerOptions Q = Some o →
  Queue._channel Q = Some ch →
  ch ∉ stale st →
  Queue__unpackMessageContent msg = Ret payload →
  f (ArgPayload payload) = Returns result →
  truthy (get_prop (d_properties msg) "replyTo") = true →
  Queue__packMessageContent result ∅ = Ret (b, ro) →
  Queue_processedMsgConsumer q (Some msg) st
  = (Ret tt, issued (LSendToQueue ch (get_prop (d_properties msg) "replyTo") b ro
                     :: if strict_eq_true (get_prop o "noAck") then []
                        else [LAck ch (Some msg) VUndefined]) st).
Proof.
  intros HQ Hf Ho Hch Hs Hp Hr Hre Hpk.
  unfold Queue_processedMsgConsumer, try_consumer, send_reply. mrun.
  destruct (strict_eq_true (get_prop o "noAck")); mrun; [reflexivity |].
  unfold upd_calls. cbn. by rewrite <- app_assoc.
Qed.

(** X20: When the callback throws an [Error], or when the content of the
    delivery cannot be decoded, the consumer of [startConsumer] writes the
    message of the error to the log and does nothing else: no
    acknowledgement, no rejection, no reply. When the callback throws [null]
    or [undefined] nothing is logged either: the [catch] block throws a
    [TypeError], which leaves the wrapper. *)
Theorem processed_consumer_failure_is_not_acked (q : ref) (msg : delivery) (st : State) :
  let dropped err :=
    (Ret tt, logged "error" ("Queue.onMessage consumer function returned error: " +:+ err)
               st) in
  (∀ Q f payload err,
      queues st !! q = Some Q →
      Queue._consumer Q = Some f →
      Queue__unpackMessageContent msg = Ret payload →
      f (ArgPayload payload) = Throws (Thrown err) →
      Queue_processedMsgConsumer q (Some msg) st = dropped err)
  ∧ (∀ err, Queue__unpackMessageContent msg = Throw err →
            Queue_processedMsgConsumer q (Some msg) st = dropped err)
  ∧ (∀ Q f payload,
      queues st !! q = Some Q →
      Queue._consumer Q = Some f →
      Queue__unpackMessageContent msg = Ret payload →
      (f (ArgPayload payload) = Throws ThrownNull →
       Queue_processedMsgConsumer q (Some msg) st
       = (Throw "TypeError: Cannot read property 'message' of null", st))
      ∧ (f (ArgPayload payload) = Throws ThrownUndefined →
         Queue_processedMsgConsumer q (Some msg) st
         = (Throw "TypeError: Cannot read property 'message' of undefined", st))).
Proof.
  intros dropped. subst dropped. split; [| split].
  - intros Q f payload err HQ Hf Hp Hr.
    unfold Queue_processedMsgConsumer, try_consumer. mrun. reflexivity.
  - intros err Hp. unfold Queue_processedMsgConsumer, try_consumer. mrun. reflexivity.
  - intros Q f payload HQ Hf Hp.
    split; intros Hr; unfold Queue_processedMsgConsumer, try_consumer; mrun; reflexivity.
Qed.

(** X21: The consumer of [activateConsumer] makes a [Message] with the
    content, fields and properties of the delivery and calls the callback
    with it. When the callback returns and the delivery names no [replyTo],
    that is all: the delivery is not acknowledged; with a [replyTo] the
    result is packed and sent to that queue; when the callback throws an
    [Error] its message is logged. [ack], [nack] and [reject] of the
    [Message] act on the delivery, on the channel of the queue. *)
Theorem activated_consumer_gets_the_message (q : ref) (Q : Queue.t) (f : consumer_fn)
    (msg : delivery) (ch : chan) (v : jsval) (st : State) :
  queues st !! q = Some Q →
  Queue._consumer Q = Some f →
  Queue._channel Q = Some ch →
  ch ∉ stale st →
  let message := received ch msg in
  let st' := upd_messages <[next st := message]> (upd_next S st) in
  (∀ result,
      f (ArgMessage message) = Returns result →
      truthy (get_prop (d_properties msg) "replyTo") = false →
      Queue_activateConsumerWrapper q (Some msg) st = (Ret tt, st'))
  ∧ (∀ result b ro,
      f (ArgMessage message) = Returns result →
      truthy (get_prop (d_properties msg) "replyTo") = true →
      Queue__packMessageContent result ∅ = Ret (b, ro) →
      Queue_activateConsumerWrapper q (Some msg) st
      = (Ret tt, issued [LSendToQueue ch (get_prop (d_properties msg) "replyTo") b ro] st'))
  ∧ (∀ err,
      f (ArgMessage message) = Throws (Thrown err) →
      Queue_activateConsumerWrapper q (Some msg) st
      = (Ret tt, logged "error"
                   ("Queue.onMessage consumer function returned error: " +:+ err) st'))
  ∧ Message_getContent message = Queue__unpackMessageContent msg
  ∧ Message_ack (next st) v st' = (Ret tt, issued [LAck ch (Some msg) v] st')
  ∧ Message_nack (next st) v st' = (Ret tt, issued [LNack ch (Some msg) v] st')
  ∧ Message_reject (next st) v st' = (Ret tt, issued [LReject ch (Some msg) v] st').
Proof.
  intros HQ Hf Hch Hs message st'. subst message st'.
  split; [| split; [| split; [| split; [reflexivity |]]]].
  - intros result Hr Hre.
    unfold Queue_activateConsumerWrapper, try_consumer, alloc_message, send_reply. mrun.
    cbn [Message_new Message_setContent Message.with_content Message.content
         Message.properties Message.fields].
    mrun. fold (received ch msg). rewrite Hr. mrun. reflexivity.
  - intros result b ro Hr Hre Hpk.
    unfold Queue_activateConsumerWrapper, try_consumer, alloc_message, send_reply. mrun.
    cbn [Message_new Message_setContent Message.with_content Message.content
         Message.properties Message.fields].
    mrun. fold (received ch msg). rewrite Hr. mrun. reflexivity.
  - intros err Hr.
    unfold Queue_activateConsumerWrapper, try_consumer, alloc_message. mrun.
    cbn [Message_new Message_setContent Message.with_content Message.content
         Message.properties Message.fields].
    mrun. fold (received ch msg). rewrite Hr. mrun. cbn [consumer_error]. mrun.
    reflexivity.
  - unfold Message_ack, Message_nack, Message_reject. mrun.
    cbn [received Message._channel Message._message]. mrun. done.
Qed.

(** X22: The consumer of [startConsumer] with [rawMessage] passes the delivery
    and the channel of the queue to the callback and does nothing with what
    the callback returns: no reply, no acknowledgement. When the callback
    throws an [Error] its message is logged; when it throws [null] or
    [undefined] the [catch] block throws a [TypeError], which leaves the
    wrapper. *)
Theorem raw_consumer_is_left_to_acknowledge (q : ref) (Q : Queue.t) (f : consumer_fn)
    (msg : option delivery) (st : State) :
  queues st !! q = Some Q →
  Queue._consumer Q = Some f →
  Queue_rawMsgConsumer q msg st
  = match f (ArgRaw msg (Queue._channel Q)) with
    | Returns _ => (Ret tt, st)
    | Throws (Thrown err) =>
        (Ret tt, logged "error"
                   ("Queue.onMessage consumer function returned error: " +:+ err) st)
    | Throws ThrownNull => (Throw "TypeError: Cannot read property 'message' of null", st)
    | Throws ThrownUndefined =>
        (Throw "TypeError: Cannot read property 'message' of undefined", st)
    end.
Proof.
  intros HQ Hf. unfold Queue_rawMsgConsumer, try_consumer. mrun.
  destruct (f (ArgRaw msg (Queue._channel Q))) as [r | [err | |]]; mrun; reflexivity.
Qed.

(** X23: A queue has one consumer at a time: while one is defined,
    [startConsumer] and [activateConsumer] return a promise that is rejected
    and leave the consumer that is there in place; without one,
    [stopConsumer] returns a promise that is rejected. Nothing is sent. *)
Theorem queue_consumer_guards (q : ref) (Q : Queue.t) (f : consumer_fn) (o : props)
    (st : State) :
  queues st !! q = Some Q →
  (∀ ci, Queue._consumerInitialized Q = Some ci →
         rejects_with (Queue_startConsumer q f o) (next st) (next st)
           "amqp-ts Queue.startConsumer error: consumer already defined" st
         ∧ rejects_with (Queue_activateConsumer q f o) (next st) (next st)
             "amqp-ts Queue.activateConsumer error: consumer already defined" st)
  ∧ (Queue._consumerInitialized Q = None →
     rejects_with (Queue_stopConsumer q) (next st) (next st)
       "amqp-ts Queue.cancelConsumer error: no consumer defined" st).
Proof.
  intros HQ. split; [intros ci Hci; split | intros Hci].
  - unfold rejects_with, Queue_startConsumer. mrun. apply rejected_promise_spec.
  - unfold rejects_with, Queue_activateConsumer. mrun. apply rejected_promise_spec.
  - unfold rejects_with, Queue_stopConsumer. mrun. apply rejected_promise_spec.
Qed.

(** [stopConsumer] forgets the consumer but not its kind. *)
Lemma stopped_consumer_keeps_its_kind (q : ref) (Q : Queue.t) (p : pid) (st : State) :
  queues st !! q = Some Q →
  ∃ Q', queues (exec (on_CbCancel q p None) st) !! q = Some Q'
        ∧ Queue._consumerInitialized Q' = None
        ∧ Queue._isStartConsumer Q' = Queue._isStartConsumer Q
        ∧ Queue._rawConsumer Q' = Queue._rawConsumer Q.
Proof.
  intros HQ. unfold on_CbCancel. msimpl.
  match goal with |- context [resolve p VNull ?s] =>
    destruct (resolve_settled p VNull s) as (st' & -> & _ & _ & _ & _ & _ & _ & Hq)
  end.
  fields. rewrite Hq. mrun. eexists. split; [reflexivity |]. done.
Qed.

(** X24: Neither [stopConsumer] nor [activateConsumer] resets the mark
    [startConsumer] leaves on the queue: on a queue that [startConsumer] was
    used on before, the callback passed to [activateConsumer] is wrapped like
    a callback of [startConsumer], and is called with the payload or the raw
    delivery, not with a [Message]. *)
Theorem activateConsumer_after_startConsumer (q : ref) (Q : Queue.t) (i : pid) (v : jsval)
    (ch : chan) (f : consumer_fn) (o : props) (st : State) :
  queues st !! q = Some Q →
  Queue._consumerInitialized Q = None →
  Queue._isStartConsumer Q = true →
  Queue.initialized Q = Some i →
  promises st !! i = Some (Fulfilled v) →
  promises st !! next st = None →
  Queue._channel Q = Some ch →
  ch ∉ stale st →
  ∃ st1, Queue_activateConsumer q f o st = (Ret (next st), st1)
         ∧ tasks st1 = tasks st ++ [TQueueConsume q (next st)]
         ∧ ∃ st2, run_TQueueConsume q (next st) st1 = (Ret tt, st2)
                  ∧ callbacks st2 !! S (next st)
                    = Some (CbConsumer q (if Queue._rawConsumer Q then rawMsgConsumer
                                          else processedMsgConsumer)).
Proof.
  intros HQ Hci Hs Hi Hp Hfresh Hch Hst.
  assert (Hne : next st ≠ i) by (intros Heq; rewrite Heq in Hfresh; congruence).
  unfold Queue_activateConsumer, Queue__initializeConsumer, new_Promise, new_promise.
  mrun. rewrite (then_fulfilled i _ v) by (fields; by rewrite lookup_insert_ne).
  mrun. eexists. split; [reflexivity |]. fields. split; [reflexivity |].
  unfold run_TQueueConsume. mrun.
  eexists. split; [reflexivity |]. by mrun.
Qed.

End Consumers.

(** A delivery to a consumer whose callback throws an [Error]. *)
Lemma consumer_errors_are_contained_witness :
  ∃ st', on_CbConsumer (H := Json.codec) 4 processedMsgConsumer (Some hello)
           (consuming failing ∅) = (Ret tt, st')
         ∧ step (H := Json.codec) (ECallback 16 (Msg (Some hello))) (consuming failing ∅) = st'
         ∧ unhandled st' = unhandled (consuming failing ∅).
Proof.
  apply (proj1 (consumer_errors_are_contained (H := Json.codec) 4 processedMsgConsumer 16
                  (consuming failing ∅) (consuming_callback failing))).
  intros Q f a HQ Hf. rewrite consuming_queue in HQ. injection HQ as <-.
  injection Hf as <-. split; discriminate.
Defined.

(** ["hello"] is delivered to a consumer that returns what it gets. *)
Lemma processed_consumer_acks_after_callback_witness :
  Queue_processedMsgConsumer (H := Json.codec) 4 (Some hello) (consuming echo ∅)
  = (Ret tt, issued [LAck 12 (Some hello) VUndefined] (consuming echo ∅)).
Proof.
  exact (processed_consumer_acks_after_callback (H := Json.codec) 4 (q1_consumer echo) echo
           hello (VStr "hello") (VStr "hello") ∅ 12 (consuming echo ∅)
           (consuming_queue echo) eq_refl eq_refl eq_refl (consuming_live echo _)
           hello_payload eq_refl hello_no_reply).
Defined.

(** ["ping"] is delivered with [replyTo] set to ["answers"]. *)
Lemma processed_consumer_replies_then_acks_witness :
  Queue_processedMsgConsumer (H := Json.codec) 4 (Some question) (consuming echo ∅)
  = (Ret tt, issued [LSendToQueue 12 (get_prop (d_properties question) "replyTo")
                       (utf8_bytes "ping") ∅;
                     LAck 12 (Some question) VUndefined] (consuming echo ∅)).
Proof.
  destruct question_payload as (Hp & Hre & Hpk).
  exact (processed_consumer_replies_then_acks (H := Json.codec) 4 (q1_consumer echo) echo
           question (VStr "ping") (VStr "ping") ∅ ∅ (utf8_bytes "ping") 12 (consuming echo ∅)
           (consuming_queue echo) eq_refl eq_refl eq_refl (consuming_live echo _)
           Hp eq_refl Hre Hpk).
Defined.

(** The callback throws [null]. *)
Lemma processed_consumer_failure_is_not_acked_witness :
  Queue_processedMsgConsumer (H := Json.codec) 4 (Some hello) (consuming throwing_null ∅)
  = (Throw "TypeError: Cannot read property 'message' of null", consuming throwing_null ∅).
Proof.
  destruct (processed_consumer_failure_is_not_acked (H := Json.codec) 4 hello
              (consuming throwing_null ∅)) as (_ & _ & Hnull).
  exact (proj1 (Hnull (q1_consumer throwing_null) throwing_null (VStr "hello")
                  (consuming_queue throwing_null) eq_refl hello_payload) eq_refl).
Defined.

(** ["hello"] is delivered to a consumer of [activateConsumer] that throws. *)
Lemma activated_consumer_gets_the_message_witness :
  let st := activated failing in
  let st' := upd_messages <[next st := received 12 hello]> (upd_next S st) in
  Queue_activateConsumerWrapper (H := Json.codec) 4 (Some hello) st
  = (Ret tt, logged "error" ("Queue.onMessage consumer function returned error: " +:+ "boom")
               st')
  ∧ Message_ack (next st) VUndefined st'
    = (Ret tt, issued [LAck 12 (Some hello) VUndefined] st').
Proof.
  destruct (activated_consumer_gets_the_message (H := Json.codec) 4 (q1_activated failing)
              failing hello 12 VUndefined (activated failing)
              (activated_queue failing) eq_refl eq_refl (activated_live failing _))
    as (_ & _ & Hthrows & _ & Hack & _).
  exact (conj (Hthrows "boom" eq_refl) Hack).
Defined.

(** The raw wrapper on the queue of [consuming throwing_null ∅]. *)
Lemma raw_consumer_is_left_to_acknowledge_witness :
  Queue_rawMsgConsumer 4 (Some hello) (consuming throwing_null ∅)
  = (Throw "TypeError: Cannot read property 'message' of null", consuming throwing_null ∅).
Proof.
  exact (raw_consumer_is_left_to_acknowledge 4 (q1_consumer throwing_null) throwing_null
           (Some hello) (consuming throwing_null ∅) (consuming_queue throwing_null) eq_refl).
Defined.

(** A second consumer on ["q1"]. *)
Lemma queue_consumer_guards_witness :
  let st := consuming echo ∅ in
  rejects_with (Queue_startConsumer 4 failing ∅) (next st) (next st)
    "amqp-ts Queue.startConsumer error: consumer already defined" st
  ∧ rejects_with (Queue_activateConsumer 4 failing ∅) (next st) (next st)
      "amqp-ts Queue.activateConsumer error: consumer already defined" st.
Proof.
  exact (proj1 (queue_consumer_guards 4 (q1_consumer echo) failing ∅
                  (consuming echo ∅) (consuming_queue echo)) 15%nat eq_refl).
Defined.

(** [activateConsumer] on ["q1"] after [startConsumer] and [stopConsumer]. *)
Lemma activateConsumer_after_startConsumer_witness :
  ∃ st1, Queue_activateConsumer 4 echo ∅ stopped = (Ret (next stopped), st1)
         ∧ tasks st1 = tasks stopped ++ [TQueueConsume 4 (next stopped)]
         ∧ ∃ st2, run_TQueueConsume 4 (next stopped) st1 = (Ret tt, st2)
                  ∧ callbacks st2 !! S (next stopped)
                    = Some (CbConsumer 4 processedMsgConsumer).
Proof.
  destruct stopped_facts as (Hp & Hfresh).
  exact (activateConsumer_after_startConsumer 4 q1_stopped 5 _ 12 echo ∅ stopped
           stopped_queue eq_refl eq_refl eq_refl Hp Hfresh eq_refl (stopped_live _)).
Defined.

(** ** Bindings *)

Section Bindings.
Context `{JSON}.

(** X25: [unbind] of a binding that is not registered under the key of the
    destination, the source and the pattern throws a [TypeError] at the
    caller; it does not return a promise. *)
Theorem unbind_without_binding_throws (s : ref) (S0 : Exchange.t) (pattern : string)
    (args : props) (st : State) :
  exchanges st !! s = Some S0 →
  (∀ q Q,
      queues st !! q = Some Q → Queue._connection Q = Some this_connection →
      Connection._bindings (conn st)
        !! binding_key (Exchange._name S0) "Queue" (Queue._name Q) pattern = None →
      unbind (EP_Queue q) s pattern args st = (Throw "TypeError: binding is undefined", st))
  ∧ (∀ d D,
      exchanges st !! d = Some D → Exchange._connection D = Some this_connection →
      Connection._bindings (conn st)
        !! binding_key (Exchange._name S0) "Exchange" (Exchange._name D) pattern = None →
      unbind (EP_Exchange d) s pattern args st
      = (Throw "TypeError: binding is undefined", st)).
Proof.
  intros HS. split.
  - intros q Q HQ Hc Hb. unfold unbind. mrun.
    rewrite (Binding_id_queue q s Q S0 pattern st HQ HS). mrun. reflexivity.
  - intros d D HD Hc Hb. unfold unbind. mrun.
    rewrite (Binding_id_exchange d s D S0 pattern st HD HS). mrun. reflexivity.
Qed.

(** X26: [bind] registers the binding under a key made of the names of the source
    and the destination and of the pattern, before anything is sent to the
    broker; [unbind] with the same source and pattern finds it, whatever
    arguments it is passed, and sends nothing either while the queue is not
    ready. *)
Theorem bind_then_unbind (q s : ref) (Q : Queue.t) (S0 : Exchange.t) (i : pid)
    (pattern : string) (args args' : props) (st : State) :
  queues st !! q = Some Q →
  Queue._connection Q = Some this_connection →
  Queue.initialized Q = Some i →
  exchanges st !! s = Some S0 →
  let id := binding_key (Exchange._name S0) "Queue" (Queue._name Q) pattern in
  ∃ st1,
    bind (EP_Queue q) s pattern args st = (Ret (Some (S (next st))), st1)
    ∧ Connection._bindings (conn st1) = <[id := next st]> (Connection._bindings (conn st))
    ∧ bindings st1 !! next st
      = Some {| Binding.initialized := Some (S (next st)); Binding._source := s;
                Binding._destination := EP_Queue q; Binding._pattern := pattern;
                Binding._args := args |}
    ∧ ∃ st2,
        unbind (EP_Queue q) s pattern args' st1 = (Ret (S (S (next st))), st2)
        ∧ Connection._bindings (conn st2) = Connection._bindings (conn st1)
        ∧ calls st2 = calls st.
Proof.
  intros HQ Hc Hi HS id. subst id.
  unfold bind, Binding_new, alloc_binding. mrun.
  rewrite (Binding_id_queue q s Q S0 pattern) by done. mrun.
  unfold Binding__initialize, new_Promise, new_promise. mrun.
  then_step. mrun.
  eexists. split; [reflexivity |]. mrun.
  split; [reflexivity |]. split; [reflexivity |].
  unfold unbind. mrun.
  rewrite (Binding_id_queue q s Q S0 pattern) by (fields; congruence).
  mrun.
  unfold Binding_delete, new_Promise, new_promise. mrun.
  then_step. mrun. eexists. split; [reflexivity |].
  by rewrite Hconn0, Hconn, Hcalls0, Hcalls.
Qed.

(** X27: The registry of bindings follows the answers of the broker, for a
    binding to a queue and for a binding to an exchange alike: a binding the
    broker refuses is taken out and its promise is rejected; one it accepts
    stays and its promise is fulfilled with the binding; a binding stays
    registered when the broker refuses to remove it and is taken out when
    the removal is confirmed. *)
Theorem binding_registry_follows_the_broker (t : token) (b : ref) (B : Binding.t) (p : pid)
    (rs : list reaction) (kind name : string) (S0 : Exchange.t) (err : error) (v : jsval)
    (st : State) :
  bindings st !! b = Some B →
  is_destination (Binding._destination B) kind name st →
  exchanges st !! Binding._source B = Some S0 →
  promises st !! p = Some (Pending rs) →
  let id := binding_key (Exchange._name S0) kind name (Binding._pattern B) in
  (callbacks st !! t = Some (CbBind b p) →
   (let st' := step (ECallback t (Err err)) st in
    Connection._bindings (conn st') = delete id (Connection._bindings (conn st))
    ∧ promises st' !! p = Some (Rejected err))
   ∧ (let st' := step (ECallback t (Ok v)) st in
      Connection._bindings (conn st') = Connection._bindings (conn st)
      ∧ promises st' !! p = Some (Fulfilled (VRef b))))
  ∧ (callbacks st !! t = Some (CbUnbind b p) →
     (let st' := step (ECallback t (Err err)) st in
      Connection._bindings (conn st') = Connection._bindings (conn st)
      ∧ promises st' !! p = Some (Rejected err))
     ∧ (let st' := step (ECallback t (Ok v)) st in
        Connection._bindings (conn st') = delete id (Connection._bindings (conn st))
        ∧ promises st' !! p = Some (Fulfilled VNull))).
Proof.
  intros HB Hd HS Hp id. subst id.
  destruct (Binding._destination B) as [d | q] eqn:HdB;
    destruct Hd as (-> & X & HX & Hc & <-).
  - assert (Hid : ∀ st0, queues st0 = queues st → exchanges st0 = exchanges st →
              Binding_id (EP_Exchange d) (Binding._source B) (Binding._pattern B) st0
              = (Ret (binding_key (Exchange._name S0) "Exchange" (Exchange._name X)
                        (Binding._pattern B)), st0)).
    { intros st0 Hq He. apply Binding_id_exchange; congruence. }
    split; intros Ht; split; intros st'; subst st'.
    + erewrite step_fire_ret.
      2:{ unfold fire. mrun. unfold on_CbBind, Binding_unregister, reject. mrun.
          rewrite Hid by done. mrun. reflexivity. }
      by mrun.
    + erewrite step_fire_ret.
      2:{ unfold fire. mrun. unfold on_CbBind, resolve. mrun. reflexivity. }
      by mrun.
    + erewrite step_fire_ret.
      2:{ unfold fire. mrun. unfold on_CbUnbind, reject. mrun. reflexivity. }
      by mrun.
    + erewrite step_fire_ret.
      2:{ unfold fire. mrun. unfold on_CbUnbind, Binding_unregister, resolve. mrun.
          rewrite Hid by done. mrun. reflexivity. }
      by mrun.
  - assert (Hid : ∀ st0, queues st0 = queues st → exchanges st0 = exchanges st →
              Binding_id (EP_Queue q) (Binding._source B) (Binding._pattern B) st0
              = (Ret (binding_key (Exchange._name S0) "Queue" (Queue._name X)
                        (Binding._pattern B)), st0)).
    { intros st0 Hq He. apply Binding_id_queue; congruence. }
    split; intros Ht; split; intros st'; subst st'.
    + erewrite step_fire_ret.
      2:{ unfold fire. mrun. unfold on_CbBind, Binding_unregister, reject. mrun.
          rewrite Hid by done. mrun. reflexivity. }
      by mrun.
    + erewrite step_fire_ret.
      2:{ unfold fire. mrun. unfold on_CbBind, resolve. mrun. reflexivity. }
      by mrun.
    + erewrite step_fire_ret.
      2:{ unfold fire. mrun. unfold on_CbUnbind, reject. mrun. reflexivity. }
      by mrun.
    + erewrite step_fire_ret.
      2:{ unfold fire. mrun. unfold on_CbUnbind, Binding_unregister, resolve. mrun.
          rewrite Hid by done. mrun. reflexivity. }
      by mrun.
Qed.

End Bindings.

(** ** The consumer of an exchange *)

Section ExchangeConsumer.
Context `{JSON}.
Variables (ApplicationName hostname : string) (process_pid : Z).

(** X28: [Exchange.startConsumer] and [Exchange.activateConsumer] return a
    rejected promise, and declare nothing, when a queue is registered under
    the name [consumerQueueName] gives; [Exchange.stopConsumer] does so when
    none is. *)
Theorem exchange_consumer_guards (e : ref) (E : Exchange.t) (f : consumer_fn)
    (o : option props) (st : State) :
  exchanges st !! e = Some E →
  Exchange._connection E = Some this_connection →
  let queueName := Exchange._name E +:+ "." +:+ ApplicationName +:+ "." +:+ hostname +:+ "."
                   +:+ pretty process_pid in
  (∀ q, Connection._queues (conn st) !! queueName = Some q →
        rejects_with (Exchange_startConsumer ApplicationName hostname process_pid e f o)
          (next st) (next st)
          "amqp-ts Exchange.startConsumer error: consumer already defined" st
        ∧ rejects_with (Exchange_activateConsumer ApplicationName hostname process_pid e f o)
            (next st) (next st)
            "amqp-ts Exchange.activateConsumer error: consumer already defined" st)
  ∧ (Connection._queues (conn st) !! queueName = None →
     rejects_with (Exchange_stopConsumer ApplicationName hostname process_pid e)
       (next st) (next st)
       "amqp-ts Exchange.cancelConsumer error: no consumer defined" st).
Proof.
  intros HE Hc queueName. subst queueName.
  split; [intros q Hq; split | intros Hq].
  - unfold rejects_with, Exchange_startConsumer, Exchange_consumerQueueName. mrun.
    apply rejected_promise_spec.
  - unfold rejects_with, Exchange_activateConsumer, Exchange_consumerQueueName. mrun.
    apply rejected_promise_spec.
  - unfold rejects_with, Exchange_stopConsumer, Exchange_consumerQueueName. mrun.
    apply rejected_promise_spec.
Qed.

(** X29: [Exchange.startConsumer] on an exchange that has no consumer declares a
    queue that is not durable, named after the exchange, the application, the
    host and the process, binds it to the exchange with the empty pattern and
    starts the consumer on it; nothing is sent to the broker by the call
    itself. *)
Theorem exchange_consumer_setup (e : ref) (E : Exchange.t) (ci : pid) (f : consumer_fn)
    (o : option props) (st : State) :
  exchanges st !! e = Some E →
  Exchange._connection E = Some this_connection →
  Connection.initialized (conn st) = Some ci →
  let queueName := Exchange._name E +:+ "." +:+ ApplicationName +:+ "." +:+ hostname +:+ "."
                   +:+ pretty process_pid in
  Connection._queues (conn st) !! queueName = None →
  ∃ st' p Q,
    Exchange_startConsumer ApplicationName hostname process_pid e f o st = (Ret p, st')
    ∧ Connection._queues (conn st') = <[queueName := next st]> (Connection._queues (conn st))
    ∧ queues st' !! next st = Some Q
    ∧ Queue._name Q = queueName
    ∧ Queue._options Q = Some {["durable" := VBool false]}
    ∧ Queue._consumer Q = Some f
    ∧ Queue._isStartConsumer Q = true
    ∧ Connection._bindings (conn st')
      = <[binding_key (Exchange._name E) "Queue" queueName "" := S (S (next st))]>
          (Connection._bindings (conn st))
    ∧ exchanges st' = exchanges st
    ∧ calls st' = calls st.
Proof.
  intros HE Hc Hci queueName Hq. subst queueName.
  unfold Exchange_startConsumer, Exchange_consumerQueueName. mrun.
  unfold Connection_declareQueue. mrun.
  rewrite bool_decide_false by apply dotted_own, dotted_app.
  mrun.
  unfold Queue_new, alloc_queue, Queue__initialize, new_Promise, new_promise. mrun.
  then_step. mrun.
  unfold bind, Binding_new, alloc_binding. mrun.
  erewrite Binding_id_queue; [| fields; mrun; reflexivity | fields; by mrun]. mrun.
  unfold Binding__initialize, new_Promise, new_promise. mrun.
  then_step. mrun.
  unfold Queue_startConsumer. mrun.
  unfold Queue__initializeConsumer, new_Promise, new_promise. mrun.
  then_step. mrun.
  unfold Promise_all, new_promise. mrun. cbn [omap list_omap id for_each length]. mrun.
  then_step. mrun. then_step. mrun. then_step. mrun.
  eexists _, _, _. split; [reflexivity |]. mrun.
  repeat split; reflexivity.
Qed.

End ExchangeConsumer.

(** ["q1"] was never bound to ["e1"]. *)
Lemma unbind_without_binding_throws_witness :
  unbind (EP_Queue 4) 2 "" ∅ ready = (Throw "TypeError: binding is undefined", ready).
Proof.
  destruct ready_connection as (_ & _ & _ & Hb).
  assert (Hn : Connection._bindings (conn ready)
                 !! binding_key (Exchange._name e1_object) "Queue" (Queue._name q1_object) ""
               = None) by (rewrite Hb; apply lookup_empty).
  exact (proj1 (unbind_without_binding_throws 2 e1_object "" ∅ ready ready_exchange)
           4%nat q1_object ready_queue eq_refl Hn).
Defined.

(** ["q1"] is bound to ["e1"] and unbound with other arguments. *)
Lemma bind_then_unbind_witness :
  let id := binding_key (Exchange._name e1_object) "Queue" (Queue._name q1_object) "" in
  ∃ st1,
    bind (EP_Queue 4) 2 "" ∅ ready = (Ret (Some (S (next ready))), st1)
    ∧ Connection._bindings (conn st1)
      = <[id := next ready]> (Connection._bindings (conn ready))
    ∧ bindings st1 !! next ready
      = Some {| Binding.initialized := Some (S (next ready)); Binding._source := 2%nat;
                Binding._destination := EP_Queue 4; Binding._pattern := "";
                Binding._args := ∅ |}
    ∧ ∃ st2,
        unbind (EP_Queue 4) 2 "" {["x" := VBool true]} st1
        = (Ret (S (S (next ready))), st2)
        ∧ Connection._bindings (conn st2) = Connection._bindings (conn st1)
        ∧ calls st2 = calls ready.
Proof.
  exact (bind_then_unbind 4 2 q1_object e1_object 5 "" ∅ {["x" := VBool true]} ready
           ready_queue eq_refl eq_refl ready_exchange).
Defined.

(** The broker answers the binding of ["q1"] to ["e1"]. *)
Lemma binding_registry_follows_the_broker_witness :
  let id := binding_key (Exchange._name e1_object) "Queue" "q1"
              (Binding._pattern b1_object) in
  (let st' := step (H := Json.codec) (ECallback 17 (Err "NOT_FOUND")) binding in
   Connection._bindings (conn st') = delete id (Connection._bindings (conn binding))
   ∧ promises st' !! 16%nat = Some (Rejected "NOT_FOUND"))
  ∧ (let st' := step (H := Json.codec) (ECallback 17 (Ok VNull)) binding in
     Connection._bindings (conn st') = Connection._bindings (conn binding)
     ∧ promises st' !! 16%nat = Some (Fulfilled (VRef 15))).
Proof.
  destruct binding_facts as (HB & HQ & HS & Hp & Ht).
  assert (Hd : is_destination (Binding._destination b1_object) "Queue" "q1" binding)
    by (split; [reflexivity |]; exists q1_object; split; [exact HQ | split; reflexivity]).
  exact (proj1 (binding_registry_follows_the_broker (H := Json.codec) 17 15 b1_object 16 []
                  "Queue" "q1" e1_object "NOT_FOUND" VNull binding
                  HB Hd HS Hp) Ht).
Defined.

(** ["e1"] has no consumer. *)
Lemma exchange_consumer_guards_witness :
  rejects_with (Exchange_stopConsumer "app" "host" 42 2) (next ready) (next ready)
    "amqp-ts Exchange.cancelConsumer error: no consumer defined" ready.
Proof.
  exact (proj2 (exchange_consumer_guards "app" "host" 42 2 e1_object echo None ready
                  ready_exchange eq_refl) ready_no_consumer_queue).
Defined.

(** A consumer is started on ["e1"]. *)
Lemma exchange_consumer_setup_witness :
  let queueName := Exchange._name e1_object +:+ "." +:+ "app" +:+ "." +:+ "host" +:+ "."
                   +:+ pretty 42%Z in
  ∃ st' p Q,
    Exchange_startConsumer "app" "host" 42 2 echo None ready = (Ret p, st')
    ∧ Connection._queues (conn st')
      = <[queueName := next ready]> (Connection._queues (conn ready))
    ∧ queues st' !! next ready = Some Q
    ∧ Queue._name Q = queueName
    ∧ Queue._options Q = Some {["durable" := VBool false]}
    ∧ Queue._consumer Q = Some echo
    ∧ Queue._isStartConsumer Q = true
    ∧ Connection._bindings (conn st')
      = <[binding_key (Exchange._name e1_object) "Queue" queueName "" := S (S (next ready))]>
          (Connection._bindings (conn ready))
    ∧ exchanges st' = exchanges ready
    ∧ calls st' = calls ready.
Proof.
  exact (exchange_consumer_setup "app" "host" 42 2 e1_object 0 echo None ready
           ready_exchange eq_refl (proj1 ready_connection) ready_no_consumer_queue).
Defined.
(** ** Deleting the configuration *)

Section DeleteConfiguration.
Context `{JSON}.

(** X30: [deleteConfiguration] on a connection whose only object is a queue with
    a consumer, both ready: the call itself sends nothing; then the consumer
    is cancelled under its tag, the queue is deleted and its channel closed,
    in this order; once the broker has confirmed the three, the queue is not
    registered any more and the promise [deleteConfiguration] returned is
    fulfilled. *)
Theorem deleteConfiguration_round_trip (q : ref) (Q : Queue.t) (i ci : pid) (vi vci : jsval)
    (ch : chan) (v ok v' : jsval) (st : State) :
  Connection._exchanges (conn st) = ∅ →
  Connection._queues (conn st) = {[Queue._name Q := q]} →
  Connection._bindings (conn st) = ∅ →
  queues st !! q = Some Q →
  Queue._connection Q = Some this_connection →
  Queue.initialized Q = Some i →
  Queue._consumerInitialized Q = Some ci →
  promises st !! i = Some (Fulfilled vi) →
  promises st !! ci = Some (Fulfilled vci) →
  (i < next st)%nat → (ci < next st)%nat →
  Queue._channel Q = Some ch →
  ch ∉ stale st →
  tasks st = [] →
  let n := next st in
  let m := S (S (S n)) in
  let st' := run [ERunTask; ERunTask; ERunTask;
                  ECallback m (Ok v);
                  ECallback (S (S m)) (Ok ok);
                  ECallback (S (S (S m))) (Ok v');
                  ERunTask; ERunTask]
               (exec Connection_deleteConfiguration st) in
  Connection_deleteConfiguration st = (Ret (S (S n)), exec Connection_deleteConfiguration st)
  ∧ calls (exec Connection_deleteConfiguration st) = calls st
  ∧ calls st' = calls st ++ [LCancel ch (Queue._consumerTag Q) (Some m);
                             LDeleteQueue ch (Queue._name Q) (S (S m));
                             LChannelClose ch (S (S (S m)))]
  ∧ Connection._queues (conn st') = ∅
  ∧ (∃ r, promises st' !! S (S n) = Some (Fulfilled r))
  ∧ unhandled st' = unhandled st.
Proof.
  intros Hre Hrq Hrb HQ Hc Hi Hci Hpi Hpci Hlt Hlt' Hch Hs Ht n m st'. subst n m st'.
  eassert (Hd : Connection_deleteConfiguration st = _).
  { unfold Connection_deleteConfiguration. mloop.
    unfold Queue_stopConsumer, new_Promise, new_promise. mloop.
    unfold then_, then2. mloop.
    unfold Queue_delete, new_Promise, new_promise. mloop.
    unfold then_, then2. mloop.
    unfold Promise_all, new_promise. mloop.
    unfold then2. mloop. reflexivity. }
  unfold exec. rewrite Hd. cbn [snd]. clear Hd.
  split; [reflexivity |]. split; [reflexivity |].
  unfold run. cbn [foldl].
  run_step.
  2:{ unfold run_next. mloop. unfold run_TQueueCancel. mloop. reflexivity. }
  run_step.
  2:{ unfold run_next. mloop. unfold run_TQueueDelete1, Binding_removeBindingsContaining.
      mloop. unfold Promise_all, new_promise. mloop. unfold resolve. mloop.
      unfold then_, then2. mloop. reflexivity. }
  run_step.
  2:{ unfold run_next. mloop. unfold run_TQueueDelete2. mloop. reflexivity. }
  run_step.
  2:{ unfold fire. mloop. unfold on_CbCancel, resolve. mloop. reflexivity. }
  run_step.
  2:{ unfold fire. mloop. unfold on_CbDeleteQueue, unregister_queue. mloop. reflexivity. }
  run_step.
  2:{ unfold fire. mloop. unfold on_CbQueueClosed, resolve. mloop. reflexivity. }
  run_step.
  2:{ unfold run_next. mloop. unfold run_TAllPart. mloop. reflexivity. }
  run_step.
  2:{ unfold run_next. mloop. unfold run_TAllPart, resolve. mloop. reflexivity. }
  mloop. rewrite <- !app_assoc, delete_singleton_eq.
  split; [done |]. split; [done |]. split; [by eexists | done].
Qed.

End DeleteConfiguration.

(** ["q1"] and its consumer are deleted. *)
Lemma deleteConfiguration_round_trip_witness :
  let st := q1_alone_consuming in
  let n := next st in
  let m := S (S (S n)) in
  let st' := run (H := Json.codec)
               [ERunTask; ERunTask; ERunTask;
                ECallback m (Ok VNull);
                ECallback (S (S m)) (Ok (VObj [("messageCount", VNum 0)]));
                ECallback (S (S (S m))) (Ok VNull);
                ERunTask; ERunTask]
               (exec Connection_deleteConfiguration st) in
  Connection_deleteConfiguration st = (Ret (S (S n)), exec Connection_deleteConfiguration st)
  ∧ calls (exec Connection_deleteConfiguration st) = calls st
  ∧ calls st' = calls st ++ [LCancel 7 (Queue._consumerTag q1_alone) (Some m);
                             LDeleteQueue 7 (Queue._name q1_alone) (S (S m));
                             LChannelClose 7 (S (S (S m)))]
  ∧ Connection._queues (conn st') = ∅
  ∧ (∃ r, promises st' !! S (S n) = Some (Fulfilled r))
  ∧ unhandled st' = unhandled st.
Proof.
  destruct q1_alone_facts as (Hre & Hrq & Hrb & HQ & Hpi & Hpci & Hn & Hs & Ht).
  assert (Hlive : 7%nat ∉ stale q1_alone_consuming)
    by (rewrite Hs; apply not_elem_of_empty).
  assert (Hi : (3 < next q1_alone_consuming)%nat) by (rewrite Hn; lia).
  assert (Hci : (9 < next q1_alone_consuming)%nat) by (rewrite Hn; lia).
  exact (deleteConfiguration_round_trip (H := Json.codec) 2 q1_alone 3 9 _ _ 7 VNull
           (VObj [("messageCount", VNum 0)]) VNull q1_alone_consuming
           Hre Hrq Hrb HQ eq_refl eq_refl eq_refl Hpi Hpci Hi Hci eq_refl Hlive Ht).
Defined.
